(** * Secrets Manager secret-version resource and ivschat tag glue

    A shallow embedding of
      - [aws/resource_aws_secretsmanager_secret_version.go] and
      - [internal/service/ivschat/tags_gen.go],
    together with the properties of the stage-label reconciliation that the
    specification states about them.

    Go strings are byte sequences, modelled by [string]; a Go pointer
    [*string] is an [option string] with [None] for [nil]; a Go [error]
    value that may be [nil] is an [option error].  Remote calls are made
    through an interface whose implementation is arbitrary: it is a state
    transformer on an abstract world, and every call is recorded, with its
    answer, in a trace. *)

From Stdlib Require Import Ascii String.
From stdpp Require Import gmap strings list.

Local Open Scope string_scope.

(** ** Go strings *)

(** [strings.Split(s, sep)] for a one-byte separator: the pieces of [s]
    between the occurrences of [sep]; [n] occurrences give [n + 1] pieces,
    and the empty string gives one empty piece. *)
Fixpoint Split (s : string) (sep : ascii) : list string :=
  match s with
  | EmptyString => [EmptyString]
  | String c s' =>
      if Ascii.eqb c sep then EmptyString :: Split s' sep
      else match Split s' sep with
           | piece :: pieces => String c piece :: pieces
           | [] => [String c EmptyString]
           end
  end.

(** [strings.Count(s, sep)] for a one-byte separator. *)
Fixpoint Count (s : string) (sep : ascii) : nat :=
  match s with
  | EmptyString => 0
  | String c s' => (if Ascii.eqb c sep then 1 else 0) + Count s' sep
  end.

(** [strings.Contains(s, substr)]. *)
Fixpoint Contains (s substr : string) : bool :=
  String.prefix substr s ||
  match s with
  | EmptyString => false
  | String _ s' => Contains s' substr
  end.

(** [aws.StringValue]: the pointee, or the empty string for [nil]. *)
Definition StringValue (p : option string) : string := default "" p.

(** ** Go errors *)

(** The error values the two files create or inspect:
    [awserr.Error] of the AWS SDK, [resource.TimeoutError] of the plugin SDK,
    and the results of [fmt.Errorf], which keeps its format, its string
    operands and its error operand, if any. *)
#[warnings="-register-all"]
Inductive error : Type :=
| awserr (Code Message : string)
| TimeoutError (LastError : option error)
| Errorf (format : string) (args : list string) (operand : option error).

(** [errors.As(err, &awsErr)]: the first [awserr.Error] on the unwrap chain,
    as its code and message.  A [TimeoutError] unwraps to its last error, and
    the result of [fmt.Errorf] to its error operand when the verb is [%w]. *)
Fixpoint As_awserr (e : error) : option (string * string) :=
  match e with
  | awserr code message => Some (code, message)
  | TimeoutError last =>
      match last with Some e' => As_awserr e' | None => None end
  | Errorf format _ operand =>
      if Contains format "%w"
      then match operand with Some e' => As_awserr e' | None => None end
      else None
  end.

(** [tfawserr.ErrCodeEquals]. *)
Definition ErrCodeEquals (err : option error) (code : string) : bool :=
  match err ≫= As_awserr with
  | Some (c, _) => String.eqb c code
  | None => false
  end.

(** [tfawserr.ErrMessageContains]. *)
Definition ErrMessageContains (err : option error) (code message : string) : bool :=
  match err ≫= As_awserr with
  | Some (c, m) => String.eqb c code && Contains m message
  | None => false
  end.

(** Modelled from the spec: [isAWSErr] of the provider (aws/awserr.go is not
    among the sources): the error is an [awserr.Error] with this code whose
    message contains the given text; this is what makes "resource not found"
    and "secret already deleted" the absence errors of the deletion path. *)
Definition isAWSErr (err : error) (code message : string) : bool :=
  ErrMessageContains (Some err) code message.

(** Modelled from the spec: [tfresource.TimedOut] (aws/internal/tfresource is
    not among the sources): the retry window elapsed without an attempt
    having settled the result; a wrapped timeout does not count. *)
Definition TimedOut (err : option error) : bool :=
  match err with
  | Some (TimeoutError None) => true
  | _ => false
  end.

Definition ErrCodeResourceNotFoundException : string := "ResourceNotFoundException".
Definition ErrCodeInvalidRequestException : string := "InvalidRequestException".
Definition secretWasDeleted : string :=
  "You can’t perform this operation on the secret because it was deleted".

(** ** Resource identifiers *)

(** The identifier [resourceAwsSecretsManagerSecretVersionCreate] stores:
    [fmt.Sprintf("%s|%s", secretID, aws.StringValue(output.VersionId))]. *)
Definition createdID (secretID : string) (VersionId : option string) : string :=
  secretID +:+ "|" +:+ StringValue VersionId.

Definition decodeSecretsManagerSecretVersionID (id : string)
  : string * string * option error :=
  let idParts := Split id "|" in
  if negb (Nat.eqb (List.length idParts) 2)
  then ("", "", Some (Errorf "expected ID in format SecretID|VersionID, received: %s"
                             [id] None))
  else (nth 0 idParts "", nth 1 idParts "", None).

(** What the specification asks of a well-formed identifier: it splits on
    the delimiter into exactly two parts and neither is empty. *)
Definition twoNonEmptyParts (id : string) : bool :=
  match Split id "|" with
  | [part0; part1] => negb (String.eqb part0 "") && negb (String.eqb part1 "")
  | _ => false
  end.


(** ** Control flow of a Go function body *)

(** A statement either falls through to the next one with a value, makes the
    enclosing function return its [error] result, panics, or does not come
    back within the iterations the model grants to an unbounded [for]. *)
Inductive outcome (A : Type) : Type :=
| Next (a : A)
| Return (r : option error)
| Panic (msg : string)
| OutOfFuel.
Arguments Next {A} a.
Arguments Return {A} r.
Arguments Panic {A} msg.
Arguments OutOfFuel {A}.

Definition M (S A : Type) : Type := S → outcome A * S.

Definition M_ret {S A} (a : A) : M S A := λ s, (Next a, s).

Definition M_bind {S A B} (k : A → M S B) (m : M S A) : M S B :=
  λ s, match m s with
       | (Next a, s') => k a s'
       | (Return r, s') => (Return r, s')
       | (Panic msg, s') => (Panic msg, s')
       | (OutOfFuel, s') => (OutOfFuel, s')
       end.

#[global] Instance M_MRet S : MRet (M S) := @M_ret S.
#[global] Instance M_MBind S : MBind (M S) := @M_bind S.

(** [return r] of the enclosing function. *)
Definition return_ {S A} (r : option error) : M S A := λ s, (Return r, s).

Definition panic {S A} (msg : string) : M S A := λ s, (Panic msg, s).

Definition outOfFuel {S A} : M S A := λ s, (OutOfFuel, s).

(** [*p]: dereferencing [nil] is a run-time panic. *)
Definition deref {S A} (p : option A) : M S A :=
  match p with
  | Some a => mret a
  | None => panic "invalid memory address or nil pointer dereference"
  end.

(** A call of a Go function whose body is [body]: what the body returns is
    the value of the call; a panic unwinds through the caller. *)
Definition call {S} (body : M S Empty_set) : M S (option error) :=
  λ s, match body s with
       | (Next a, s') => match a with end
       | (Return r, s') => (Next r, s')
       | (Panic msg, s') => (Panic msg, s')
       | (OutOfFuel, s') => (OutOfFuel, s')
       end.

(** ** The Secrets Manager API *)

Module GetSecretValueInput.
Record t : Type := { SecretId : option string; VersionId : option string }.
End GetSecretValueInput.

Module GetSecretValueOutput.
Record t : Type := {
  ARN : option string;
  SecretBinary : string;
  SecretString : option string;
  VersionId : option string;
  VersionStages : list (option string) }.
End GetSecretValueOutput.

Module DescribeSecretInput.
Record t : Type := { SecretId : option string }.
End DescribeSecretInput.

Module DescribeSecretOutput.
Record t : Type := { ARN : option string; Name : option string }.
End DescribeSecretOutput.

Module ListSecretVersionIdsInput.
Record t : Type := { NextToken : option string; SecretId : option string }.
End ListSecretVersionIdsInput.

Module SecretVersionsListEntry.
Record t : Type := { VersionId : option string; VersionStages : list (option string) }.
End SecretVersionsListEntry.

Module ListSecretVersionIdsOutput.
Record t : Type := { Versions : list SecretVersionsListEntry.t; NextToken : option string }.
End ListSecretVersionIdsOutput.

Module UpdateSecretVersionStageInput.
Record t : Type := {
  MoveToVersionId : option string;
  RemoveFromVersionId : option string;
  SecretId : option string;
  VersionStage : option string }.
End UpdateSecretVersionStageInput.

(** The client [conn]: each operation answers with its output pointer and
    its error, and may change the remote world.  The output of
    [UpdateSecretVersionStage] is discarded by every caller and left out. *)
Class SecretsManagerAPI (W : Type) : Type := {
  GetSecretValue :
    GetSecretValueInput.t → W → option GetSecretValueOutput.t * option error * W;
  DescribeSecret :
    DescribeSecretInput.t → W → option DescribeSecretOutput.t * option error * W;
  ListSecretVersionIds :
    ListSecretVersionIdsInput.t → W →
    option ListSecretVersionIdsOutput.t * option error * W;
  UpdateSecretVersionStage :
    UpdateSecretVersionStageInput.t → W → option error * W }.

(** An operand of a log line. *)
Inductive LogArg : Type :=
| LogString (s : string)
| LogInput (input : UpdateSecretVersionStageInput.t).

(** What a run leaves behind, in order: the remote calls with their answers,
    and the lines handed to [log.Printf]. *)
Inductive Event : Type :=
| CallGetSecretValue (input : GetSecretValueInput.t)
    (output : option GetSecretValueOutput.t) (err : option error)
| CallDescribeSecret (input : DescribeSecretInput.t)
    (output : option DescribeSecretOutput.t) (err : option error)
| CallListSecretVersionIds (input : ListSecretVersionIdsInput.t)
    (output : option ListSecretVersionIdsOutput.t) (err : option error)
| CallUpdateSecretVersionStage (input : UpdateSecretVersionStageInput.t)
    (err : option error)
| Log (format : string) (args : list LogArg).

(** ** [schema.ResourceData] and [schema.Set] *)

(** A [*schema.Set] of strings is a finite set; [Difference] and [Len] are
    the set operations of the plugin SDK. *)
Definition Difference (s other : gset string) : gset string := s ∖ other.
Definition Len (s : gset string) : nat := size s.

(** The part of the resource data the resource functions read and write:
    the identifier, the new-resource flag, the stages recorded in the prior
    state and their current value, and the attributes [Read] sets. *)
Record ResourceData : Type := {
  Id : string;
  IsNewResource : bool;
  prior_version_stages : gset string;
  version_stages : gset string;
  secret_id : string;
  secret_string : option string;
  secret_binary : string;
  version_id : option string;
  arn : option string }.

Definition SetId (v : string) (d : ResourceData) : ResourceData :=
  {| Id := v; IsNewResource := IsNewResource d;
     prior_version_stages := prior_version_stages d;
     version_stages := version_stages d;
     secret_id := secret_id d; secret_string := secret_string d;
     secret_binary := secret_binary d; version_id := version_id d; arn := arn d |}.

(** [d.GetChange("version_stages")]: the old and the new value. *)
Definition GetChange_version_stages (d : ResourceData) : gset string * gset string :=
  (prior_version_stages d, version_stages d).

(** [d.GetOk("version_stages")]: the value, and whether it is not the zero
    value, which for a set is the empty set. *)
Definition GetOk_version_stages (d : ResourceData) : gset string * bool :=
  (version_stages d, negb (Nat.eqb (Len (version_stages d)) 0)).

(** Functions of other packages that the resource file calls and whose
    result is passed on unexamined: the order in which [List] of [schema.Set]
    enumerates a set (it sorts by hash code), and the provider's
    [base64Encode] and [flattenStringList]. *)
Class Externals : Type := {
  List : gset string → list string;
  base64Encode : string → string;
  flattenStringList : list (option string) → list string }.

(** The state a resource function runs in. *)
Record state (W : Type) : Type := {
  world : W;
  d : ResourceData;
  trace : list Event }.
Arguments world {W} s.
Arguments d {W} s.
Arguments trace {W} s.

(** [for _, x := range l { body }] with the variables the body assigns
    carried from one iteration to the next; [continue] is falling through. *)
Fixpoint range {S A V} (l : list A) (body : A → V → M S V) (v : V) : M S V :=
  match l with
  | [] => mret v
  | x :: l' => v' ← body x v; range l' body v'
  end.

(** [resource.RetryError] with its two constructors. *)
Record RetryError : Type := { Err : error; Retryable : bool }.

Definition RetryableError (err : option error) : option RetryError :=
  match err with
  | Some e => Some {| Err := e; Retryable := true |}
  | None => None
  end.

Definition NonRetryableError (err : option error) : option RetryError :=
  match err with
  | Some e => Some {| Err := e; Retryable := false |}
  | None => None
  end.

(** [resource.Retry(timeout, f)] of the plugin SDK, with the time window
    replaced by [attempts], the number of runs of [f] that complete inside
    it.  A run without error, or with a non-retryable one, settles the
    result; so does the last run the window admits; and a window in which
    no run completes gives a bare [TimeoutError].  [captured] is the
    variable of the caller that [f] assigns. *)
Fixpoint Retry {S V} (attempts : nat) (f : M S (V * option RetryError)) (captured : V)
  : M S (V * option error) :=
  match attempts with
  | 0 => mret (captured, Some (TimeoutError None))
  | 1 =>
      '(v, rerr) ← f;
      mret (v, Err <$> rerr)
  | Datatypes.S n =>
      '(v, rerr) ← f;
      match rerr with
      | None => mret (v, None)
      | Some re => if Retryable re then Retry n f v else mret (v, Some (Err re))
      end
  end.

Definition isCURRENT (versionStage : option string) : bool :=
  match versionStage with
  | Some s => String.eqb s "AWSCURRENT"
  | None => false
  end.

(** The two inner loops of the pagination loop: the identifier pointer of
    the first version of the page one of whose stages is [AWSCURRENT], at
    which the code breaks out of all three loops. *)
Fixpoint scanVersions (Versions : list SecretVersionsListEntry.t) : option (option string) :=
  match Versions with
  | [] => None
  | version :: rest =>
      if existsb isCURRENT (SecretVersionsListEntry.VersionStages version)
      then Some (SecretVersionsListEntry.VersionId version)
      else scanVersions rest
  end.

Section Resource.
Context {W : Type} {conn : SecretsManagerAPI W} {ext : Externals}.

Definition emit (e : Event) : M (state W) unit :=
  λ s, (Next (), {| world := world s; d := d s; trace := trace s ++ [e] |}).

Definition log_Printf (format : string) (args : list LogArg) : M (state W) unit :=
  emit (Log format args).

Definition get_d : M (state W) ResourceData := λ s, (Next (d s), s).

Definition set_d (f : ResourceData → ResourceData) : M (state W) unit :=
  λ s, (Next (), {| world := world s; d := f (d s); trace := trace s |}).

Definition conn_GetSecretValue (input : GetSecretValueInput.t)
  : M (state W) (option GetSecretValueOutput.t * option error) :=
  λ s, let '(output, err, w) := GetSecretValue input (world s) in
       (Next (output, err),
        {| world := w; d := d s;
           trace := trace s ++ [CallGetSecretValue input output err] |}).

Definition conn_DescribeSecret (input : DescribeSecretInput.t)
  : M (state W) (option DescribeSecretOutput.t * option error) :=
  λ s, let '(output, err, w) := DescribeSecret input (world s) in
       (Next (output, err),
        {| world := w; d := d s;
           trace := trace s ++ [CallDescribeSecret input output err] |}).

Definition conn_ListSecretVersionIds (input : ListSecretVersionIdsInput.t)
  : M (state W) (option ListSecretVersionIdsOutput.t * option error) :=
  λ s, let '(output, err, w) := ListSecretVersionIds input (world s) in
       (Next (output, err),
        {| world := w; d := d s;
           trace := trace s ++ [CallListSecretVersionIds input output err] |}).

Definition conn_UpdateSecretVersionStage (input : UpdateSecretVersionStageInput.t)
  : M (state W) (option error) :=
  λ s, let '(err, w) := UpdateSecretVersionStage input (world s) in
       (Next err,
        {| world := w; d := d s;
           trace := trace s ++ [CallUpdateSecretVersionStage input err] |}).

(** *** Read *)

(** The six [d.Set] calls that end a successful read. *)
Definition setAttributes (secretID : string) (output : GetSecretValueOutput.t)
  (d : ResourceData) : ResourceData :=
  {| Id := Id d; IsNewResource := IsNewResource d;
     prior_version_stages := prior_version_stages d;
     version_stages := list_to_set (flattenStringList (GetSecretValueOutput.VersionStages output));
     secret_id := secretID;
     secret_string := GetSecretValueOutput.SecretString output;
     secret_binary := base64Encode (GetSecretValueOutput.SecretBinary output);
     version_id := GetSecretValueOutput.VersionId output;
     arn := GetSecretValueOutput.ARN output |}.

(** The function handed to [resource.Retry]. *)
Definition readAttempt (input : GetSecretValueInput.t)
  : M (state W) (option GetSecretValueOutput.t * option RetryError) :=
  '(output, err) ← conn_GetSecretValue input;
  rd ← get_d;
  if IsNewResource rd && ErrCodeEquals err ErrCodeResourceNotFoundException
  then mret (output, RetryableError err)
  else if IsNewResource rd &&
          ErrMessageContains err ErrCodeInvalidRequestException secretWasDeleted
  then mret (output, RetryableError err)
  else match err with
       | Some _ => mret (output, NonRetryableError err)
       | None => mret (output, None)
       end.

Definition notFoundWarning : string :=
  "[WARN] Secrets Manager Secret Version (%s) not found, removing from state".

Definition resourceAwsSecretsManagerSecretVersionRead_body (attempts : nat)
  : M (state W) Empty_set :=
  rd ← get_d;
  let '(secretID, versionID, err) := decodeSecretsManagerSecretVersionID (Id rd) in
  match err with
  | Some e => return_ (Some e)
  | None =>
      let input := {| GetSecretValueInput.SecretId := Some secretID;
                      GetSecretValueInput.VersionId := Some versionID |} in
      '(output, err) ← Retry attempts (readAttempt input) None;
      '(output, err) ← (if TimedOut err then conn_GetSecretValue input
                        else mret (output, err));
      if negb (IsNewResource rd) && ErrCodeEquals err ErrCodeResourceNotFoundException
      then log_Printf notFoundWarning [LogString (Id rd)];;
           set_d (SetId "");;
           return_ None
      else if negb (IsNewResource rd) &&
              ErrMessageContains err ErrCodeInvalidRequestException secretWasDeleted
      then log_Printf notFoundWarning [LogString (Id rd)];;
           set_d (SetId "");;
           return_ None
      else match err with
           | Some e =>
               return_ (Some (Errorf "error reading Secrets Manager Secret Version (%s): %w"
                                     [Id rd] (Some e)))
           | None =>
               match output with
               | None =>
                   return_ (Some (Errorf "error reading Secrets Manager Secret Version (%s): empty response"
                                         [Id rd] None))
               | Some output =>
                   set_d (setAttributes secretID output);;
                   return_ None
               end
           end
  end.

Definition resourceAwsSecretsManagerSecretVersionRead (attempts : nat)
  : M (state W) (option error) :=
  call (resourceAwsSecretsManagerSecretVersionRead_body attempts).

(** *** Update *)

Definition updateError (secretID stage : string) (err : error) : error :=
  Errorf "error updating Secrets Manager Secret %q Version Stage %q: %s"
         [secretID; stage] (Some err).

(** The loop labelled [loopListVersionIDsPagination]: its value is
    [awsCurrentStageVersionID] when the loop is left.  [fuel] bounds the
    number of pages requested; the Go loop itself is unbounded. *)
Fixpoint loopListVersionIDsPagination (fuel : nat) (secretID stage : string)
  (nextToken : option string) : M (state W) (option string) :=
  match fuel with
  | 0 => outOfFuel
  | Datatypes.S fuel' =>
      '(output, err) ← conn_ListSecretVersionIds
          {| ListSecretVersionIdsInput.NextToken := nextToken;
             ListSecretVersionIdsInput.SecretId := Some secretID |};
      match err with
      | Some e => return_ (Some (updateError secretID stage e))
      | None =>
          output ← deref output;
          match scanVersions (ListSecretVersionIdsOutput.Versions output) with
          | Some VersionId => mret VersionId
          | None =>
              match ListSecretVersionIdsOutput.NextToken output with
              | None => mret None
              | Some token => loopListVersionIDsPagination fuel' secretID stage (Some token)
              end
          end
      end
  end.

Definition withRemoveFromVersionId (v : option string)
  (input : UpdateSecretVersionStageInput.t) : UpdateSecretVersionStageInput.t :=
  {| UpdateSecretVersionStageInput.MoveToVersionId :=
       UpdateSecretVersionStageInput.MoveToVersionId input;
     UpdateSecretVersionStageInput.RemoveFromVersionId := v;
     UpdateSecretVersionStageInput.SecretId :=
       UpdateSecretVersionStageInput.SecretId input;
     UpdateSecretVersionStageInput.VersionStage :=
       UpdateSecretVersionStageInput.VersionStage input |}.

(** The body of the loop over [stagesToAdd]; the variables carried between
    iterations are [describedSecret] and [awsPreviousVersionID]. *)
Definition addStage (fuel : nat) (secretID versionID : string) (stage : string)
  (vars : option DescribeSecretOutput.t * option string)
  : M (state W) (option DescribeSecretOutput.t * option string) :=
  let '(describedSecret, awsPreviousVersionID) := vars in
  let input := {| UpdateSecretVersionStageInput.MoveToVersionId := Some versionID;
                  UpdateSecretVersionStageInput.RemoveFromVersionId := None;
                  UpdateSecretVersionStageInput.SecretId := Some secretID;
                  UpdateSecretVersionStageInput.VersionStage := Some stage |} in
  '(describedSecret, input) ←
    (if String.eqb stage "AWSCURRENT"
     then
       log_Printf "[DEBUG] Going to set AWSCURRENT staging label for secret %q version %q"
                  [LogString secretID; LogString versionID];;
       match describedSecret with
       | None =>
           '(describedSecret, err) ← conn_DescribeSecret
               {| DescribeSecretInput.SecretId := Some secretID |};
           match err with
           | Some e => return_ (Some (updateError secretID stage e))
           | None =>
               awsCurrentStageVersionID ←
                 loopListVersionIDsPagination fuel secretID stage None;
               let input := withRemoveFromVersionId awsCurrentStageVersionID input in
               from ← deref awsCurrentStageVersionID;
               log_Printf "[DEBUG] Going to move AWSCURRENT staging label for secret %q from version: %q to version %q"
                          [LogString secretID; LogString from; LogString versionID];;
               mret (describedSecret, input)
           end
       | Some _ => mret (describedSecret, input)
       end
     else mret (describedSecret, input));
  log_Printf "[DEBUG] Updating Secrets Manager Secret Version Stage: %s" [LogInput input];;
  err ← conn_UpdateSecretVersionStage input;
  match err with
  | Some e => return_ (Some (updateError secretID stage e))
  | None =>
      mret (describedSecret, UpdateSecretVersionStageInput.RemoveFromVersionId input)
  end.

(** The body of the loop over [stagesToRemove]. *)
Definition removeStage (secretID versionID : string) (awsPreviousVersionID : option string)
  (stage : string) (_ : unit) : M (state W) unit :=
  if String.eqb stage "AWSCURRENT"
  then log_Printf "[INFO] Skipping removal of AWSCURRENT staging label for secret %q version %q"
                  [LogString secretID; LogString versionID]
  else
    let input := {| UpdateSecretVersionStageInput.MoveToVersionId := None;
                    UpdateSecretVersionStageInput.RemoveFromVersionId := awsPreviousVersionID;
                    UpdateSecretVersionStageInput.SecretId := Some secretID;
                    UpdateSecretVersionStageInput.VersionStage := Some stage |} in
    log_Printf "[DEBUG] Updating Secrets Manager Secret Version Stage: %s" [LogInput input];;
    err ← conn_UpdateSecretVersionStage input;
    match err with
    | Some e => return_ (Some (updateError secretID stage e))
    | None => mret ()
    end.

Definition resourceAwsSecretsManagerSecretVersionUpdate_body (fuel attempts : nat)
  : M (state W) Empty_set :=
  rd ← get_d;
  let '(secretID, versionID, err) := decodeSecretsManagerSecretVersionID (Id rd) in
  match err with
  | Some e => return_ (Some e)
  | None =>
      let '(os, ns) := GetChange_version_stages rd in
      let stagesToAdd := List (Difference ns os) in
      let stagesToRemove := List (Difference os ns) in
      '(_, awsPreviousVersionID) ←
        range stagesToAdd (addStage fuel secretID versionID) (None, Some versionID);
      range stagesToRemove (removeStage secretID versionID awsPreviousVersionID) ();;
      r ← resourceAwsSecretsManagerSecretVersionRead attempts;
      return_ r
  end.

Definition resourceAwsSecretsManagerSecretVersionUpdate (fuel attempts : nat)
  : M (state W) (option error) :=
  call (resourceAwsSecretsManagerSecretVersionUpdate_body fuel attempts).

(** *** Delete *)

(** The body of the loop over the stages the version holds. *)
Definition deleteStage (secretID versionID : string) (stage : string) (_ : unit)
  : M (state W) unit :=
  if String.eqb stage "AWSCURRENT"
  then log_Printf "[WARN] Cannot remove AWSCURRENT staging label, which may leave the secret %q version %q active"
                  [LogString secretID; LogString versionID]
  else
    let input := {| UpdateSecretVersionStageInput.MoveToVersionId := None;
                    UpdateSecretVersionStageInput.RemoveFromVersionId := Some versionID;
                    UpdateSecretVersionStageInput.SecretId := Some secretID;
                    UpdateSecretVersionStageInput.VersionStage := Some stage |} in
    log_Printf "[DEBUG] Updating Secrets Manager Secret Version Stage: %s" [LogInput input];;
    err ← conn_UpdateSecretVersionStage input;
    match err with
    | Some e =>
        if isAWSErr e ErrCodeResourceNotFoundException "" then return_ None
        else if isAWSErr e ErrCodeInvalidRequestException secretWasDeleted then return_ None
        else return_ (Some (updateError secretID stage e))
    | None => mret ()
    end.

Definition resourceAwsSecretsManagerSecretVersionDelete_body : M (state W) Empty_set :=
  rd ← get_d;
  let '(secretID, versionID, err) := decodeSecretsManagerSecretVersionID (Id rd) in
  match err with
  | Some e => return_ (Some e)
  | None =>
      let '(v, ok) := GetOk_version_stages rd in
      (if ok then range (List v) (deleteStage secretID versionID) () else mret ());;
      return_ None
  end.

Definition resourceAwsSecretsManagerSecretVersionDelete : M (state W) (option error) :=
  call resourceAwsSecretsManagerSecretVersionDelete_body.

End Resource.

(** ** ivschat tags *)

Module ivschat.

Module UntagResourceInput.
Record t : Type := { ResourceArn : option string; TagKeys : list string }.
End UntagResourceInput.

Module TagResourceInput.
Record t : Type := { ResourceArn : option string; Tags : gmap string string }.
End TagResourceInput.

(** The two operations of [*ivschat.Client] that [UpdateTags] uses; their
    outputs are discarded by the caller. *)
Class Client (W : Type) : Type := {
  UntagResource : UntagResourceInput.t → W → option error * W;
  TagResource : TagResourceInput.t → W → option error * W }.

Inductive Event : Type :=
| CallUntagResource (input : UntagResourceInput.t) (err : option error)
| CallTagResource (input : TagResourceInput.t) (err : option error).

Record state (W : Type) : Type := { world : W; trace : list Event }.
Arguments world {W} s.
Arguments trace {W} s.

(** The interface of [tftags.KeyValueTags] as far as [UpdateTags] uses it;
    [I] is what [tftags.New] accepts, [len] the length of the Go map. *)
Class KeyValueTagsAPI (I T : Type) : Type := {
  New : I → T;
  Removed : T → T → T;
  Updated : T → T → T;
  IgnoreAWS : T → T;
  Keys : T → list string;
  Map : T → gmap string string;
  len : T → nat }.

(** Modelled from the spec: the tag sets of internal/tags, which is not among
    the sources, for plain string maps: "computes added/removed/changed
    tags".  The removed tags are the old keys that the new map lacks, the
    updated tags are the new entries that are absent from the old map or
    differ from it; keys of the [aws:] name space are AWS's own. *)
Definition Removed_model (tags newTags : gmap string string) : gmap string string :=
  filter (λ kv, newTags !! kv.1 = None) tags.

Definition Updated_model (tags newTags : gmap string string) : gmap string string :=
  filter (λ kv, tags !! kv.1 ≠ Some kv.2) newTags.

Definition IgnoreAWS_model (tags : gmap string string) : gmap string string :=
  filter (λ kv, String.prefix "aws:" kv.1 = false) tags.

#[global] Instance KeyValueTags_model : KeyValueTagsAPI (gmap string string) (gmap string string) := {
  New := id;
  Removed := Removed_model;
  Updated := Updated_model;
  IgnoreAWS := IgnoreAWS_model;
  Keys := λ tags, (map_to_list tags).*1;
  Map := id;
  len := size }.

Section Tags.
Context {W I T : Type} {conn : Client W} {tftags : KeyValueTagsAPI I T}.

Definition conn_UntagResource (input : UntagResourceInput.t) : M (state W) (option error) :=
  λ s, let '(err, w) := UntagResource input (world s) in
       (Next err, {| world := w; trace := trace s ++ [CallUntagResource input err] |}).

Definition conn_TagResource (input : TagResourceInput.t) : M (state W) (option error) :=
  λ s, let '(err, w) := TagResource input (world s) in
       (Next err, {| world := w; trace := trace s ++ [CallTagResource input err] |}).

(** [Tags] returns ivschat service tags. *)
Definition Tags (tags : T) : gmap string string := Map tags.

Definition UpdateTags_body (identifier : string) (oldTagsMap newTagsMap : I)
  : M (state W) Empty_set :=
  let oldTags : T := New oldTagsMap in
  let newTags : T := New newTagsMap in
  (let removedTags := Removed oldTags newTags in
   if Nat.ltb 0 (len removedTags)
   then
     let input := {| UntagResourceInput.ResourceArn := Some identifier;
                     UntagResourceInput.TagKeys := Keys (IgnoreAWS removedTags) |} in
     err ← conn_UntagResource input;
     match err with
     | Some e => return_ (Some (Errorf "untagging resource (%s): %w" [identifier] (Some e)))
     | None => mret ()
     end
   else mret ());;
  (let updatedTags := Updated oldTags newTags in
   if Nat.ltb 0 (len updatedTags)
   then
     let input := {| TagResourceInput.ResourceArn := Some identifier;
                     TagResourceInput.Tags := Tags (IgnoreAWS updatedTags) |} in
     err ← conn_TagResource input;
     match err with
     | Some e => return_ (Some (Errorf "tagging resource (%s): %w" [identifier] (Some e)))
     | None => mret ()
     end
   else mret ());;
  return_ None.

Definition UpdateTags (identifier : string) (oldTagsMap newTagsMap : I)
  : M (state W) (option error) :=
  call (UpdateTags_body identifier oldTagsMap newTagsMap).

End Tags.

End ivschat.


(** ** A scripted remote store

    A concrete client for running the resource functions: the version
    history is a table of pages keyed by the token that requests them, the
    answer to a stage move is a function of the request, and the answer to a
    read is fixed.  The store never changes. *)

Module Scripted.

Record store : Type := {
  pages : list (option string * ListSecretVersionIdsOutput.t);
  moveAnswer : UpdateSecretVersionStageInput.t → option error;
  readAnswer : option GetSecretValueOutput.t * option error }.

Definition page (token : option string) (w : store)
  : option ListSecretVersionIdsOutput.t * option error :=
  match List.find (λ p, bool_decide (p.1 = token)) (pages w) with
  | Some p => (Some p.2, None)
  | None => (None, Some (awserr "InvalidNextTokenException" "unknown token"))
  end.

#[export] Instance conn : SecretsManagerAPI store := {
  GetSecretValue := λ _ w, (readAnswer w, w);
  DescribeSecret := λ input w,
    (Some {| DescribeSecretOutput.ARN := None;
             DescribeSecretOutput.Name := DescribeSecretInput.SecretId input |}, None, w);
  ListSecretVersionIds := λ input w, (page (ListSecretVersionIdsInput.NextToken input) w, w);
  UpdateSecretVersionStage := λ input w, (moveAnswer w input, w) }.

#[export] Instance ext : Externals := {
  List := elements;
  base64Encode := id;
  flattenStringList := map StringValue }.

Definition version (VersionId : string) (VersionStages : list string)
  : SecretVersionsListEntry.t :=
  {| SecretVersionsListEntry.VersionId := Some VersionId;
     SecretVersionsListEntry.VersionStages := Some <$> VersionStages |}.

Definition resourceData (id : string) (isNew : bool) (prior current : gset string)
  : ResourceData :=
  {| Id := id; IsNewResource := isNew;
     prior_version_stages := prior; version_stages := current;
     secret_id := ""; secret_string := None; secret_binary := "";
     version_id := None; arn := None |}.

Definition secretValue (VersionId : string) (VersionStages : list string)
  : GetSecretValueOutput.t :=
  {| GetSecretValueOutput.ARN := Some "arn:aws:secretsmanager:::secret:sec";
     GetSecretValueOutput.SecretBinary := "";
     GetSecretValueOutput.SecretString := Some "hunter2";
     GetSecretValueOutput.VersionId := Some VersionId;
     GetSecretValueOutput.VersionStages := Some <$> VersionStages |}.

Definition start (w : store) (rd : ResourceData) : state store :=
  {| world := w; d := rd; trace := [] |}.

(** A secret none of whose versions is current: its only version, [v2],
    was put with the stage [BAR] alone. *)
Definition noCurrent : store :=
  {| pages := [(None, {| ListSecretVersionIdsOutput.Versions := [version "v2" ["BAR"]];
                         ListSecretVersionIdsOutput.NextToken := None |})];
     moveAnswer := λ _, None;
     readAnswer := (Some (secretValue "v2" ["BAR"]), None) |}.

(** A secret with two pages of versions; [v1], on the first, is current. *)
Definition twoPages : store :=
  {| pages := [(None, {| ListSecretVersionIdsOutput.Versions :=
                           [version "v3" ["BAR"]; version "v1" ["AWSCURRENT"]];
                         ListSecretVersionIdsOutput.NextToken := Some "page2" |});
               (Some "page2", {| ListSecretVersionIdsOutput.Versions := [version "v0" []];
                                 ListSecretVersionIdsOutput.NextToken := None |})];
     moveAnswer := λ _, None;
     readAnswer := (Some (secretValue "v2" ["FOO"]), None) |}.

(** A secret with three pages of versions; [v1], on the second, is
    current. *)
Definition threePages : store :=
  {| pages := [(None, {| ListSecretVersionIdsOutput.Versions := [version "v3" ["BAR"]];
                         ListSecretVersionIdsOutput.NextToken := Some "page2" |});
               (Some "page2", {| ListSecretVersionIdsOutput.Versions :=
                                   [version "v1" ["AWSPENDING"; "AWSCURRENT"]];
                                 ListSecretVersionIdsOutput.NextToken := Some "page3" |});
               (Some "page3", {| ListSecretVersionIdsOutput.Versions := [version "v0" []];
                                 ListSecretVersionIdsOutput.NextToken := None |})];
     moveAnswer := λ _, None;
     readAnswer := (Some (secretValue "v2" ["FOO"]), None) |}.

(** A secret that has been deleted: every call is answered with
    "resource not found". *)
Definition gone : store :=
  {| pages := [];
     moveAnswer := λ _, Some (awserr ErrCodeResourceNotFoundException "Secrets Manager can't find the specified secret.");
     readAnswer := (None, Some (awserr ErrCodeResourceNotFoundException "Secrets Manager can't find the specified secret.")) |}.

End Scripted.

(** A scripted ivschat resource: the remote world is the tag map of the one
    resource, which untagging and tagging change as the service does. *)
Module ScriptedTags.

#[export] Instance conn : ivschat.Client (gmap string string) := {
  ivschat.UntagResource := λ input w,
    (None, foldr delete w (ivschat.UntagResourceInput.TagKeys input));
  ivschat.TagResource := λ input w,
    (None, ivschat.TagResourceInput.Tags input ∪ w) }.

Definition start (w : gmap string string) : ivschat.state (gmap string string) :=
  {| ivschat.world := w; ivschat.trace := [] |}.

End ScriptedTags.

(** ** Vocabulary of the specification *)

(** The stage moves of a trace, with their answers, in order. *)
Definition stageMoves (tr : list Event)
  : list (UpdateSecretVersionStageInput.t * option error) :=
  omap (λ e, match e with
             | CallUpdateSecretVersionStage input err => Some (input, err)
             | _ => None
             end) tr.

(** A bare removal of [stage]: a stage move for this label that assigns it
    to no version. *)
Definition bareRemovalOf (stage : string) (e : Event) : bool :=
  match e with
  | CallUpdateSecretVersionStage input _ =>
      bool_decide (UpdateSecretVersionStageInput.VersionStage input = Some stage) &&
      bool_decide (UpdateSecretVersionStageInput.MoveToVersionId input = None)
  | _ => false
  end.

(** The events that are not a bare removal of the protected label. *)
Definition keepsCURRENT (e : Event) : Prop := bareRemovalOf "AWSCURRENT" e = false.

(** The assignment of [stage] to [versionID] that names no version to take
    it from. *)
Definition addInput (secretID versionID stage : string) : UpdateSecretVersionStageInput.t :=
  {| UpdateSecretVersionStageInput.MoveToVersionId := Some versionID;
     UpdateSecretVersionStageInput.RemoveFromVersionId := None;
     UpdateSecretVersionStageInput.SecretId := Some secretID;
     UpdateSecretVersionStageInput.VersionStage := Some stage |}.

(** The removal of [stage] from [versionID]. *)
Definition removeCall (secretID versionID stage : string) : UpdateSecretVersionStageInput.t :=
  {| UpdateSecretVersionStageInput.MoveToVersionId := None;
     UpdateSecretVersionStageInput.RemoveFromVersionId := Some versionID;
     UpdateSecretVersionStageInput.SecretId := Some secretID;
     UpdateSecretVersionStageInput.VersionStage := Some stage |}.

(** The absence errors of the deletion path: resource not found, and secret
    already deleted. *)
Definition isAbsence (e : error) : bool :=
  isAWSErr e ErrCodeResourceNotFoundException "" ||
  isAWSErr e ErrCodeInvalidRequestException secretWasDeleted.

(** What deleting leaves in the trace for one held label whose removal, if
    one is issued, is answered by [answer]: a warning for the protected
    label, and otherwise the debug line and the removal from the version. *)
Definition deleteEvents (secretID versionID stage : string) (answer : option error)
  : list Event :=
  if String.eqb stage "AWSCURRENT"
  then [Log "[WARN] Cannot remove AWSCURRENT staging label, which may leave the secret %q version %q active"
            [LogString secretID; LogString versionID]]
  else [Log "[DEBUG] Updating Secrets Manager Secret Version Stage: %s"
            [LogInput (removeCall secretID versionID stage)];
        CallUpdateSecretVersionStage (removeCall secretID versionID stage) answer].

(** The version holds the protected label. *)
Definition carriesCURRENT (version : SecretVersionsListEntry.t) : bool :=
  existsb isCURRENT (SecretVersionsListEntry.VersionStages version).

Definition listRequest (secretID : string) (token : option string)
  : ListSecretVersionIdsInput.t :=
  {| ListSecretVersionIdsInput.NextToken := token;
     ListSecretVersionIdsInput.SecretId := Some secretID |}.

(** [cleanPages secretID w token evs w' token']: asked for the page [token]
    and then for the pages it names in turn, the store in world [w] answers
    with pages on which no version is current and each of which names a next
    page; [evs] are these requests with their answers, and the store is left
    in world [w'] with [token'] the page to ask for next. *)
Inductive cleanPages {W : Type} {conn : SecretsManagerAPI W} (secretID : string)
  : W → option string → list Event → W → option string → Prop :=
| cleanPages_nil w token : cleanPages secretID w token [] w token
| cleanPages_cons w token output w1 next evs w2 token2 :
    ListSecretVersionIds (listRequest secretID token) w = (Some output, None, w1) →
    scanVersions (ListSecretVersionIdsOutput.Versions output) = None →
    ListSecretVersionIdsOutput.NextToken output = Some next →
    cleanPages secretID w1 (Some next) evs w2 token2 →
    cleanPages secretID w token
      (CallListSecretVersionIds (listRequest secretID token) (Some output) None :: evs)
      w2 token2.

(** Every event a computation adds to the trace satisfies [P]. *)
Definition emits {W A : Type} (P : Event → Prop) (m : M (state W) A) : Prop :=
  ∀ s, ∃ tr, trace (m s).2 = (trace s ++ tr)%list ∧ Forall P tr.

(** Every value with which a computation falls through satisfies [Q]. *)
Definition yields {S A : Type} (Q : A → Prop) (m : M S A) : Prop :=
  ∀ s a s', m s = (Next a, s') → Q a.

(** ** Creating a version *)

Module PutSecretValueInput.
Record t : Type := {
  SecretBinary : option string;
  SecretId : option string;
  SecretString : option string;
  VersionStages : list (option string) }.
End PutSecretValueInput.

Module PutSecretValueOutput.
Record t : Type := {
  ARN : option string;
  Name : option string;
  VersionId : option string;
  VersionStages : list (option string) }.
End PutSecretValueOutput.

(** The operation of the client that only [Create] uses. *)
Class PutSecretValueAPI (W : Type) : Type := {
  PutSecretValue :
    PutSecretValueInput.t → W → option PutSecretValueOutput.t * option error * W }.

(** Functions of other packages that [Create] calls and whose result it
    passes on or only tests: the provider's [isBase64Encoded] and
    [expandStringSet], and [base64.StdEncoding.DecodeString]. *)
Class CreateExternals : Type := {
  isBase64Encoded : string → bool;
  DecodeString : string → string * option error;
  expandStringSet : gset string → list (option string) }.

(** [d.GetOk("secret_string")] and [d.GetOk("secret_binary")]: the value, and
    whether it is not the empty string. *)
Definition GetOk_secret_string (d : ResourceData) : string * bool :=
  let v := StringValue (secret_string d) in (v, negb (String.eqb v "")).

Definition GetOk_secret_binary (d : ResourceData) : string * bool :=
  (secret_binary d, negb (String.eqb (secret_binary d) "")).

(** A run of [Create]: the state of the other resource functions, and the
    calls of [PutSecretValue] with their answers. *)
Record createState (W : Type) : Type := {
  resource : state W;
  puts : list (PutSecretValueInput.t * option PutSecretValueOutput.t * option error) }.
Arguments resource {W} c.
Arguments puts {W} c.

Section Create.
Context {W : Type} {conn : SecretsManagerAPI W} {connPut : PutSecretValueAPI W}
  {ext : Externals} {extCreate : CreateExternals}.

(** A step of the other resource functions as a step of [Create]. *)
Definition lift {A} (m : M (state W) A) : M (createState W) A :=
  λ c, let '(o, s) := m (resource c) in (o, {| resource := s; puts := puts c |}).

Definition conn_PutSecretValue (input : PutSecretValueInput.t)
  : M (createState W) (option PutSecretValueOutput.t * option error) :=
  λ c, let '(output, err, w) := PutSecretValue input (world (resource c)) in
       (Next (output, err),
        {| resource := {| world := w; d := d (resource c); trace := trace (resource c) |};
           puts := puts c ++ [(input, output, err)] |}).

Definition resourceAwsSecretsManagerSecretVersionCreate_body (attempts : nat)
  : M (createState W) Empty_set :=
  rd ← lift get_d;
  let secretID := secret_id rd in
  let input := {| PutSecretValueInput.SecretBinary := None;
                  PutSecretValueInput.SecretId := Some secretID;
                  PutSecretValueInput.SecretString := None;
                  PutSecretValueInput.VersionStages := [] |} in
  let input :=
    let '(v, ok) := GetOk_secret_string rd in
    if ok
    then {| PutSecretValueInput.SecretBinary := PutSecretValueInput.SecretBinary input;
            PutSecretValueInput.SecretId := PutSecretValueInput.SecretId input;
            PutSecretValueInput.SecretString := Some v;
            PutSecretValueInput.VersionStages := PutSecretValueInput.VersionStages input |}
    else input in
  input ←
    (let '(v, ok) := GetOk_secret_binary rd in
     if ok
     then
       if negb (isBase64Encoded v)
       then return_ (Some (Errorf "expected base64 in secret_binary" [] None))
       else
         let '(SecretBinary, err) := DecodeString v in
         match err with
         | Some e => return_ (Some (Errorf "error decoding secret binary value: %s" [] (Some e)))
         | None =>
             mret {| PutSecretValueInput.SecretBinary := Some SecretBinary;
                     PutSecretValueInput.SecretId := PutSecretValueInput.SecretId input;
                     PutSecretValueInput.SecretString := PutSecretValueInput.SecretString input;
                     PutSecretValueInput.VersionStages :=
                       PutSecretValueInput.VersionStages input |}
         end
     else mret input);
  let input :=
    let '(v, ok) := GetOk_version_stages rd in
    if ok
    then {| PutSecretValueInput.SecretBinary := PutSecretValueInput.SecretBinary input;
            PutSecretValueInput.SecretId := PutSecretValueInput.SecretId input;
            PutSecretValueInput.SecretString := PutSecretValueInput.SecretString input;
            PutSecretValueInput.VersionStages := expandStringSet v |}
    else input in
  lift (log_Printf "[DEBUG] Putting Secrets Manager Secret %q value" [LogString secretID]);;
  '(output, err) ← conn_PutSecretValue input;
  match err with
  | Some e => return_ (Some (Errorf "error putting Secrets Manager Secret value: %s" [] (Some e)))
  | None =>
      output ← deref output;
      lift (set_d (SetId (createdID secretID (PutSecretValueOutput.VersionId output))));;
      r ← lift (resourceAwsSecretsManagerSecretVersionRead attempts);
      return_ r
  end.

Definition resourceAwsSecretsManagerSecretVersionCreate (attempts : nat)
  : M (createState W) (option error) :=
  call (resourceAwsSecretsManagerSecretVersionCreate_body attempts).

End Create.

(** The scripted store accepts every value put and names the new version
    [v2]; base64 is not decoded: a value passes for base64 when it holds no
    blank. *)
Module ScriptedCreate.

Definition putAnswer : PutSecretValueOutput.t :=
  {| PutSecretValueOutput.ARN := None;
     PutSecretValueOutput.Name := None;
     PutSecretValueOutput.VersionId := Some "v2";
     PutSecretValueOutput.VersionStages := [] |}.

#[export] Instance connPut : PutSecretValueAPI Scripted.store := {
  PutSecretValue := λ _ w, (Some putAnswer, None, w) }.

#[export] Instance extCreate : CreateExternals := {
  isBase64Encoded := λ v, negb (Contains v " ");
  DecodeString := λ v, (v, None);
  expandStringSet := λ stages, Some <$> elements stages }.

Definition start (w : Scripted.store) (rd : ResourceData) : createState Scripted.store :=
  {| resource := Scripted.start w rd; puts := [] |}.

(** The configuration of a new version of [secretID] with a string value. *)
Definition config (secretID secretString secretBinary : string) (stages : gset string)
  : ResourceData :=
  {| Id := ""; IsNewResource := true;
     prior_version_stages := ∅; version_stages := stages;
     secret_id := secretID; secret_string := Some secretString;
     secret_binary := secretBinary; version_id := None; arn := None |}.

(** A store that refuses every value put. *)
Definition refusing : PutSecretValueAPI Scripted.store := {|
  PutSecretValue := λ _ w,
    (None, Some (awserr "LimitExceededException" "too many versions"), w) |}.

End ScriptedCreate.

(** A scripted ivschat resource that refuses every call. *)
Module ScriptedTagsRefusing.

Definition refused : error := awserr "AccessDeniedException" "not authorized".

#[export] Instance conn : ivschat.Client (gmap string string) := {
  ivschat.UntagResource := λ _ w, (Some refused, w);
  ivschat.TagResource := λ _ w, (Some refused, w) }.

End ScriptedTagsRefusing.

(** More scripted stores: one that answers a read with neither output nor
    error, and one that refuses the read for want of permission. *)
Module ScriptedReads.

Definition silent : Scripted.store :=
  {| Scripted.pages := [];
     Scripted.moveAnswer := λ _, None;
     Scripted.readAnswer := (None, None) |}.

Definition denied : error := awserr "AccessDeniedException" "not authorized".

Definition forbidden : Scripted.store :=
  {| Scripted.pages := [];
     Scripted.moveAnswer := λ _, None;
     Scripted.readAnswer := (None, Some denied) |}.

End ScriptedReads.

(** A store in which a new version takes time to show: the world is the
    number of reads that are still answered with "resource not found"; after
    them the version [v2] is there. *)
Module Propagating.

Definition notFound : error :=
  awserr ErrCodeResourceNotFoundException "Secrets Manager can't find the specified secret value.".

#[export] Instance conn : SecretsManagerAPI nat := {
  GetSecretValue := λ _ n,
    match n with
    | 0 => (Some (Scripted.secretValue "v2" ["AWSCURRENT"]), None, 0)
    | Datatypes.S n' => (None, Some notFound, n')
    end;
  DescribeSecret := λ input n,
    (Some {| DescribeSecretOutput.ARN := None;
             DescribeSecretOutput.Name := DescribeSecretInput.SecretId input |}, None, n);
  ListSecretVersionIds := λ _ n,
    (Some {| ListSecretVersionIdsOutput.Versions := [];
             ListSecretVersionIdsOutput.NextToken := None |}, None, n);
  UpdateSecretVersionStage := λ _ n, (None, n) }.

Definition start (n : nat) (rd : ResourceData) : state nat :=
  {| world := n; d := rd; trace := [] |}.

End Propagating.

(** ** Further vocabulary *)

(** The read of [versionID] of [secretID]. *)
Definition readInput (secretID versionID : string) : GetSecretValueInput.t :=
  {| GetSecretValueInput.SecretId := Some secretID;
     GetSecretValueInput.VersionId := Some versionID |}.

(** The answers that make a read of a new resource worth another attempt. *)
Definition retryableForNew (e : error) : bool :=
  ErrCodeEquals (Some e) ErrCodeResourceNotFoundException ||
  ErrMessageContains (Some e) ErrCodeInvalidRequestException secretWasDeleted.

(** [retriedReads input w evs w']: asked again and again for [input], the
    store in world [w] answers each time with an error of that kind; [evs]
    are these reads with their answers, and the store is left in world
    [w']. *)
Inductive retriedReads {W : Type} {conn : SecretsManagerAPI W} (input : GetSecretValueInput.t)
  : W → list Event → W → Prop :=
| retriedReads_nil w : retriedReads input w [] w
| retriedReads_cons w output e w1 evs w2 :
    GetSecretValue input w = (output, Some e, w1) →
    retryableForNew e = true →
    retriedReads input w1 evs w2 →
    retriedReads input w (CallGetSecretValue input output (Some e) :: evs) w2.

(** The error of a failed call of the reconciliation: a description, a
    listing or a stage move that the store refused. *)
Definition failedStageCall (e : Event) : option error :=
  match e with
  | CallDescribeSecret _ _ (Some err) => Some err
  | CallListSecretVersionIds _ _ (Some err) => Some err
  | CallUpdateSecretVersionStage _ (Some err) => Some err
  | _ => None
  end.

Definition isRead (e : Event) : bool :=
  match e with
  | CallGetSecretValue _ _ _ => true
  | _ => false
  end.

(** The two calls of the locator. *)
Definition isLocatorCall (e : Event) : bool :=
  match e with
  | CallDescribeSecret _ _ _ => true
  | CallListSecretVersionIds _ _ _ => true
  | _ => false
  end.

Definition isDescribe (e : Event) : bool :=
  match e with
  | CallDescribeSecret _ _ _ => true
  | _ => false
  end.

(** A stage move of the plan of an update of [versionID] of [secretID]:
    an assignment to the version of a label to add, or a removal of a label
    to remove other than the protected one. *)
Definition plannedMove (secretID versionID : string) (stagesToAdd stagesToRemove : list string)
  (input : UpdateSecretVersionStageInput.t) : Prop :=
  UpdateSecretVersionStageInput.SecretId input = Some secretID ∧
  ∃ stage,
    UpdateSecretVersionStageInput.VersionStage input = Some stage ∧
    ((UpdateSecretVersionStageInput.MoveToVersionId input = Some versionID ∧
      stage ∈ stagesToAdd) ∨
     (UpdateSecretVersionStageInput.MoveToVersionId input = None ∧
      stage ∈ stagesToRemove ∧ stage ≠ "AWSCURRENT")).

(** The resource data after a step, compared with before: the flag and the
    prior stages are the same, and the identifier is the same or cleared. *)
Definition sameResource (before after : ResourceData) : Prop :=
  IsNewResource after = IsNewResource before ∧
  prior_version_stages after = prior_version_stages before ∧
  (Id after = Id before ∨ Id after = "").

(** The resource data after a computation stands in relation [R] to the
    data before. *)
Definition keepsData {W A : Type} (R : ResourceData → ResourceData → Prop)
  (m : M (state W) A) : Prop :=
  ∀ s, R (d s) (d (m s).2).

(** A computation of the reconciliation stops at the first call the store
    refuses: no event follows it, and the enclosing function returns the
    error wrapped with a secret and a label; and it reads nothing. *)
Definition failStop {W A : Type} (m : M (state W) A) : Prop :=
  ∀ s, ∃ tr,
    trace (m s).2 = (trace s ++ tr)%list ∧
    Forall (λ e, isRead e = false) tr ∧
    (Forall (λ e, failedStageCall e = None) tr ∨
     ∃ tr0 ev err secretID stage,
       tr = (tr0 ++ [ev])%list ∧
       Forall (λ e, failedStageCall e = None) tr0 ∧
       failedStageCall ev = Some err ∧
       (m s).1 = Return (Some (updateError secretID stage err))).

(** The events a computation adds to the trace from state [s] on satisfy
    [P]. *)
Definition emitsAt {W A : Type} (s : state W) (P : Event → Prop) (m : M (state W) A) : Prop :=
  ∃ tr, trace (m s).2 = (trace s ++ tr)%list ∧ Forall P tr.

(** A resource function stops at the first call of the reconciliation that
    the store refuses: the call is the last event, nothing was read before
    it, and the function returns the error wrapped with a secret and a
    label. *)
Definition stopsAtRefusal {W A : Type} (result : option error → outcome A)
  (m : M (state W) A) : Prop :=
  ∀ s, ∃ tr,
    trace (m s).2 = (trace s ++ tr)%list ∧
    (Forall (λ e, failedStageCall e = None) tr ∨
     ∃ tr0 ev err secretID stage,
       tr = (tr0 ++ [ev])%list ∧
       Forall (λ e, failedStageCall e = None ∧ isRead e = false) tr0 ∧
       failedStageCall ev = Some err ∧
       (m s).1 = result (Some (updateError secretID stage err))).

(** The move of the protected label to [versionID] from the version [from]
    that holds it. *)
Definition relocateInput (secretID versionID from : string) : UpdateSecretVersionStageInput.t :=
  {| UpdateSecretVersionStageInput.MoveToVersionId := Some versionID;
     UpdateSecretVersionStageInput.RemoveFromVersionId := Some from;
     UpdateSecretVersionStageInput.SecretId := Some secretID;
     UpdateSecretVersionStageInput.VersionStage := Some "AWSCURRENT" |}.

(** The number of [DescribeSecret] calls in a trace. *)
Definition countDescribes (tr : list Event) : nat :=
  List.length (List.filter isDescribe tr).

(** The descriptions that the cache [describedSecret] still allows: one
    while it is [nil], none afterwards. *)
Definition describeBudget (describedSecret : option DescribeSecretOutput.t) : nat :=
  match describedSecret with
  | Some _ => 0
  | None => 1
  end.

(** A computation spends at most [b] descriptions, counting those its value
    still allows, as measured by [β]. *)
Definition describesAtMost {W A : Type} (β : A → nat) (b : nat) (m : M (state W) A)
  : Prop :=
  ∀ s, ∃ tr,
    trace (m s).2 = (trace s ++ tr)%list ∧
    (countDescribes tr + match (m s).1 with Next a => β a | _ => 0 end ≤ b)%nat.

(** The binary value of the configuration passes the checks of [Create]: it
    is absent, or it is base64 that decodes. *)
Definition binaryAccepted {extCreate : CreateExternals} (rd : ResourceData) : Prop :=
  secret_binary rd = "" ∨
  (isBase64Encoded (secret_binary rd) = true ∧ (DecodeString (secret_binary rd)).2 = None).

(** The state of [Create] after the call of [PutSecretValue] with [input]
    that the store answered with [output] and [err], leaving world [w]. *)
Definition afterPut {W : Type} (c : createState W) (input : PutSecretValueInput.t)
  (output : option PutSecretValueOutput.t) (err : option error) (w : W) : createState W :=
  {| resource :=
       {| world := w; d := d (resource c);
          trace := trace (resource c) ++
            [Log "[DEBUG] Putting Secrets Manager Secret %q value"
                 [LogString (secret_id (d (resource c)))]] |};
     puts := puts c ++ [(input, output, err)] |}.

(** The same state with the identifier set. *)
Definition withId {W : Type} (id : string) (c : createState W) : createState W :=
  {| resource := {| world := world (resource c); d := SetId id (d (resource c));
                    trace := trace (resource c) |};
     puts := puts c |}.

(** The calls of [UpdateTags]: the untagging of the removed tags and the
    tagging with the updated ones, without the tags of AWS's own. *)
Definition untagInput {I T : Type} {tftags : ivschat.KeyValueTagsAPI I T}
  (identifier : string) (oldTagsMap newTagsMap : I) : ivschat.UntagResourceInput.t :=
  {| ivschat.UntagResourceInput.ResourceArn := Some identifier;
     ivschat.UntagResourceInput.TagKeys :=
       ivschat.Keys (ivschat.IgnoreAWS
         (ivschat.Removed (ivschat.New oldTagsMap : T) (ivschat.New newTagsMap))) |}.

Definition tagInput {I T : Type} {tftags : ivschat.KeyValueTagsAPI I T}
  (identifier : string) (oldTagsMap newTagsMap : I) : ivschat.TagResourceInput.t :=
  {| ivschat.TagResourceInput.ResourceArn := Some identifier;
     ivschat.TagResourceInput.Tags :=
       ivschat.Map (ivschat.IgnoreAWS
         (ivschat.Updated (ivschat.New oldTagsMap : T) (ivschat.New newTagsMap))) |}.

(** The shapes a run of [UpdateTags] can have: nothing, an untagging, a
    tagging, or an untagging that went through followed by a tagging. *)
Definition tagCallsInOrder (tr : list ivschat.Event) : bool :=
  match tr with
  | [] => true
  | [ivschat.CallUntagResource _ _] => true
  | [ivschat.CallTagResource _ _] => true
  | [ivschat.CallUntagResource _ None; ivschat.CallTagResource _ _] => true
  | _ => false
  end.

(** ** The plan of an update *)

(** The label of each stage move of a trace and the version it is assigned
    to, in order; a removal assigns its label to no version. *)
Definition labelMoves (tr : list Event) : list (option string * option string) :=
  (λ mv, (UpdateSecretVersionStageInput.VersionStage mv.1,
          UpdateSecretVersionStageInput.MoveToVersionId mv.1)) <$> stageMoves tr.

(** The moves that the plan [(stagesToAdd, stagesToRemove)] asks for: each
    label to add is assigned to [versionID], then each label to remove that
    is not the protected one is assigned to no version. *)
Definition plannedMoves (versionID : string) (stagesToAdd stagesToRemove : list string)
  : list (option string * option string) :=
  (((λ stage, (Some stage, Some versionID)) <$> stagesToAdd) ++
   ((λ stage, (Some stage, None : option string)) <$>
      filter (λ stage, stage ≠ "AWSCURRENT") stagesToRemove))%list.

(** The events that are not a stage move. *)
Definition noStageMove (e : Event) : Prop :=
  match e with
  | CallUpdateSecretVersionStage _ _ => False
  | _ => True
  end.

(** A step of the reconciliation carries out the moves of [plan]: when it
    falls through it has made exactly these moves; when it does not, it has
    made the first of them, and if it returns from the enclosing function
    then the store has refused one of its calls. *)
Definition carriesOut {W A : Type} (plan : list (option string * option string))
  (m : M (state W) A) : Prop :=
  ∀ s, ∃ tr,
    trace (m s).2 = (trace s ++ tr)%list ∧
    match (m s).1 with
    | Next _ => labelMoves tr = plan
    | Return _ => labelMoves tr `prefix_of` plan ∧
                  Exists (λ e, failedStageCall e ≠ None) tr
    | _ => labelMoves tr `prefix_of` plan
    end.

(** A function body carries [plan] out to its end: the moves it makes are
    the first of the plan, and all of them when it returns without any call
    of the reconciliation refused. *)
Definition completesPlan {W A : Type} (plan : list (option string * option string))
  (m : M (state W) A) : Prop :=
  ∀ s, ∃ tr,
    trace (m s).2 = (trace s ++ tr)%list ∧
    labelMoves tr `prefix_of` plan ∧
    (Forall (λ e, failedStageCall e = None) tr →
     (∃ r, (m s).1 = Return r) →
     labelMoves tr = plan).

Section Executor.
Context {W : Type} {conn : SecretsManagerAPI W} {ext : Externals}.

(** Lines 194 to 285 of [resourceAwsSecretsManagerSecretVersionUpdate], with
    [stagesToAdd] and [stagesToRemove] as parameters: the two loops and the
    final read. *)
Definition executePlan (fuel attempts : nat) (secretID versionID : string)
  (stagesToAdd stagesToRemove : list string) : M (state W) Empty_set :=
  '(_, awsPreviousVersionID) ←
    range stagesToAdd (addStage fuel secretID versionID) (None, Some versionID);
  range stagesToRemove (removeStage secretID versionID awsPreviousVersionID) ();;
  r ← resourceAwsSecretsManagerSecretVersionRead attempts;
  return_ r.

End Executor.

(** * Properties *)

(** ** Splitting and resource identifiers *)

Lemma Split_length s sep : List.length (Split s sep) = Datatypes.S (Count s sep).
Proof.
  induction s as [|c s IH]; simpl; [done|].
  destruct (Ascii.eqb c sep); simpl; [by rewrite IH|].
  destruct (Split s sep) as [|piece pieces]; simpl in *; lia.
Qed.

Lemma Split_no_sep s sep : Count s sep = 0 → Split s sep = [s].
Proof.
  induction s as [|c s IH]; simpl; [done|].
  destruct (Ascii.eqb c sep); simpl; [done|].
  intros Hs. by rewrite (IH Hs).
Qed.

Lemma Split_append s t sep :
  Count s sep = 0 → Split (s +:+ String sep t) sep = s :: Split t sep.
Proof.
  induction s as [|c s IH]; simpl.
  - intros _. by rewrite Ascii.eqb_refl.
  - destruct (Ascii.eqb c sep); simpl; [done|].
    intros Hs. by rewrite (IH Hs).
Qed.

Lemma decode_two_parts id part0 part1 :
  Split id "|" = [part0; part1] →
  decodeSecretsManagerSecretVersionID id = (part0, part1, None).
Proof. unfold decodeSecretsManagerSecretVersionID. by intros ->. Qed.

Lemma decode_not_two_parts id :
  List.length (Split id "|") ≠ 2 →
  decodeSecretsManagerSecretVersionID id =
    ("", "", Some (Errorf "expected ID in format SecretID|VersionID, received: %s" [id] None)).
Proof.
  unfold decodeSecretsManagerSecretVersionID. intros Hlen.
  destruct (Nat.eqb_spec (List.length (Split id "|")) 2); [done|]. done.
Qed.

(** C3, as the specification states it, fails: an identifier with an empty
    part is not made of two non-empty parts, and yet it decodes without
    error. *)
Lemma decode_accepts_empty_part :
  twoNonEmptyParts "|v1" = false ∧
  decodeSecretsManagerSecretVersionID "|v1" = ("", "v1", None).
Proof. split; reflexivity. Qed.

(** C3, amended: decoding fails exactly when the identifier does not split
    on the delimiter into exactly two parts, that is, unless it holds exactly
    one delimiter; the two parts are returned as they are, empty or not. *)
Theorem decode_fails_iff_not_two_parts id :
  (Count id "|" ≠ 1 →
     List.length (Split id "|") ≠ 2 ∧
     ∃ e, decodeSecretsManagerSecretVersionID id = ("", "", Some e)) ∧
  (Count id "|" = 1 →
     ∃ secretID versionID,
       Split id "|" = [secretID; versionID] ∧
       decodeSecretsManagerSecretVersionID id = (secretID, versionID, None)).
Proof.
  pose proof (Split_length id "|") as Hlen. split; intros Hcount.
  - assert (List.length (Split id "|") ≠ 2) as Hparts by lia.
    split; [done|]. eexists. by apply decode_not_two_parts.
  - rewrite Hcount in Hlen.
    destruct (Split id "|") as [|secretID [|versionID [|]]] eqn:Hsplit; try done.
    exists secretID, versionID. split; [done|]. by apply decode_two_parts.
Qed.

(** A string with two delimiters, and an identifier whose second part is
    empty. *)
Lemma decode_fails_iff_not_two_parts_witness :
  (List.length (Split "a|b|c" "|") ≠ 2 ∧
   ∃ e, decodeSecretsManagerSecretVersionID "a|b|c" = ("", "", Some e)) ∧
  (∃ secretID versionID,
     Split "sec|" "|" = [secretID; versionID] ∧
     decodeSecretsManagerSecretVersionID "sec|" = (secretID, versionID, None)).
Proof.
  split.
  - apply (proj1 (decode_fails_iff_not_two_parts "a|b|c")). simpl. lia.
  - apply (proj2 (decode_fails_iff_not_two_parts "sec|")). reflexivity.
Defined.

(** C7: an identifier made by [Create] from parts free of the delimiter
    decodes to these parts, and a string that does not hold exactly one
    delimiter does not decode. *)
Theorem decode_createdID_roundtrip :
  (∀ secretID (VersionId : option string),
     Count secretID "|" = 0 → Count (StringValue VersionId) "|" = 0 →
     decodeSecretsManagerSecretVersionID (createdID secretID VersionId) =
       (secretID, StringValue VersionId, None)) ∧
  (∀ id, Count id "|" ≠ 1 →
     ∃ e, decodeSecretsManagerSecretVersionID id = ("", "", Some e)).
Proof.
  split.
  - intros secretID VersionId Hs Hv. apply decode_two_parts.
    unfold createdID.
    change ("|" +:+ StringValue VersionId) with (String "|" (StringValue VersionId)).
    rewrite (Split_append _ _ _ Hs). by rewrite (Split_no_sep _ _ Hv).
  - intros id Hid. eexists. apply decode_not_two_parts.
    rewrite Split_length. lia.
Qed.

(** An identifier made from two plain parts, and a string with two
    delimiters. *)
Lemma decode_createdID_roundtrip_witness :
  decodeSecretsManagerSecretVersionID (createdID "my-secret" (Some "v1")) =
    ("my-secret", "v1", None) ∧
  ∃ e, decodeSecretsManagerSecretVersionID "a|b|c" = ("", "", Some e).
Proof.
  split.
  - apply (proj1 decode_createdID_roundtrip "my-secret" (Some "v1")); reflexivity.
  - apply (proj2 decode_createdID_roundtrip "a|b|c"). simpl. lia.
Defined.

(** ** The stage diff *)

(** The two differences of a pair of sets are disjoint, applying them to the
    first set gives the second, and nothing comes out of empty sets. *)
Lemma stage_diff_exact (observed desired : gset string) :
  let toAdd := Difference desired observed in
  let toRemove := Difference observed desired in
  (∀ stage, stage ∈ toAdd ↔ stage ∈ desired ∧ stage ∉ observed) ∧
  (∀ stage, stage ∈ toRemove ↔ stage ∈ observed ∧ stage ∉ desired) ∧
  toAdd ∩ toRemove = ∅ ∧
  (observed ∖ toRemove) ∪ toAdd = desired ∧
  Difference (∅ : gset string) ∅ = ∅ ∧
  Len (Difference (∅ : gset string) ∅) = 0.
Proof.
  unfold Difference, Len. split_and!.
  - intros stage. apply elem_of_difference.
  - intros stage. apply elem_of_difference.
  - apply set_eq. intros stage.
    rewrite elem_of_intersection, !elem_of_difference, elem_of_empty. tauto.
  - apply set_eq. intros stage.
    rewrite elem_of_union, !elem_of_difference.
    destruct (decide (stage ∈ observed)), (decide (stage ∈ desired)); tauto.
  - apply difference_diag_L.
  - by rewrite difference_diag_L, size_empty.
Qed.

(** ** What a run adds to the trace *)

Lemma run_bind {S A B} (m : M S A) (k : A → M S B) (s : S) :
  (m ≫= k) s =
  match m s with
  | (Next a, s') => k a s'
  | (Return r, s') => (Return r, s')
  | (Panic msg, s') => (Panic msg, s')
  | (OutOfFuel, s') => (OutOfFuel, s')
  end.
Proof. reflexivity. Qed.

Lemma range_app {S A V} (l1 l2 : list A) (body : A → V → M S V) (v : V) (s : S) :
  range (l1 ++ l2) body v s = (range l1 body v ≫= range l2 body) s.
Proof.
  revert v s. induction l1 as [|x l1 IH]; intros v s; [done|].
  change (range ((x :: l1) ++ l2) body v) with (body x v ≫= range (l1 ++ l2) body).
  change (range (x :: l1) body v) with (body x v ≫= range l1 body).
  rewrite !run_bind. destruct (body x v s) as [[v'| | |] s1]; [apply IH|done..].
Qed.

Section Yields.
Context {S : Type}.

Lemma yields_ret {A} (Q : A → Prop) (a : A) : Q a → yields Q (mret a : M S A).
Proof. intros Ha s a' s' [= <- _]. done. Qed.

Lemma yields_return {A} (Q : A → Prop) r : yields Q (return_ r : M S A).
Proof. by intros s a s'. Qed.

Lemma yields_deref {A} (Q : A → Prop) (p : option A) :
  (∀ a, p = Some a → Q a) → yields Q (deref p : M S A).
Proof. intros Hp s a s'. destruct p; [|done]. intros [= <- _]. by apply Hp. Qed.

Lemma yields_bind {A B} (Q : B → Prop) (m : M S A) (k : A → M S B) :
  (∀ a, yields Q (k a)) → yields Q (m ≫= k).
Proof.
  intros Hk s b s'. rewrite run_bind.
  destruct (m s) as [[a| | |] s1]; try done. apply Hk.
Qed.

End Yields.

Section Emits.
Context {W : Type} {conn : SecretsManagerAPI W} {ext : Externals}.
Variable P : Event → Prop.

Lemma emits_silent {A} (m : M (state W) A) :
  (∀ s, trace (m s).2 = trace s) → emits P m.
Proof. intros Hm s. exists []. by rewrite Hm, app_nil_r. Qed.

Lemma emits_ret {A} (a : A) : emits P (mret a : M (state W) A).
Proof. by apply emits_silent. Qed.

Lemma emits_return {A} r : emits P (return_ r : M (state W) A).
Proof. by apply emits_silent. Qed.

Lemma emits_outOfFuel {A} : emits P (outOfFuel : M (state W) A).
Proof. by apply emits_silent. Qed.

Lemma emits_deref {A} (p : option A) : emits P (deref p : M (state W) A).
Proof. apply emits_silent. by destruct p. Qed.

Lemma emits_get_d : emits P (get_d (W := W)).
Proof. by apply emits_silent. Qed.

Lemma emits_set_d f : emits P (set_d (W := W) f).
Proof. by apply emits_silent. Qed.

Lemma emits_bind {A B} (m : M (state W) A) (k : A → M (state W) B) :
  emits P m → (∀ a, emits P (k a)) → emits P (m ≫= k).
Proof.
  intros Hm Hk s. rewrite run_bind.
  destruct (Hm s) as (tr1 & Htr1 & HP1).
  destruct (m s) as [[a| | |] s1]; simpl in Htr1; try by exists tr1.
  destruct (Hk a s1) as (tr2 & Htr2 & HP2).
  exists (tr1 ++ tr2)%list. split.
  - by rewrite Htr2, Htr1, app_assoc.
  - by apply Forall_app.
Qed.

Lemma emits_bind_yields {A B} (Q : A → Prop) (m : M (state W) A) (k : A → M (state W) B) :
  yields Q m → emits P m → (∀ a, Q a → emits P (k a)) → emits P (m ≫= k).
Proof.
  intros HQ Hm Hk s. rewrite run_bind.
  destruct (Hm s) as (tr1 & Htr1 & HP1).
  destruct (m s) as [[a| | |] s1] eqn:Hrun; simpl in Htr1; try by exists tr1.
  destruct (Hk a (HQ _ _ _ Hrun) s1) as (tr2 & Htr2 & HP2).
  exists (tr1 ++ tr2)%list. split.
  - by rewrite Htr2, Htr1, app_assoc.
  - by apply Forall_app.
Qed.

Lemma emits_call (body : M (state W) Empty_set) : emits P body → emits P (call body).
Proof.
  intros Hm s. destruct (Hm s) as (tr & Htr & HP). exists tr. split; [|done].
  unfold call. by destruct (body s) as [[[]| | |] s1].
Qed.

Lemma emits_emit e : P e → emits P (emit (W := W) e).
Proof. intros He s. exists [e]. split; [done|]. by apply Forall_singleton. Qed.

Lemma emits_GetSecretValue input :
  (∀ output err, P (CallGetSecretValue input output err)) →
  emits P (conn_GetSecretValue input).
Proof.
  intros He s. unfold conn_GetSecretValue.
  destruct (GetSecretValue input (world s)) as [[output err] w].
  eexists [_]. split; [done|]. by apply Forall_singleton.
Qed.

Lemma emits_DescribeSecret input :
  (∀ output err, P (CallDescribeSecret input output err)) →
  emits P (conn_DescribeSecret input).
Proof.
  intros He s. unfold conn_DescribeSecret.
  destruct (DescribeSecret input (world s)) as [[output err] w].
  eexists [_]. split; [done|]. by apply Forall_singleton.
Qed.

Lemma emits_ListSecretVersionIds input :
  (∀ output err, P (CallListSecretVersionIds input output err)) →
  emits P (conn_ListSecretVersionIds input).
Proof.
  intros He s. unfold conn_ListSecretVersionIds.
  destruct (ListSecretVersionIds input (world s)) as [[output err] w].
  eexists [_]. split; [done|]. by apply Forall_singleton.
Qed.

Lemma emits_UpdateSecretVersionStage input :
  (∀ err, P (CallUpdateSecretVersionStage input err)) →
  emits P (conn_UpdateSecretVersionStage input).
Proof.
  intros He s. unfold conn_UpdateSecretVersionStage.
  destruct (UpdateSecretVersionStage input (world s)) as [err w].
  eexists [_]. split; [done|]. by apply Forall_singleton.
Qed.

Lemma emits_range {A V} (l : list A) (body : A → V → M (state W) V) (v : V) :
  (∀ x v, emits P (body x v)) → emits P (range l body v).
Proof.
  intros Hbody. revert v. induction l as [|x l IH]; intros v; simpl.
  - apply emits_ret.
  - apply emits_bind; [apply Hbody|]. intros v'. apply IH.
Qed.

Lemma emits_Retry {V} attempts (f : M (state W) (V * option RetryError)) (v : V) :
  emits P f → emits P (Retry attempts f v).
Proof.
  intros Hf. revert v. induction attempts as [|n IH]; intros v.
  - apply emits_ret.
  - destruct n as [|n].
    + simpl. apply emits_bind; [done|]. intros [v' rerr]. apply emits_ret.
    + change (Retry (Datatypes.S (Datatypes.S n)) f v) with
        ('(v, rerr) ← f;
         match rerr with
         | None => mret (v, None)
         | Some re => if Retryable re then Retry (Datatypes.S n) f v
                      else mret (v, Some (Err re))
         end).
      apply emits_bind; [done|]. intros [v' [re|]]; [|apply emits_ret].
      destruct (Retryable re); [apply IH|apply emits_ret].
Qed.

End Emits.

(** One step of a proof that a computation [emits] only events satisfying a
    predicate: split a sequence, or take the branch apart. *)
Ltac emits_step :=
  lazymatch goal with
  | |- emits _ (mbind _ _) => apply emits_bind; [|intros ?]
  | |- emits _ (mret _) => apply emits_ret
  | |- emits _ (return_ _) => apply emits_return
  | |- emits _ (deref _) => apply emits_deref
  | |- emits _ get_d => apply emits_get_d
  | |- emits _ (set_d _) => apply emits_set_d
  | |- emits _ (log_Printf _ _) => apply emits_emit
  | |- emits _ (call _) => apply emits_call
  | |- emits _ (Retry _ _ _) => apply emits_Retry
  | |- emits _ (range _ _ _) => apply emits_range; intros ? ?
  | |- emits _ (conn_GetSecretValue _) => apply emits_GetSecretValue; intros ? ?
  | |- emits _ (conn_DescribeSecret _) => apply emits_DescribeSecret; intros ? ?
  | |- emits _ (conn_ListSecretVersionIds _) => apply emits_ListSecretVersionIds; intros ? ?
  | |- emits _ (conn_UpdateSecretVersionStage _) => apply emits_UpdateSecretVersionStage; intros ?
  | |- emits _ (match ?x with _ => _ end) => destruct x eqn:?
  end.

Section NoBareRemoval.
Context {W : Type} {conn : SecretsManagerAPI W} {ext : Externals}.

Lemma keepsCURRENT_move input err :
  UpdateSecretVersionStageInput.MoveToVersionId input ≠ None →
  keepsCURRENT (CallUpdateSecretVersionStage input err).
Proof.
  intros Hmove. unfold keepsCURRENT. simpl.
  rewrite (bool_decide_eq_false_2 _ Hmove). apply andb_false_r.
Qed.

Lemma keepsCURRENT_other input err stage :
  UpdateSecretVersionStageInput.VersionStage input = Some stage →
  String.eqb stage "AWSCURRENT" = false →
  keepsCURRENT (CallUpdateSecretVersionStage input err).
Proof.
  intros Hstage Hneq. unfold keepsCURRENT. simpl. rewrite Hstage.
  apply String.eqb_neq in Hneq.
  rewrite bool_decide_eq_false_2; [done|congruence].
Qed.

Lemma Read_keepsCURRENT attempts :
  emits keepsCURRENT (resourceAwsSecretsManagerSecretVersionRead (W := W) attempts).
Proof.
  unfold resourceAwsSecretsManagerSecretVersionRead,
    resourceAwsSecretsManagerSecretVersionRead_body, readAttempt.
  repeat emits_step; done.
Qed.

Lemma loopListVersionIDsPagination_keepsCURRENT fuel secretID stage nextToken :
  emits keepsCURRENT (loopListVersionIDsPagination (W := W) fuel secretID stage nextToken).
Proof.
  revert nextToken. induction fuel as [|fuel IH]; intros nextToken; simpl.
  - apply emits_outOfFuel.
  - repeat emits_step; done.
Qed.

Lemma addStage_keepsCURRENT fuel secretID versionID stage vars :
  emits keepsCURRENT (addStage (W := W) fuel secretID versionID stage vars).
Proof.
  unfold addStage. destruct vars as [describedSecret awsPreviousVersionID].
  apply emits_bind_yields with
    (Q := λ p, UpdateSecretVersionStageInput.MoveToVersionId p.2 = Some versionID).
  - destruct (String.eqb stage "AWSCURRENT"); [|by apply yields_ret].
    apply yields_bind. intros _.
    destruct describedSecret; [by apply yields_ret|].
    apply yields_bind. intros [described [e|]]; [apply yields_return|].
    apply yields_bind. intros awsCurrentStageVersionID.
    apply yields_bind. intros from. apply yields_bind. intros _.
    by apply yields_ret.
  - repeat emits_step; try done.
    apply loopListVersionIDsPagination_keepsCURRENT.
  - intros [describedSecret' input] Hmove. simpl in Hmove.
    repeat emits_step; try done.
    apply keepsCURRENT_move. by rewrite Hmove.
Qed.

Lemma removeStage_keepsCURRENT secretID versionID awsPreviousVersionID stage u :
  emits keepsCURRENT (removeStage (W := W) secretID versionID awsPreviousVersionID stage u).
Proof.
  unfold removeStage. destruct (String.eqb stage "AWSCURRENT") eqn:Hstage.
  - by apply emits_emit.
  - repeat emits_step; try done.
    by apply keepsCURRENT_other with stage.
Qed.

Lemma removeStage_skips_CURRENT secretID versionID awsPreviousVersionID (s : state W) :
  removeStage secretID versionID awsPreviousVersionID "AWSCURRENT" () s =
    (Next (),
     {| world := world s; d := d s;
        trace := trace s ++
          [Log "[INFO] Skipping removal of AWSCURRENT staging label for secret %q version %q"
               [LogString secretID; LogString versionID]] |}).
Proof. reflexivity. Qed.

(** C4: a run of the update, whatever the store answers, adds no bare
    removal of the protected label to the trace; and in the loop over the
    labels to remove, wherever the protected label stands, it costs one log
    line and nothing else: the loop runs over the labels before it, logs
    the skip without a call or an error, and goes on with the labels after
    it. *)
Theorem update_never_bare_removes_CURRENT fuel attempts (s : state W) :
  (∃ tr, trace (resourceAwsSecretsManagerSecretVersionUpdate fuel attempts s).2 =
           (trace s ++ tr)%list ∧
         Forall (λ e, bareRemovalOf "AWSCURRENT" e = false) tr) ∧
  (∀ secretID versionID awsPreviousVersionID before after,
     range (before ++ "AWSCURRENT" :: after)
           (removeStage secretID versionID awsPreviousVersionID) () s =
     (range before (removeStage secretID versionID awsPreviousVersionID) () ≫= λ _,
      log_Printf "[INFO] Skipping removal of AWSCURRENT staging label for secret %q version %q"
                 [LogString secretID; LogString versionID] ≫= λ _,
      range after (removeStage secretID versionID awsPreviousVersionID) ()) s).
Proof.
  split.
  - revert s. change (emits keepsCURRENT
      (resourceAwsSecretsManagerSecretVersionUpdate (W := W) fuel attempts)).
    unfold resourceAwsSecretsManagerSecretVersionUpdate,
      resourceAwsSecretsManagerSecretVersionUpdate_body.
    repeat emits_step; try done.
    + apply addStage_keepsCURRENT.
    + apply removeStage_keepsCURRENT.
    + apply Read_keepsCURRENT.
  - intros secretID versionID awsPreviousVersionID before after.
    rewrite range_app, !run_bind.
    destruct (range before _ () s) as [[[]| | |] s1]; [|done..].
    change (range ("AWSCURRENT" :: after)
              (removeStage secretID versionID awsPreviousVersionID) ())
      with (removeStage secretID versionID awsPreviousVersionID "AWSCURRENT" () ≫=
            range after (removeStage secretID versionID awsPreviousVersionID)).
    rewrite !run_bind. by rewrite removeStage_skips_CURRENT.
Qed.

(** Every removal the loop over the labels to remove issues is addressed to
    [awsPreviousVersionID], whatever the loop over the additions left in
    it. *)
Lemma removeStage_targets secretID versionID awsPreviousVersionID stagesToRemove :
  emits (λ e, ∀ input err, e = CallUpdateSecretVersionStage input err →
              UpdateSecretVersionStageInput.RemoveFromVersionId input = awsPreviousVersionID)
        (range (S := state W) stagesToRemove
               (removeStage secretID versionID awsPreviousVersionID) ()).
Proof.
  apply emits_range. intros stage []. unfold removeStage.
  repeat emits_step; try done. by intros ? ? [= <- _].
Qed.

End NoBareRemoval.

(** ** The pagination loop *)

Section Locator.
Context {W : Type} {conn : SecretsManagerAPI W} {ext : Externals}.

Lemma scanVersions_first before version after :
  Forall (λ v, carriesCURRENT v = false) before →
  carriesCURRENT version = true →
  scanVersions (before ++ version :: after) =
    Some (SecretVersionsListEntry.VersionId version).
Proof.
  unfold carriesCURRENT. intros Hbefore Hversion.
  induction Hbefore as [|v before Hv _ IH]; simpl.
  - by rewrite Hversion.
  - by rewrite Hv.
Qed.

Lemma scanVersions_none Versions :
  Forall (λ v, carriesCURRENT v = false) Versions ↔ scanVersions Versions = None.
Proof.
  unfold carriesCURRENT. induction Versions as [|v Versions IH]; simpl.
  - split; [done|]. intros _. constructor.
  - rewrite Forall_cons. destruct (existsb isCURRENT _); [|tauto].
    split; [by intros [? _]|done].
Qed.

Lemma loop_found fuel secretID stage token (s : state W) output w' VersionId :
  ListSecretVersionIds (listRequest secretID token) (world s) = (Some output, None, w') →
  scanVersions (ListSecretVersionIdsOutput.Versions output) = Some VersionId →
  loopListVersionIDsPagination (Datatypes.S fuel) secretID stage token s =
    (Next VersionId,
     {| world := w'; d := d s;
        trace := trace s ++
          [CallListSecretVersionIds (listRequest secretID token) (Some output) None] |}).
Proof.
  intros Hlist Hscan. simpl. rewrite run_bind.
  unfold conn_ListSecretVersionIds. fold (listRequest secretID token).
  rewrite Hlist. simpl. rewrite run_bind. simpl. by rewrite Hscan.
Qed.

Lemma loop_last fuel secretID stage token (s : state W) output w' :
  ListSecretVersionIds (listRequest secretID token) (world s) = (Some output, None, w') →
  scanVersions (ListSecretVersionIdsOutput.Versions output) = None →
  ListSecretVersionIdsOutput.NextToken output = None →
  loopListVersionIDsPagination (Datatypes.S fuel) secretID stage token s =
    (Next None,
     {| world := w'; d := d s;
        trace := trace s ++
          [CallListSecretVersionIds (listRequest secretID token) (Some output) None] |}).
Proof.
  intros Hlist Hscan Hnext. simpl. rewrite run_bind.
  unfold conn_ListSecretVersionIds. fold (listRequest secretID token).
  rewrite Hlist. simpl. rewrite run_bind. simpl. by rewrite Hscan, Hnext.
Qed.

Lemma loop_next fuel secretID stage token (s : state W) output w' next :
  ListSecretVersionIds (listRequest secretID token) (world s) = (Some output, None, w') →
  scanVersions (ListSecretVersionIdsOutput.Versions output) = None →
  ListSecretVersionIdsOutput.NextToken output = Some next →
  loopListVersionIDsPagination (Datatypes.S fuel) secretID stage token s =
    loopListVersionIDsPagination fuel secretID stage (Some next)
      {| world := w'; d := d s;
         trace := trace s ++
           [CallListSecretVersionIds (listRequest secretID token) (Some output) None] |}.
Proof.
  intros Hlist Hscan Hnext. simpl. rewrite run_bind.
  unfold conn_ListSecretVersionIds. fold (listRequest secretID token).
  rewrite Hlist. simpl. rewrite run_bind. simpl. by rewrite Hscan, Hnext.
Qed.

(** The loop walks over the pages that hold no current version, one request
    a page. *)
Lemma loop_cleanPages fuel secretID stage w token evs w1 token1 rd tr :
  cleanPages secretID w token evs w1 token1 →
  loopListVersionIDsPagination (List.length evs + fuel) secretID stage token
    {| world := w; d := rd; trace := tr |} =
  loopListVersionIDsPagination fuel secretID stage token1
    {| world := w1; d := rd; trace := tr ++ evs |}.
Proof.
  intros Hpages. revert tr.
  induction Hpages as [w token|w token output w1 next evs w2 token2 Hlist Hscan Hnext _ IH];
    intros tr.
  - by rewrite app_nil_r.
  - change (List.length (_ :: evs) + fuel) with (Datatypes.S (List.length evs + fuel)).
    rewrite (loop_next _ _ _ _ _ output w1 next); [|done..].
    simpl. rewrite IH. by rewrite <- app_assoc.
Qed.

(** A current version on the first page: one request, whether or not the
    page names a next one. *)
Lemma locator_first_page_one_request fuel secretID stage (s : state W)
    output w' before version after :
  ListSecretVersionIds (listRequest secretID None) (world s) = (Some output, None, w') →
  ListSecretVersionIdsOutput.Versions output = (before ++ version :: after)%list →
  Forall (λ v, carriesCURRENT v = false) before →
  carriesCURRENT version = true →
  loopListVersionIDsPagination (Datatypes.S fuel) secretID stage None s =
    (Next (SecretVersionsListEntry.VersionId version),
     {| world := w'; d := d s;
        trace := trace s ++
          [CallListSecretVersionIds (listRequest secretID None) (Some output) None] |}).
Proof.
  intros Hlist Hversions Hbefore Hversion. apply loop_found; [done|].
  rewrite Hversions. by apply scanVersions_first.
Qed.

(** C6: when the first version that is current is on the page that follows
    [evs] pages without one, the locator asks for these pages and for that
    one and for no other, whatever page the store names next, and its result
    is the identifier of that version.  With no page before ([evs] empty),
    the version is on the first page and the request is the only one. *)
Theorem locator_stops_at_first_current fuel secretID stage (s : state W)
    evs w1 token output w2 before version after :
  cleanPages secretID (world s) None evs w1 token →
  ListSecretVersionIds (listRequest secretID token) w1 = (Some output, None, w2) →
  ListSecretVersionIdsOutput.Versions output = (before ++ version :: after)%list →
  Forall (λ v, carriesCURRENT v = false) before →
  carriesCURRENT version = true →
  loopListVersionIDsPagination (List.length evs + Datatypes.S fuel) secretID stage None s =
    (Next (SecretVersionsListEntry.VersionId version),
     {| world := w2; d := d s;
        trace := trace s ++ evs ++
          [CallListSecretVersionIds (listRequest secretID token) (Some output) None] |}).
Proof.
  intros Hpages Hlist Hversions Hbefore Hversion. destruct s as [w rd tr]. simpl in *.
  rewrite (loop_cleanPages _ _ _ _ _ _ _ _ _ _ Hpages).
  erewrite loop_found; [|done|].
  - simpl. by rewrite <- app_assoc.
  - rewrite Hversions. by apply scanVersions_first.
Qed.

End Locator.

(** ** Runs of the additions *)

Section Additions.
Context {W : Type} {conn : SecretsManagerAPI W} {ext : Externals}.

(** When the store lists no current version, the locator ends with [nil],
    and the addition of the protected label panics at the log line that
    dereferences it; the move itself is never issued. *)
Lemma addStage_panics_without_current fuel secretID versionID vars (s : state W)
    described w0 evs w1 token output w2 :
  vars.1 = None →
  DescribeSecret {| DescribeSecretInput.SecretId := Some secretID |} (world s) =
    (described, None, w0) →
  cleanPages secretID w0 None evs w1 token →
  ListSecretVersionIds (listRequest secretID token) w1 = (Some output, None, w2) →
  Forall (λ v, carriesCURRENT v = false) (ListSecretVersionIdsOutput.Versions output) →
  ListSecretVersionIdsOutput.NextToken output = None →
  addStage (List.length evs + Datatypes.S fuel) secretID versionID "AWSCURRENT" vars s =
    (Panic "invalid memory address or nil pointer dereference",
     {| world := w2; d := d s;
        trace := trace s ++
          [Log "[DEBUG] Going to set AWSCURRENT staging label for secret %q version %q"
               [LogString secretID; LogString versionID];
           CallDescribeSecret {| DescribeSecretInput.SecretId := Some secretID |} described None] ++
          evs ++
          [CallListSecretVersionIds (listRequest secretID token) (Some output) None] |}).
Proof.
  destruct vars as [describedSecret awsPreviousVersionID]. simpl.
  intros -> Hdescribe Hpages Hlist Hclean Hnext.
  apply scanVersions_none in Hclean.
  unfold addStage. simpl. unfold conn_DescribeSecret.
  repeat (rewrite run_bind; simpl). rewrite Hdescribe. simpl.
  rewrite run_bind.
  rewrite (loop_cleanPages _ _ _ _ _ _ _ _ _ _ Hpages).
  erewrite loop_last; [|done..]. simpl.
  by rewrite <- !app_assoc.
Qed.

(** A successful addition of any other label leaves [awsPreviousVersionID]
    [nil], whatever it was. *)
Lemma addStage_plain_forgets_version fuel secretID versionID stage vars (s : state W) w' :
  String.eqb stage "AWSCURRENT" = false →
  UpdateSecretVersionStage (addInput secretID versionID stage) (world s) = (None, w') →
  addStage fuel secretID versionID stage vars s =
    (Next (vars.1, None),
     {| world := w'; d := d s;
        trace := trace s ++
          [Log "[DEBUG] Updating Secrets Manager Secret Version Stage: %s"
               [LogInput (addInput secretID versionID stage)];
           CallUpdateSecretVersionStage (addInput secretID versionID stage) None] |}).
Proof.
  destruct vars as [describedSecret awsPreviousVersionID].
  intros Hstage Hmove. unfold addInput in *.
  unfold addStage, conn_UpdateSecretVersionStage. rewrite Hstage.
  repeat (rewrite run_bind; simpl). rewrite Hmove. simpl.
  by rewrite <- app_assoc.
Qed.

End Additions.

Section Runs.
#[local] Existing Instance Scripted.conn.
#[local] Existing Instance Scripted.ext.

(** C1, on the code: a version [v2] of a secret none of whose versions is
    current is given the protected label.  The locator ends normally with a
    [nil] holder after its one request, and the update then panics, before
    any stage move is issued. *)
Theorem update_panics_when_no_version_is_current fuel attempts :
  let rd := Scripted.resourceData "sec|v2" false {["BAR"]} {["BAR"; "AWSCURRENT"]} in
  let s := Scripted.start Scripted.noCurrent rd in
  (loopListVersionIDsPagination (Datatypes.S fuel) "sec" "AWSCURRENT" None s).1 = Next None ∧
  (resourceAwsSecretsManagerSecretVersionUpdate (Datatypes.S fuel) attempts s).1 =
    Panic "invalid memory address or nil pointer dereference" ∧
  stageMoves (trace (resourceAwsSecretsManagerSecretVersionUpdate (Datatypes.S fuel) attempts s).2) = [].
Proof. split_and!; vm_compute; reflexivity. Qed.

(** C2, on the code: the version [v2] holds [BAR] and is to hold [FOO]
    instead.  No relocation of the protected label takes place, and yet the
    removal of [BAR] is not addressed to [v2]: its remove-from target is
    [nil]. *)
Theorem removal_after_plain_addition_has_no_target fuel attempts :
  let rd := Scripted.resourceData "sec|v2" false {["BAR"]} {["FOO"]} in
  let s := Scripted.start Scripted.noCurrent rd in
  (resourceAwsSecretsManagerSecretVersionUpdate fuel attempts s).1 = Next None ∧
  stageMoves (trace (resourceAwsSecretsManagerSecretVersionUpdate fuel attempts s).2) =
    [(addInput "sec" "v2" "FOO", None);
     ({| UpdateSecretVersionStageInput.MoveToVersionId := None;
         UpdateSecretVersionStageInput.RemoveFromVersionId := None;
         UpdateSecretVersionStageInput.SecretId := Some "sec";
         UpdateSecretVersionStageInput.VersionStage := Some "BAR" |}, None)].
Proof. destruct attempts as [|[|attempts]]; split; vm_compute; reflexivity. Qed.

(** The scenario of the specification: [v2] is to become current while
    [v1] is; one move is issued, to [v2] and from [v1], and no removal. *)
Example update_relocates_CURRENT :
  let rd := Scripted.resourceData "sec|v2" false ∅ {["AWSCURRENT"]} in
  let run := resourceAwsSecretsManagerSecretVersionUpdate 1 1
               (Scripted.start Scripted.twoPages rd) in
  run.1 = Next None ∧
  stageMoves (trace run.2) =
    [({| UpdateSecretVersionStageInput.MoveToVersionId := Some "v2";
         UpdateSecretVersionStageInput.RemoveFromVersionId := Some "v1";
         UpdateSecretVersionStageInput.SecretId := Some "sec";
         UpdateSecretVersionStageInput.VersionStage := Some "AWSCURRENT" |}, None)].
Proof. split; vm_compute; reflexivity. Qed.

(** The other scenario of the specification: [v2] is to lose [STAGING] and
    nothing is added; the one removal is addressed to [v2]. *)
Example update_removes_from_version_without_additions :
  let rd := Scripted.resourceData "sec|v2" false {["STAGING"]} ∅ in
  let run := resourceAwsSecretsManagerSecretVersionUpdate 1 1
               (Scripted.start Scripted.noCurrent rd) in
  run.1 = Next None ∧
  stageMoves (trace run.2) = [(removeCall "sec" "v2" "STAGING", None)].
Proof. split; vm_compute; reflexivity. Qed.

(** On the first page of two, one request; on the second page of three, two
    requests, and none for the third page. *)
Lemma locator_stops_at_first_current_witness :
  let rd := Scripted.resourceData "sec|v2" false ∅ {["AWSCURRENT"]} in
  let page1 := {| ListSecretVersionIdsOutput.Versions :=
                    [Scripted.version "v3" ["BAR"]; Scripted.version "v1" ["AWSCURRENT"]];
                  ListSecretVersionIdsOutput.NextToken := Some "page2" |} in
  let page1' := {| ListSecretVersionIdsOutput.Versions := [Scripted.version "v3" ["BAR"]];
                   ListSecretVersionIdsOutput.NextToken := Some "page2" |} in
  let page2' := {| ListSecretVersionIdsOutput.Versions :=
                     [Scripted.version "v1" ["AWSPENDING"; "AWSCURRENT"]];
                   ListSecretVersionIdsOutput.NextToken := Some "page3" |} in
  loopListVersionIDsPagination 1 "sec" "AWSCURRENT" None (Scripted.start Scripted.twoPages rd) =
    (Next (Some "v1"),
     {| world := Scripted.twoPages; d := rd;
        trace := [CallListSecretVersionIds (listRequest "sec" None) (Some page1) None] |}) ∧
  loopListVersionIDsPagination 5 "sec" "AWSCURRENT" None (Scripted.start Scripted.threePages rd) =
    (Next (Some "v1"),
     {| world := Scripted.threePages; d := rd;
        trace := [CallListSecretVersionIds (listRequest "sec" None) (Some page1') None;
                  CallListSecretVersionIds (listRequest "sec" (Some "page2")) (Some page2') None] |}).
Proof.
  intros rd page1 page1' page2'. split.
  - apply (locator_stops_at_first_current 0 "sec" "AWSCURRENT"
             (Scripted.start Scripted.twoPages rd) [] Scripted.twoPages None page1
             Scripted.twoPages
             [Scripted.version "v3" ["BAR"]] (Scripted.version "v1" ["AWSCURRENT"]) []).
    + constructor.
    + reflexivity.
    + reflexivity.
    + repeat constructor.
    + reflexivity.
  - apply (locator_stops_at_first_current 3 "sec" "AWSCURRENT"
             (Scripted.start Scripted.threePages rd)
             [CallListSecretVersionIds (listRequest "sec" None) (Some page1') None]
             Scripted.threePages (Some "page2") page2' Scripted.threePages
             [] (Scripted.version "v1" ["AWSPENDING"; "AWSCURRENT"]) []).
    + apply (cleanPages_cons "sec" Scripted.threePages None page1' Scripted.threePages
               "page2" [] Scripted.threePages (Some "page2"));
        [reflexivity..|constructor].
    + reflexivity.
    + reflexivity.
    + constructor.
    + reflexivity.
Defined.

End Runs.

(** ** Reading a resource that is gone *)

Section ReadAbsent.
Context {W : Type} {conn : SecretsManagerAPI W} {ext : Externals}.

Lemma ErrCodeEquals_As_awserr e code :
  ErrCodeEquals (Some e) code = true → As_awserr e ≠ None.
Proof. unfold ErrCodeEquals. simpl. by destruct (As_awserr e). Qed.

Lemma ErrMessageContains_As_awserr e code message :
  ErrMessageContains (Some e) code message = true → As_awserr e ≠ None.
Proof. unfold ErrMessageContains. simpl. by destruct (As_awserr e). Qed.

Lemma As_awserr_not_TimedOut e : As_awserr e ≠ None → TimedOut (Some e) = false.
Proof. by destruct e as [| [] |]. Qed.

(** For a resource that is not new, one run of the function handed to
    [Retry] settles the result when the read fails. *)
Lemma Retry_readAttempt_not_new attempts input (s : state W) output e w' captured :
  IsNewResource (d s) = false →
  GetSecretValue input (world s) = (output, Some e, w') →
  attempts ≠ 0 →
  Retry attempts (readAttempt input) captured s =
    (Next (output, Some e),
     {| world := w'; d := d s;
        trace := trace s ++ [CallGetSecretValue input output (Some e)] |}).
Proof.
  intros Hnew Hget Hattempts.
  assert (readAttempt input s =
            (Next (output, Some {| Err := e; Retryable := false |}),
             {| world := w'; d := d s;
                trace := trace s ++ [CallGetSecretValue input output (Some e)] |})) as Hrun.
  { unfold readAttempt, conn_GetSecretValue.
    repeat (rewrite run_bind; simpl). rewrite Hget. simpl.
    rewrite run_bind. simpl. by rewrite Hnew. }
  destruct attempts as [|[|n]]; [done| |].
  - simpl. rewrite run_bind, Hrun. done.
  - change (Retry (Datatypes.S (Datatypes.S n)) (readAttempt input) captured) with
      ('(v, rerr) ← readAttempt input;
       match rerr with
       | None => mret (v, None)
       | Some re => if Retryable re then Retry (Datatypes.S n) (readAttempt input) v
                    else mret (v, Some (Err re))
       end).
    rewrite run_bind, Hrun. done.
Qed.

(** C8: when the resource is not new and the read of its version fails with
    "resource not found" or with "secret was deleted", [Read] makes this one
    read and no other, warns, and returns [nil]; in the resource data it
    leaves, the identifier is the empty string and everything else is as
    before. *)
Theorem read_of_absent_resource_drops_it attempts (s : state W)
    secretID versionID output e w' :
  decodeSecretsManagerSecretVersionID (Id (d s)) = (secretID, versionID, None) →
  IsNewResource (d s) = false →
  GetSecretValue {| GetSecretValueInput.SecretId := Some secretID;
                    GetSecretValueInput.VersionId := Some versionID |} (world s) =
    (output, Some e, w') →
  ErrCodeEquals (Some e) ErrCodeResourceNotFoundException = true ∨
  ErrMessageContains (Some e) ErrCodeInvalidRequestException secretWasDeleted = true →
  resourceAwsSecretsManagerSecretVersionRead attempts s =
    (Next None,
     {| world := w';
        d := {| Id := ""; IsNewResource := IsNewResource (d s);
                prior_version_stages := prior_version_stages (d s);
                version_stages := version_stages (d s);
                secret_id := secret_id (d s); secret_string := secret_string (d s);
                secret_binary := secret_binary (d s); version_id := version_id (d s);
                arn := arn (d s) |};
        trace := trace s ++
          [CallGetSecretValue {| GetSecretValueInput.SecretId := Some secretID;
                                 GetSecretValueInput.VersionId := Some versionID |}
                              output (Some e);
           Log notFoundWarning [LogString (Id (d s))]] |}).
Proof.
  intros Hdecode Hnew Hget Hgone.
  assert (TimedOut (Some e) = false) as Htimed.
  { apply As_awserr_not_TimedOut.
    destruct Hgone as [H|H];
      [by eapply ErrCodeEquals_As_awserr|by eapply ErrMessageContains_As_awserr]. }
  unfold resourceAwsSecretsManagerSecretVersionRead, call,
    resourceAwsSecretsManagerSecretVersionRead_body.
  rewrite run_bind. simpl. rewrite Hdecode, run_bind.
  destruct (decide (attempts = 0)) as [->|Hattempts].
  - simpl. rewrite run_bind. unfold conn_GetSecretValue. rewrite Hget. simpl.
    rewrite Hnew. simpl.
    destruct Hgone as [->| ->]; [|destruct (ErrCodeEquals _ _)];
      repeat (rewrite run_bind; simpl);
      unfold SetId; simpl; rewrite ?Hnew, <- app_assoc; reflexivity.
  - rewrite (Retry_readAttempt_not_new _ _ _ _ _ _ _ Hnew Hget Hattempts).
    rewrite run_bind, Htimed. simpl. rewrite Hnew. simpl.
    destruct Hgone as [->| ->]; [|destruct (ErrCodeEquals _ _)];
      repeat (rewrite run_bind; simpl);
      unfold SetId; simpl; rewrite ?Hnew, <- app_assoc; reflexivity.
Qed.

End ReadAbsent.

(** ** Deleting *)

Section Deleting.
Context {W : Type} {conn : SecretsManagerAPI W} {ext : Externals}.

Lemma deleteEvents_CURRENT secretID versionID stage answer :
  String.eqb stage "AWSCURRENT" = true →
  deleteEvents secretID versionID stage answer =
    [Log "[WARN] Cannot remove AWSCURRENT staging label, which may leave the secret %q version %q active"
         [LogString secretID; LogString versionID]].
Proof. unfold deleteEvents. by intros ->. Qed.

Lemma deleteEvents_other secretID versionID stage answer :
  String.eqb stage "AWSCURRENT" = false →
  deleteEvents secretID versionID stage answer =
    [Log "[DEBUG] Updating Secrets Manager Secret Version Stage: %s"
         [LogInput (removeCall secretID versionID stage)];
     CallUpdateSecretVersionStage (removeCall secretID versionID stage) answer].
Proof. unfold deleteEvents. by intros ->. Qed.

(** The loop of [Delete] either runs over all labels, every removal being
    answered without error, or ends at the first removal that fails, with
    [nil] for an absence error and with the wrapped error otherwise. *)
Lemma deleteStage_range secretID versionID stages (s : state W) o s' :
  range stages (deleteStage secretID versionID) () s = (o, s') →
  d s' = d s ∧
  ((o = Next () ∧
    trace s' =
      (trace s ++ flat_map (λ stage, deleteEvents secretID versionID stage None) stages)%list) ∨
   (∃ done stage rest e,
      stages = (done ++ stage :: rest)%list ∧
      String.eqb stage "AWSCURRENT" = false ∧
      trace s' =
        (trace s ++ flat_map (λ stage, deleteEvents secretID versionID stage None) done ++
         deleteEvents secretID versionID stage (Some e))%list ∧
      o = Return (if isAbsence e then None
                  else Some (updateError secretID stage e)))).
Proof.
  revert s. induction stages as [|stage stages IH]; intros s; simpl.
  - intros [= <- <-]. split; [done|]. left. by rewrite app_nil_r.
  - rewrite run_bind. unfold deleteStage at 1.
    destruct (String.eqb stage "AWSCURRENT") eqn:Hstage.
    + simpl. intros Hrun.
      destruct (IH _ Hrun) as [Hd [[Hr Ht]|(done & stage' & rest & e & -> & Hstage' & Ht & Hr)]];
        simpl in *.
      * split; [done|]. left. split; [done|].
        rewrite Ht, (deleteEvents_CURRENT _ _ stage None Hstage).
        by rewrite <- app_assoc.
      * split; [done|]. right. exists (stage :: done), stage', rest, e.
        split_and!; try done.
        rewrite Ht. simpl. rewrite (deleteEvents_CURRENT _ _ stage None Hstage).
        by rewrite <- !app_assoc.
    + repeat (rewrite run_bind; simpl). unfold conn_UpdateSecretVersionStage. simpl.
      destruct (UpdateSecretVersionStage _ (world s)) as [[e|] w] eqn:Hmove; simpl.
      * intros Hrun. assert (d s' = d s ∧
          trace s' = (trace s ++ deleteEvents secretID versionID stage (Some e))%list ∧
          o = Return (if isAbsence e then None else Some (updateError secretID stage e)))
          as (Hd & Ht & Hr).
        { rewrite (deleteEvents_other _ _ stage (Some e) Hstage).
          unfold isAbsence, removeCall. unfold return_ in Hrun.
          destruct (isAWSErr e ErrCodeResourceNotFoundException "");
            [|destruct (isAWSErr e ErrCodeInvalidRequestException secretWasDeleted)];
            injection Hrun as <- <-; simpl; by rewrite <- app_assoc. }
        split; [done|]. right. by exists [], stage, stages, e.
      * intros Hrun.
        destruct (IH _ Hrun) as [Hd [[Hr Ht]|(done & stage' & rest & e & -> & Hstage' & Ht & Hr)]];
          simpl in *.
        -- split; [done|]. left. split; [done|].
           rewrite Ht, (deleteEvents_other _ _ stage None Hstage). unfold removeCall.
           by rewrite <- !app_assoc.
        -- split; [done|]. right. exists (stage :: done), stage', rest, e.
           split_and!; try done.
           rewrite Ht. simpl. rewrite (deleteEvents_other _ _ stage None Hstage).
           unfold removeCall. by rewrite <- !app_assoc.
Qed.

Lemma stageMoves_app tr1 tr2 :
  stageMoves (tr1 ++ tr2) = (stageMoves tr1 ++ stageMoves tr2)%list.
Proof. apply omap_app. Qed.

(** The removals among the events of a loop over labels whose removals are
    all answered without error: one for each label but the protected one. *)
Lemma stageMoves_deleteEvents secretID versionID stages :
  stageMoves (flat_map (λ stage, deleteEvents secretID versionID stage None) stages) =
    (λ stage, (removeCall secretID versionID stage, None)) <$>
      filter (λ stage, stage ≠ "AWSCURRENT") stages.
Proof.
  induction stages as [|stage stages IH]; [done|].
  simpl. rewrite stageMoves_app, IH.
  destruct (String.eqb_spec stage "AWSCURRENT") as [->|Hstage].
  - rewrite filter_cons_False; [|by intros []]. done.
  - rewrite filter_cons_True; [|done].
    rewrite deleteEvents_other; [done|]. by apply String.eqb_neq.
Qed.

(** C9, amended: deleting a version that holds labels goes through them in
    the order [List] gives: the protected label gets a warning and no call,
    every other label one removal from the version.  When every removal is
    answered without error, that is one removal for each held label but the
    protected one, and [Delete] returns [nil].  The first removal that fails
    ends the run and the labels after it get no call: [Delete] returns [nil]
    when the failure is an absence error, and the wrapped error otherwise. *)
Theorem delete_removes_until_a_removal_fails (s : state W) secretID versionID :
  decodeSecretsManagerSecretVersionID (Id (d s)) = (secretID, versionID, None) →
  Len (version_stages (d s)) ≠ 0 →
  let stages := List (version_stages (d s)) in
  let run := resourceAwsSecretsManagerSecretVersionDelete s in
  d run.2 = d s ∧
  ∃ tr, trace run.2 = (trace s ++ tr)%list ∧
    ((run.1 = Next None ∧
      tr = flat_map (λ stage, deleteEvents secretID versionID stage None) stages ∧
      stageMoves tr =
        (λ stage, (removeCall secretID versionID stage, None)) <$>
          filter (λ stage, stage ≠ "AWSCURRENT") stages) ∨
     (∃ done stage rest e,
        stages = (done ++ stage :: rest)%list ∧
        stage ≠ "AWSCURRENT" ∧
        tr = (flat_map (λ stage, deleteEvents secretID versionID stage None) done ++
              deleteEvents secretID versionID stage (Some e))%list ∧
        stageMoves tr =
          (((λ stage, (removeCall secretID versionID stage, None)) <$>
              filter (λ stage, stage ≠ "AWSCURRENT") done) ++
           [(removeCall secretID versionID stage, Some e)])%list ∧
        run.1 = Next (if isAbsence e then None
                      else Some (updateError secretID stage e)))).
Proof.
  intros Hdecode Hlen stages run. subst run.
  unfold resourceAwsSecretsManagerSecretVersionDelete, call,
    resourceAwsSecretsManagerSecretVersionDelete_body.
  rewrite run_bind. simpl. rewrite Hdecode. unfold GetOk_version_stages.
  apply Nat.eqb_neq in Hlen. rewrite Hlen. simpl. rewrite run_bind.
  fold stages.
  destruct (range stages (deleteStage secretID versionID) () s) as [o s'] eqn:Hrun.
  apply deleteStage_range in Hrun
    as [Hd [[-> Ht]|(done & stage & rest & e & Hstages & Hstage & Ht & ->)]]; simpl.
  - split; [done|]. eexists. split; [done|]. left.
    split_and!; [done..|]. apply stageMoves_deleteEvents.
  - split; [done|]. eexists. split; [done|]. right.
    exists done, stage, rest, e. split_and!; try done.
    + by apply String.eqb_neq.
    + rewrite stageMoves_app, stageMoves_deleteEvents.
      by rewrite (deleteEvents_other _ _ _ _ Hstage).
Qed.

End Deleting.

(** ** Tags without changes *)

Lemma Removed_model_same (tags : gmap string string) : ivschat.Removed_model tags tags = ∅.
Proof.
  apply map_empty_filter_2. intros k v Hk. simpl. by rewrite Hk.
Qed.

Lemma Updated_model_same (tags : gmap string string) : ivschat.Updated_model tags tags = ∅.
Proof.
  apply map_empty_filter_2. intros k v Hk. simpl. by rewrite Hk; intros [].
Qed.

(** C10: when the removed tags and the updated tags that [UpdateTags]
    computes are both empty, it makes no call at all and returns [nil]:
    the trace and the remote world are as they were.  This is so whatever
    implements the tag sets; with the tag sets of plain string maps, equal
    old and new maps are such a case. *)
Theorem UpdateTags_without_changes_makes_no_call :
  (∀ (W I T : Type) (conn : ivschat.Client W) (tftags : ivschat.KeyValueTagsAPI I T)
     (identifier : string) (oldTagsMap newTagsMap : I) (s : ivschat.state W),
     ivschat.len (ivschat.Removed (ivschat.New oldTagsMap) (ivschat.New newTagsMap)) = 0 →
     ivschat.len (ivschat.Updated (ivschat.New oldTagsMap) (ivschat.New newTagsMap)) = 0 →
     ivschat.UpdateTags identifier oldTagsMap newTagsMap s = (Next None, s)) ∧
  (∀ (W : Type) (conn : ivschat.Client W) (identifier : string)
     (tags : gmap string string) (s : ivschat.state W),
     ivschat.UpdateTags (tftags := ivschat.KeyValueTags_model) identifier tags tags s =
       (Next None, s)).
Proof.
  assert (∀ (W I T : Type) (conn : ivschat.Client W) (tftags : ivschat.KeyValueTagsAPI I T)
     (identifier : string) (oldTagsMap newTagsMap : I) (s : ivschat.state W),
     ivschat.len (ivschat.Removed (ivschat.New oldTagsMap) (ivschat.New newTagsMap)) = 0 →
     ivschat.len (ivschat.Updated (ivschat.New oldTagsMap) (ivschat.New newTagsMap)) = 0 →
     ivschat.UpdateTags identifier oldTagsMap newTagsMap s = (Next None, s)) as Hgeneral.
  { intros W I T conn tftags identifier oldTagsMap newTagsMap s Hremoved Hupdated.
    unfold ivschat.UpdateTags, call, ivschat.UpdateTags_body.
    rewrite run_bind. simpl. rewrite Hremoved. simpl.
    rewrite run_bind. simpl. by rewrite Hupdated. }
  split; [done|].
  intros W conn identifier tags s. apply Hgeneral; simpl.
  - by rewrite Removed_model_same.
  - by rewrite Updated_model_same.
Qed.

Section MoreRuns.
#[local] Existing Instance Scripted.conn.
#[local] Existing Instance Scripted.ext.
#[local] Existing Instance ScriptedTags.conn.

(** The same two tags before and after. *)
Lemma UpdateTags_without_changes_makes_no_call_witness :
  let tags : gmap string string := {[ "env" := "prod"; "team" := "chat" ]} in
  ivschat.UpdateTags (tftags := ivschat.KeyValueTags_model)
    "arn:aws:ivschat:::room/r1" tags tags (ScriptedTags.start tags) =
    (Next None, ScriptedTags.start tags).
Proof.
  intros tags.
  apply (proj1 UpdateTags_without_changes_makes_no_call
           (gmap string string) (gmap string string) (gmap string string)
           ScriptedTags.conn ivschat.KeyValueTags_model
           "arn:aws:ivschat:::room/r1" tags tags (ScriptedTags.start tags)).
  - vm_compute. reflexivity.
  - vm_compute. reflexivity.
Defined.

(** A version of a secret that is gone, read with a window of three
    attempts. *)
Lemma read_of_absent_resource_drops_it_witness :
  let rd := Scripted.resourceData "sec|v2" false {["BAR"]} {["BAR"]} in
  resourceAwsSecretsManagerSecretVersionRead 3 (Scripted.start Scripted.gone rd) =
    (Next None,
     {| world := Scripted.gone;
        d := {| Id := ""; IsNewResource := false;
                prior_version_stages := {["BAR"]}; version_stages := {["BAR"]};
                secret_id := ""; secret_string := None; secret_binary := "";
                version_id := None; arn := None |};
        trace := [CallGetSecretValue
                    {| GetSecretValueInput.SecretId := Some "sec";
                       GetSecretValueInput.VersionId := Some "v2" |}
                    None
                    (Some (awserr ErrCodeResourceNotFoundException
                                  "Secrets Manager can't find the specified secret."));
                  Log notFoundWarning [LogString "sec|v2"]] |}).
Proof.
  intros rd.
  apply (read_of_absent_resource_drops_it 3 (Scripted.start Scripted.gone rd)
           "sec" "v2" None
           (awserr ErrCodeResourceNotFoundException
                   "Secrets Manager can't find the specified secret.")
           Scripted.gone).
  - reflexivity.
  - reflexivity.
  - reflexivity.
  - left. reflexivity.
Defined.

(** C9, as the specification states it, fails: the version holds [A] and
    [B], neither of them the protected label, and the secret is gone.  The
    removal of [A] fails with "resource not found"; [Delete] returns [nil]
    at once, and no removal is issued for [B]: the removals issued are not
    one per held label. *)
Lemma delete_stops_at_first_absence_error :
  let rd := Scripted.resourceData "sec|v2" false {["A"; "B"]} {["A"; "B"]} in
  let run := resourceAwsSecretsManagerSecretVersionDelete (Scripted.start Scripted.gone rd) in
  List (version_stages rd) = ["A"; "B"] ∧
  run.1 = Next None ∧
  (stageMoves (trace run.2)).*1 = [removeCall "sec" "v2" "A"] ∧
  ¬ (stageMoves (trace run.2)).*1 ≡ₚ
      removeCall "sec" "v2" <$> filter (λ stage, stage ≠ "AWSCURRENT") (List (version_stages rd)).
Proof.
  split_and!; [vm_compute; reflexivity..|].
  intros Hperm. apply Permutation_length in Hperm. vm_compute in Hperm. discriminate.
Qed.

(** A version that holds the protected label and [BAR], on a store that
    answers every removal without error. *)
Lemma delete_removes_until_a_removal_fails_witness :
  let rd := Scripted.resourceData "sec|v2" false {["AWSCURRENT"; "BAR"]} {["AWSCURRENT"; "BAR"]} in
  let s := Scripted.start Scripted.noCurrent rd in
  let stages := List (version_stages (d s)) in
  let run := resourceAwsSecretsManagerSecretVersionDelete s in
  d run.2 = d s ∧
  ∃ tr, trace run.2 = (trace s ++ tr)%list ∧
    ((run.1 = Next None ∧
      tr = flat_map (λ stage, deleteEvents "sec" "v2" stage None) stages ∧
      stageMoves tr =
        (λ stage, (removeCall "sec" "v2" stage, None)) <$>
          filter (λ stage, stage ≠ "AWSCURRENT") stages) ∨
     (∃ done stage rest e,
        stages = (done ++ stage :: rest)%list ∧
        stage ≠ "AWSCURRENT" ∧
        tr = (flat_map (λ stage, deleteEvents "sec" "v2" stage None) done ++
              deleteEvents "sec" "v2" stage (Some e))%list ∧
        stageMoves tr =
          (((λ stage, (removeCall "sec" "v2" stage, None)) <$>
              filter (λ stage, stage ≠ "AWSCURRENT") done) ++
           [(removeCall "sec" "v2" stage, Some e)])%list ∧
        run.1 = Next (if isAbsence e then None
                      else Some (updateError "sec" stage e)))).
Proof.
  intros rd s.
  apply (delete_removes_until_a_removal_fails s "sec" "v2").
  - reflexivity.
  - vm_compute. lia.
Defined.

End MoreRuns.

(** ** The plan of an update *)

Section Plan.
Context {W : Type} {conn : SecretsManagerAPI W} {ext : Externals}.

Lemma labelMoves_app tr1 tr2 :
  labelMoves (tr1 ++ tr2) = (labelMoves tr1 ++ labelMoves tr2)%list.
Proof. unfold labelMoves. by rewrite stageMoves_app, fmap_app. Qed.

Lemma labelMoves_quiet tr : Forall noStageMove tr → labelMoves tr = [].
Proof.
  induction 1 as [|e tr He _ IH]; [done|]. by destruct e.
Qed.

Lemma refused_not_all_accepted (tr : list Event) :
  Forall (λ e, failedStageCall e = None) tr →
  Exists (λ e, failedStageCall e ≠ None) tr → False.
Proof.
  intros Hok Hno. apply Exists_exists in Hno as (e & He & Hrefused).
  by eapply Forall_forall in Hok.
Qed.

Lemma carriesOut_quiet {A} (m : M (state W) A) :
  emits noStageMove m → (∀ s r, (m s).1 ≠ Return r) → carriesOut [] m.
Proof.
  intros Hm Hret s. destruct (Hm s) as (tr & Htr & HP). exists tr. split; [done|].
  rewrite (labelMoves_quiet tr HP). specialize (Hret s).
  destruct ((m s).1) as [a|r| |]; [done|by destruct (Hret r)|done..].
Qed.

Lemma carriesOut_ret {A} (a : A) : carriesOut [] (mret a : M (state W) A).
Proof. apply carriesOut_quiet; [apply emits_ret|done]. Qed.

Lemma carriesOut_outOfFuel {A} : carriesOut [] (outOfFuel : M (state W) A).
Proof. apply carriesOut_quiet; [apply emits_outOfFuel|done]. Qed.

Lemma carriesOut_deref {A} (p : option A) : carriesOut [] (deref p : M (state W) A).
Proof. apply carriesOut_quiet; [apply emits_deref|by destruct p]. Qed.

Lemma carriesOut_log format args : carriesOut [] (log_Printf (W := W) format args).
Proof. apply carriesOut_quiet; [by apply emits_emit|done]. Qed.

Lemma carriesOut_bind_yields {A B} (Q : A → Prop) plan1 plan2
    (m : M (state W) A) (k : A → M (state W) B) :
  carriesOut plan1 m → yields Q m → (∀ a, Q a → carriesOut plan2 (k a)) →
  carriesOut (plan1 ++ plan2) (m ≫= k).
Proof.
  intros Hm HQ Hk s. rewrite run_bind. destruct (Hm s) as (tr1 & Htr1 & Hcase1).
  destruct (m s) as [[a|r|msg|] s1] eqn:Hrun; simpl in *.
  - destruct (Hk a (HQ _ _ _ Hrun) s1) as (tr2 & Htr2 & Hcase2).
    exists (tr1 ++ tr2)%list. split; [by rewrite Htr2, Htr1, app_assoc|].
    rewrite labelMoves_app, Hcase1.
    destruct ((k a s1).1) as [b|r|msg|].
    + by rewrite Hcase2.
    + destruct Hcase2 as [Hprefix Hrefused]. split; [by apply prefix_app|].
      apply Exists_app. by right.
    + by apply prefix_app.
    + by apply prefix_app.
  - exists tr1. split; [done|]. destruct Hcase1 as [Hprefix Hrefused].
    split; [by apply prefix_app_r|done].
  - exists tr1. split; [done|]. by apply prefix_app_r.
  - exists tr1. split; [done|]. by apply prefix_app_r.
Qed.

Lemma carriesOut_bind {A B} plan1 plan2 (m : M (state W) A) (k : A → M (state W) B) :
  carriesOut plan1 m → (∀ a, carriesOut plan2 (k a)) →
  carriesOut (plan1 ++ plan2) (m ≫= k).
Proof.
  intros Hm Hk. apply carriesOut_bind_yields with (Q := λ _, True); [done| |by auto].
  by intros ? ? ? ?.
Qed.

Lemma carriesOut_range {A V} (moves : A → list (option string * option string))
    (l : list A) (body : A → V → M (state W) V) (v : V) :
  (∀ x v, carriesOut (moves x) (body x v)) →
  carriesOut (l ≫= moves) (range l body v).
Proof.
  intros Hbody. revert v. induction l as [|x l IH]; intros v; simpl.
  - apply carriesOut_ret.
  - apply carriesOut_bind; [apply Hbody|]. intros v'. apply IH.
Qed.

(** A call of the reconciliation followed by the test of its error. *)
Lemma carriesOut_UpdateSecretVersionStage {B} plan input
    (k : option error → M (state W) B) :
  (∀ e, ∃ r, k (Some e) = return_ r) →
  carriesOut plan (k None) →
  carriesOut ((UpdateSecretVersionStageInput.VersionStage input,
               UpdateSecretVersionStageInput.MoveToVersionId input) :: plan)
             (conn_UpdateSecretVersionStage input ≫= k).
Proof.
  intros Herr Hok s. rewrite run_bind. unfold conn_UpdateSecretVersionStage.
  destruct (UpdateSecretVersionStage input (world s)) as [[e|] w]; simpl.
  - destruct (Herr e) as (r & ->). eexists [_]. simpl. split; [done|]. split.
    + apply prefix_cons, prefix_nil.
    + by apply Exists_cons_hd.
  - match goal with |- context [k None ?s1] =>
      destruct (Hok s1) as (tr & Htr & Hcase) end; simpl in *.
    eexists (_ :: tr). split; [by rewrite Htr, <- app_assoc|].
    change (labelMoves (CallUpdateSecretVersionStage input None :: tr))
      with ((UpdateSecretVersionStageInput.VersionStage input,
             UpdateSecretVersionStageInput.MoveToVersionId input) :: labelMoves tr).
    match goal with |- match ?o with _ => _ end => destruct o end.
    + by f_equal.
    + destruct Hcase as [Hprefix Hrefused]. split; [by apply prefix_cons|].
      by apply Exists_cons_tl.
    + by apply prefix_cons.
    + by apply prefix_cons.
Qed.

Lemma carriesOut_DescribeSecret {B} plan input
    (k : option DescribeSecretOutput.t * option error → M (state W) B) :
  (∀ output e, ∃ r, k (output, Some e) = return_ r) →
  (∀ output, carriesOut plan (k (output, None))) →
  carriesOut plan (conn_DescribeSecret input ≫= k).
Proof.
  intros Herr Hok s. rewrite run_bind. unfold conn_DescribeSecret.
  destruct (DescribeSecret input (world s)) as [[output [e|]] w]; simpl.
  - destruct (Herr output e) as (r & ->). eexists [_]. simpl. split; [done|]. split.
    + apply prefix_nil.
    + by apply Exists_cons_hd.
  - match goal with |- context [k _ ?s1] =>
      destruct (Hok output s1) as (tr & Htr & Hcase) end; simpl in *.
    eexists (_ :: tr). split; [by rewrite Htr, <- app_assoc|].
    change (labelMoves (CallDescribeSecret input output None :: tr))
      with (labelMoves tr).
    match goal with |- match ?o with _ => _ end => destruct o end; try done.
    destruct Hcase as [Hprefix Hrefused]. split; [done|]. by apply Exists_cons_tl.
Qed.

Lemma carriesOut_ListSecretVersionIds {B} plan input
    (k : option ListSecretVersionIdsOutput.t * option error → M (state W) B) :
  (∀ output e, ∃ r, k (output, Some e) = return_ r) →
  (∀ output, carriesOut plan (k (output, None))) →
  carriesOut plan (conn_ListSecretVersionIds input ≫= k).
Proof.
  intros Herr Hok s. rewrite run_bind. unfold conn_ListSecretVersionIds.
  destruct (ListSecretVersionIds input (world s)) as [[output [e|]] w]; simpl.
  - destruct (Herr output e) as (r & ->). eexists [_]. simpl. split; [done|]. split.
    + apply prefix_nil.
    + by apply Exists_cons_hd.
  - match goal with |- context [k _ ?s1] =>
      destruct (Hok output s1) as (tr & Htr & Hcase) end; simpl in *.
    eexists (_ :: tr). split; [by rewrite Htr, <- app_assoc|].
    change (labelMoves (CallListSecretVersionIds input output None :: tr))
      with (labelMoves tr).
    match goal with |- match ?o with _ => _ end => destruct o end; try done.
    destruct Hcase as [Hprefix Hrefused]. split; [done|]. by apply Exists_cons_tl.
Qed.

Lemma loopListVersionIDsPagination_carriesOut fuel secretID stage nextToken :
  carriesOut [] (loopListVersionIDsPagination (W := W) fuel secretID stage nextToken).
Proof.
  revert nextToken. induction fuel as [|fuel IH]; intros nextToken; simpl.
  - apply carriesOut_outOfFuel.
  - apply carriesOut_ListSecretVersionIds; [by eexists|].
    intros output. apply (carriesOut_bind [] []); [apply carriesOut_deref|].
    intros out. destruct (scanVersions _); [apply carriesOut_ret|].
    destruct (ListSecretVersionIdsOutput.NextToken out);
      [apply IH|apply carriesOut_ret].
Qed.

(** An iteration of the first loop assigns its label to the version. *)
Lemma addStage_carriesOut fuel secretID versionID stage vars :
  carriesOut [(Some stage, Some versionID)]
             (addStage (W := W) fuel secretID versionID stage vars).
Proof.
  unfold addStage. destruct vars as [describedSecret awsPreviousVersionID].
  apply (carriesOut_bind_yields
           (λ p, UpdateSecretVersionStageInput.VersionStage p.2 = Some stage ∧
                 UpdateSecretVersionStageInput.MoveToVersionId p.2 = Some versionID)
           [] [(Some stage, Some versionID)]).
  - destruct (String.eqb stage "AWSCURRENT"); [|apply carriesOut_ret].
    apply (carriesOut_bind [] []); [apply carriesOut_log|]. intros _.
    destruct describedSecret; [apply carriesOut_ret|].
    apply carriesOut_DescribeSecret; [by eexists|]. intros described.
    apply (carriesOut_bind [] []); [apply loopListVersionIDsPagination_carriesOut|].
    intros awsCurrentStageVersionID.
    apply (carriesOut_bind [] []); [apply carriesOut_deref|]. intros from.
    apply (carriesOut_bind [] []); [apply carriesOut_log|]. intros _.
    apply carriesOut_ret.
  - destruct (String.eqb stage "AWSCURRENT"); [|by apply yields_ret].
    apply yields_bind. intros _.
    destruct describedSecret; [by apply yields_ret|].
    apply yields_bind. intros [described [e|]]; [apply yields_return|].
    apply yields_bind. intros awsCurrentStageVersionID.
    apply yields_bind. intros from. apply yields_bind. intros _.
    by apply yields_ret.
  - intros [describedSecret' input] [Hlabel Hmove]. simpl in *.
    apply (carriesOut_bind [] [(Some stage, Some versionID)]); [apply carriesOut_log|].
    intros _. rewrite <- Hlabel, <- Hmove.
    apply carriesOut_UpdateSecretVersionStage; [by eexists|apply carriesOut_ret].
Qed.

(** An iteration of the second loop assigns its label to no version,
    unless the label is the protected one. *)
Lemma removeStage_carriesOut secretID versionID prev (stage : string) u :
  carriesOut (if String.eqb stage "AWSCURRENT" then []
              else [(Some stage, None : option string)])
             (removeStage (W := W) secretID versionID prev stage u).
Proof.
  unfold removeStage.
  destruct (String.eqb stage "AWSCURRENT"); [apply carriesOut_log|].
  apply (carriesOut_bind [] [(Some stage, None)]); [apply carriesOut_log|]. intros _.
  apply (carriesOut_UpdateSecretVersionStage []
           {| UpdateSecretVersionStageInput.MoveToVersionId := None;
              UpdateSecretVersionStageInput.RemoveFromVersionId := prev;
              UpdateSecretVersionStageInput.SecretId := Some secretID;
              UpdateSecretVersionStageInput.VersionStage := Some stage |});
    [by eexists|apply carriesOut_ret].
Qed.

Lemma additions_moves (versionID : string) (stages : list string) :
  stages ≫= (λ stage, [(Some stage, Some versionID)]) =
  (λ stage, (Some stage, Some versionID)) <$> stages.
Proof. induction stages as [|stage stages IH]; simpl; by f_equal. Qed.

Lemma removals_moves (stages : list string) :
  stages ≫= (λ stage, if String.eqb stage "AWSCURRENT" then []
                       else [(Some stage, None : option string)]) =
  (λ stage, (Some stage, None)) <$> filter (λ stage, stage ≠ "AWSCURRENT") stages.
Proof.
  induction stages as [|stage stages IH]; [done|]. rewrite bind_cons, IH.
  destruct (String.eqb_spec stage "AWSCURRENT") as [->|Hneq]; simpl.
  - by rewrite filter_cons_False by (by intros []).
  - by rewrite filter_cons_True by done.
Qed.

Lemma completesPlan_quiet {A} (m : M (state W) A) :
  emits noStageMove m → completesPlan [] m.
Proof.
  intros Hm s. destruct (Hm s) as (tr & Htr & HP). exists tr. split; [done|].
  by rewrite (labelMoves_quiet tr HP).
Qed.

Lemma completesPlan_after {A B} plan1 plan2 (m : M (state W) A) (k : A → M (state W) B) :
  carriesOut plan1 m → (∀ a, completesPlan plan2 (k a)) →
  completesPlan (plan1 ++ plan2) (m ≫= k).
Proof.
  intros Hm Hk s. rewrite run_bind. destruct (Hm s) as (tr1 & Htr1 & Hcase1).
  destruct (m s) as [[a|r|msg|] s1]; simpl in *.
  - destruct (Hk a s1) as (tr2 & Htr2 & Hprefix & Hall).
    exists (tr1 ++ tr2)%list. split; [by rewrite Htr2, Htr1, app_assoc|].
    rewrite labelMoves_app, Hcase1. split; [by apply prefix_app|].
    intros [_ Hok]%Forall_app Hreturn. by rewrite Hall.
  - destruct Hcase1 as [Hprefix Hrefused]. exists tr1. split; [done|].
    split; [by apply prefix_app_r|]. intros Hok _.
    destruct (refused_not_all_accepted tr1 Hok Hrefused).
  - exists tr1. split; [done|]. split; [by apply prefix_app_r|]. by intros _ [r [=]].
  - exists tr1. split; [done|]. split; [by apply prefix_app_r|]. by intros _ [r [=]].
Qed.

Lemma executePlan_completesPlan fuel attempts secretID versionID stagesToAdd stagesToRemove :
  completesPlan (plannedMoves versionID stagesToAdd stagesToRemove)
                (executePlan (W := W) fuel attempts secretID versionID
                   stagesToAdd stagesToRemove).
Proof.
  unfold plannedMoves, executePlan.
  rewrite <- additions_moves, <- removals_moves.
  apply completesPlan_after; [apply carriesOut_range; intros; apply addStage_carriesOut|].
  intros [described awsPreviousVersionID].
  rewrite <- (app_nil_r (_ ≫= _)).
  apply completesPlan_after; [apply carriesOut_range; intros; apply removeStage_carriesOut|].
  intros _. apply completesPlan_quiet.
  unfold resourceAwsSecretsManagerSecretVersionRead,
    resourceAwsSecretsManagerSecretVersionRead_body, readAttempt.
  repeat emits_step; done.
Qed.

(** C5: the plan of an update is the pair of differences of lines 191 and
    192: with [observed] the prior stages of the resource data and [desired]
    the stages it asks for, an update is the reconciliation of lines 194 to
    285 run on the labels of [desired − observed], to add, and of
    [observed − desired], to remove.  These two sets are disjoint, applying
    them to [observed] gives [desired], and an empty input gives an empty
    output.  In the calls the update makes this shows as follows: the stage
    moves issued are, in order, the first of those the plan asks for (each
    label to add assigned to the version, then each label to remove other
    than the protected one assigned to no version), and they are all of
    them when the update returns with no [DescribeSecret],
    [ListSecretVersionIds] or [UpdateSecretVersionStage] call refused. *)
Theorem update_plans_the_stage_diff fuel attempts (s : state W) secretID versionID :
  decodeSecretsManagerSecretVersionID (Id (d s)) = (secretID, versionID, None) →
  let observed := prior_version_stages (d s) in
  let desired := version_stages (d s) in
  let toAdd := Difference desired observed in
  let toRemove := Difference observed desired in
  resourceAwsSecretsManagerSecretVersionUpdate fuel attempts s =
    call (executePlan fuel attempts secretID versionID (List toAdd) (List toRemove)) s ∧
  (∀ stage, stage ∈ toAdd ↔ stage ∈ desired ∧ stage ∉ observed) ∧
  (∀ stage, stage ∈ toRemove ↔ stage ∈ observed ∧ stage ∉ desired) ∧
  toAdd ∩ toRemove = ∅ ∧
  (observed ∖ toRemove) ∪ toAdd = desired ∧
  (desired = ∅ → toAdd = ∅) ∧
  (observed = ∅ → toRemove = ∅) ∧
  ∃ tr,
    trace (resourceAwsSecretsManagerSecretVersionUpdate fuel attempts s).2 =
      (trace s ++ tr)%list ∧
    labelMoves tr `prefix_of` plannedMoves versionID (List toAdd) (List toRemove) ∧
    (Forall (λ e, failedStageCall e = None) tr →
     (∃ r, (resourceAwsSecretsManagerSecretVersionUpdate fuel attempts s).1 = Next r) →
     labelMoves tr = plannedMoves versionID (List toAdd) (List toRemove)).
Proof.
  intros Hdecode observed desired toAdd toRemove.
  assert (resourceAwsSecretsManagerSecretVersionUpdate fuel attempts s =
          call (executePlan fuel attempts secretID versionID (List toAdd) (List toRemove)) s)
    as Hplan.
  { unfold resourceAwsSecretsManagerSecretVersionUpdate, call,
      resourceAwsSecretsManagerSecretVersionUpdate_body.
    rewrite run_bind. simpl. by rewrite Hdecode. }
  destruct (stage_diff_exact observed desired) as (Hadd & Hremove & Hdisjoint & Hexact & _).
  split_and!; try done.
  - intros Hdesired. apply set_eq. intros stage.
    unfold toAdd, Difference. rewrite Hdesired, elem_of_difference, elem_of_empty. tauto.
  - intros Hobserved. apply set_eq. intros stage.
    unfold toRemove, Difference. rewrite Hobserved, elem_of_difference, elem_of_empty. tauto.
  - rewrite Hplan.
    destruct (executePlan_completesPlan fuel attempts secretID versionID
                (List toAdd) (List toRemove) s) as (tr & Htr & Hprefix & Hall).
    exists tr. unfold call.
    destruct (executePlan fuel attempts secretID versionID (List toAdd) (List toRemove) s)
      as [[[]|r|msg|] s1]; simpl in *; split_and!; try done.
    + intros Hok _. apply Hall; [done|by exists r].
    + by intros _ [r [=]].
    + by intros _ [r [=]].
Qed.

End Plan.

Section PlanRuns.
#[local] Existing Instance Scripted.conn.
#[local] Existing Instance Scripted.ext.

(** [BAR] is replaced by the protected label, which [v1] holds. *)
Lemma update_plans_the_stage_diff_witness :
  let s := Scripted.start Scripted.twoPages
             (Scripted.resourceData "sec|v2" false {["BAR"]} {["AWSCURRENT"]}) in
  let observed : gset string := {["BAR"]} in
  let desired : gset string := {["AWSCURRENT"]} in
  let toAdd := Difference desired observed in
  let toRemove := Difference observed desired in
  resourceAwsSecretsManagerSecretVersionUpdate 2 1 s =
    call (executePlan 2 1 "sec" "v2" (List toAdd) (List toRemove)) s ∧
  (∀ stage, stage ∈ toAdd ↔ stage ∈ desired ∧ stage ∉ observed) ∧
  (∀ stage, stage ∈ toRemove ↔ stage ∈ observed ∧ stage ∉ desired) ∧
  toAdd ∩ toRemove = ∅ ∧
  (observed ∖ toRemove) ∪ toAdd = desired ∧
  (desired = ∅ → toAdd = ∅) ∧
  (observed = ∅ → toRemove = ∅) ∧
  ∃ tr,
    trace (resourceAwsSecretsManagerSecretVersionUpdate 2 1 s).2 = (trace s ++ tr)%list ∧
    labelMoves tr `prefix_of` plannedMoves "v2" (List toAdd) (List toRemove) ∧
    (Forall (λ e, failedStageCall e = None) tr →
     (∃ r, (resourceAwsSecretsManagerSecretVersionUpdate 2 1 s).1 = Next r) →
     labelMoves tr = plannedMoves "v2" (List toAdd) (List toRemove)).
Proof.
  intros s observed desired toAdd toRemove.
  exact (update_plans_the_stage_diff 2 1 s "sec" "v2" eq_refl).
Defined.

End PlanRuns.

(** * Further properties of the resource functions *)

(** ** Identifiers, the other way round *)

Lemma Split_one s sep piece :
  Split s sep = [piece] → s = piece ∧ Count piece sep = 0.
Proof.
  revert piece. induction s as [|c s IH]; intros piece; simpl.
  - by intros [= <-].
  - destruct (Ascii.eqb c sep) eqn:Hc.
    + intros [= _ Hrest]. pose proof (Split_length s sep) as Hlen.
      by rewrite Hrest in Hlen.
    + destruct (Split s sep) as [|p ps] eqn:Hsplit; [|intros [= <- ->]].
      * pose proof (Split_length s sep) as Hlen. by rewrite Hsplit in Hlen.
      * destruct (IH p eq_refl) as [-> Hp]. simpl. by rewrite Hc.
Qed.

Lemma Split_two s sep part0 part1 :
  Split s sep = [part0; part1] →
  s = part0 +:+ String sep part1 ∧ Count part0 sep = 0 ∧ Count part1 sep = 0.
Proof.
  revert part0. induction s as [|c s IH]; intros part0; simpl; [done|].
  destruct (Ascii.eqb_spec c sep) as [->|Hc].
  - intros [= <- Hrest]. by destruct (Split_one _ _ _ Hrest) as [-> ?].
  - destruct (Split s sep) as [|p ps] eqn:Hsplit; [done|]. intros [= <- ->].
    destruct (IH p eq_refl) as (-> & Hp & Hpart1). simpl.
    apply Ascii.eqb_neq in Hc. by rewrite Hc.
Qed.

(** X1: An identifier that decodes is the one [Create] makes from the two parts
    it decodes to, and neither part holds the delimiter. *)
Theorem decode_ok_is_createdID id secretID versionID :
  decodeSecretsManagerSecretVersionID id = (secretID, versionID, None) →
  createdID secretID (Some versionID) = id ∧
  Count secretID "|" = 0 ∧ Count versionID "|" = 0.
Proof.
  unfold decodeSecretsManagerSecretVersionID.
  destruct (Split id "|") as [|part0 [|part1 [|]]] eqn:Hsplit; simpl; try done.
  intros [= <- <-]. by destruct (Split_two _ _ _ _ Hsplit) as (-> & ? & ?).
Qed.

Lemma decode_ok_is_createdID_witness :
  createdID "sec" (Some "v2") = "sec|v2" ∧ Count "sec" "|" = 0 ∧ Count "v2" "|" = 0.
Proof. apply (decode_ok_is_createdID "sec|v2" "sec" "v2"). reflexivity. Defined.

(** ** Malformed identifiers *)

Section FailFast.
Context {W : Type} {conn : SecretsManagerAPI W} {ext : Externals}.

(** X2: With an identifier that does not hold exactly one delimiter, reading,
    updating and deleting all return the format error at once: no call is
    made, nothing is logged, and the resource data are as before. *)
Theorem malformed_id_fails_before_any_call fuel attempts (s : state W) :
  Count (Id (d s)) "|" ≠ 1 →
  let err := Errorf "expected ID in format SecretID|VersionID, received: %s" [Id (d s)] None in
  resourceAwsSecretsManagerSecretVersionRead attempts s = (Next (Some err), s) ∧
  resourceAwsSecretsManagerSecretVersionUpdate fuel attempts s = (Next (Some err), s) ∧
  resourceAwsSecretsManagerSecretVersionDelete s = (Next (Some err), s).
Proof.
  intros Hcount err.
  assert (decodeSecretsManagerSecretVersionID (Id (d s)) = ("", "", Some err)) as Hdecode.
  { apply decode_not_two_parts. rewrite Split_length. lia. }
  unfold resourceAwsSecretsManagerSecretVersionRead,
    resourceAwsSecretsManagerSecretVersionUpdate,
    resourceAwsSecretsManagerSecretVersionDelete, call,
    resourceAwsSecretsManagerSecretVersionRead_body,
    resourceAwsSecretsManagerSecretVersionUpdate_body,
    resourceAwsSecretsManagerSecretVersionDelete_body.
  rewrite !run_bind. simpl. by rewrite Hdecode.
Qed.

End FailFast.

(** ** The answers a read can get *)

Section ReadAnswers.
Context {W : Type} {conn : SecretsManagerAPI W} {ext : Externals}.

Lemma retryableForNew_As_awserr e : retryableForNew e = true → As_awserr e ≠ None.
Proof.
  unfold retryableForNew. intros [H|H]%orb_true_iff.
  - by eapply ErrCodeEquals_As_awserr.
  - by eapply ErrMessageContains_As_awserr.
Qed.

(** An attempt whose answer is no error, or an error that is not worth
    another attempt for this resource, settles the result. *)
Lemma readAttempt_settles input (s : state W) output err w' :
  GetSecretValue input (world s) = (output, err, w') →
  IsNewResource (d s) = false ∨ err = None ∨ (∃ e, err = Some e ∧ retryableForNew e = false) →
  readAttempt input s =
    (Next (output, NonRetryableError err),
     {| world := w'; d := d s;
        trace := trace s ++ [CallGetSecretValue input output err] |}).
Proof.
  intros Hget Hsettled. unfold readAttempt, conn_GetSecretValue.
  repeat (rewrite run_bind; simpl). rewrite Hget. simpl. rewrite run_bind. simpl.
  destruct Hsettled as [-> | [-> | (e & -> & Hretry)]].
  - simpl. by destruct err.
  - by rewrite !andb_false_r.
  - apply orb_false_iff in Hretry as [-> ->]. by rewrite !andb_false_r.
Qed.

Lemma readAttempt_retries input (s : state W) output e w' :
  GetSecretValue input (world s) = (output, Some e, w') →
  IsNewResource (d s) = true →
  retryableForNew e = true →
  readAttempt input s =
    (Next (output, Some {| Err := e; Retryable := true |}),
     {| world := w'; d := d s;
        trace := trace s ++ [CallGetSecretValue input output (Some e)] |}).
Proof.
  intros Hget Hnew Hretry. unfold readAttempt, conn_GetSecretValue.
  repeat (rewrite run_bind; simpl). rewrite Hget. simpl. rewrite run_bind. simpl.
  rewrite Hnew. simpl. apply orb_true_iff in Hretry.
  destruct (ErrCodeEquals _ _); [done|]. by destruct Hretry as [? | ->].
Qed.

Lemma Retry_unfold {S V} n (f : M S (V * option RetryError)) (captured : V) :
  Retry (Datatypes.S (Datatypes.S n)) f captured =
    ('(v, rerr) ← f;
     match rerr with
     | None => mret (v, None)
     | Some re => if Retryable re then Retry (Datatypes.S n) f v
                  else mret (v, Some (Err re))
     end).
Proof. reflexivity. Qed.

Lemma Retry_captured {S V} n (f : M S (V * option RetryError)) (v v' : V) :
  Retry (Datatypes.S n) f v = Retry (Datatypes.S n) f v'.
Proof. by destruct n. Qed.

Lemma Retry_settles attempts input (s : state W) output err w' captured :
  GetSecretValue input (world s) = (output, err, w') →
  IsNewResource (d s) = false ∨ err = None ∨ (∃ e, err = Some e ∧ retryableForNew e = false) →
  attempts ≠ 0 →
  Retry attempts (readAttempt input) captured s =
    (Next (output, err),
     {| world := w'; d := d s;
        trace := trace s ++ [CallGetSecretValue input output err] |}).
Proof.
  intros Hget Hsettled Hattempts.
  pose proof (readAttempt_settles _ _ _ _ _ Hget Hsettled) as Hrun.
  destruct attempts as [|[|n]]; [done| |].
  - simpl. rewrite run_bind, Hrun. by destruct err.
  - rewrite Retry_unfold, run_bind, Hrun. by destruct err.
Qed.

Lemma Retry_last input (s : state W) output e w' captured :
  GetSecretValue input (world s) = (output, Some e, w') →
  IsNewResource (d s) = true →
  retryableForNew e = true →
  Retry 1 (readAttempt input) captured s =
    (Next (output, Some e),
     {| world := w'; d := d s;
        trace := trace s ++ [CallGetSecretValue input output (Some e)] |}).
Proof.
  intros Hget Hnew Hretry. simpl.
  by rewrite run_bind, (readAttempt_retries _ _ output e w').
Qed.

(** The answers that are worth another attempt are passed over, one attempt
    each, as long as the window admits one more. *)
Lemma Retry_retried n input w evs w1 rd tr captured :
  IsNewResource rd = true →
  retriedReads input w evs w1 →
  Retry (List.length evs + Datatypes.S n) (readAttempt input) captured
    {| world := w; d := rd; trace := tr |} =
  Retry (Datatypes.S n) (readAttempt input) captured
    {| world := w1; d := rd; trace := tr ++ evs |}.
Proof.
  intros Hnew Hreads. revert tr captured.
  induction Hreads as [w|w output e w1 evs w2 Hget Hretry _ IH]; intros tr captured.
  - by rewrite app_nil_r.
  - change (List.length (_ :: evs) + Datatypes.S n)
      with (Datatypes.S (List.length evs + Datatypes.S n)).
    replace (List.length evs + Datatypes.S n) with (Datatypes.S (List.length evs + n)) by lia.
    rewrite Retry_unfold, run_bind.
    rewrite (readAttempt_retries _ _ output e w1); [|done..].
    cbv beta iota delta [Retryable].
    replace (Datatypes.S (List.length evs + n)) with (List.length evs + Datatypes.S n) by lia.
    rewrite IH, <- app_assoc.
    by rewrite (Retry_captured _ _ output captured).
Qed.

(** The part of [Read] up to the point where the answer is examined: with an
    answer that settles the result, it is one read, for every window. *)
Lemma Read_one_call {A} attempts input (s : state W) output err w'
    (k : option GetSecretValueOutput.t * option error → M (state W) A) :
  GetSecretValue input (world s) = (output, err, w') →
  IsNewResource (d s) = false ∨ err = None ∨ (∃ e, err = Some e ∧ retryableForNew e = false) →
  TimedOut err = false →
  (Retry attempts (readAttempt input) None ≫= (λ '(output, err),
     (if TimedOut err then conn_GetSecretValue input else mret (output, err)) ≫= k)) s =
  k (output, err)
    {| world := w'; d := d s;
       trace := trace s ++ [CallGetSecretValue input output err] |}.
Proof.
  intros Hget Hsettled Htimed. rewrite run_bind.
  destruct (decide (attempts = 0)) as [->|Hattempts].
  - simpl. rewrite run_bind. unfold conn_GetSecretValue. by rewrite Hget.
  - rewrite (Retry_settles _ _ _ _ _ _ _ Hget Hsettled Hattempts).
    by rewrite run_bind, Htimed.
Qed.

(** X3: When the store answers the read with the version, [Read] returns
    [nil] after one read, for every window and for a new resource as for an
    old one.  In the resource data it leaves, [secret_id] is the secret of
    the identifier, [secret_string], [version_id] and [arn] are those of the
    answer, [secret_binary] is its binary value encoded, [version_stages]
    are its stages, and the identifier, the flag and the prior stages are as
    before. *)
Theorem read_stores_the_answer attempts (s : state W) secretID versionID output w' :
  decodeSecretsManagerSecretVersionID (Id (d s)) = (secretID, versionID, None) →
  GetSecretValue (readInput secretID versionID) (world s) = (Some output, None, w') →
  resourceAwsSecretsManagerSecretVersionRead attempts s =
    (Next None,
     {| world := w';
        d := {| Id := Id (d s); IsNewResource := IsNewResource (d s);
                prior_version_stages := prior_version_stages (d s);
                version_stages :=
                  list_to_set (flattenStringList (GetSecretValueOutput.VersionStages output));
                secret_id := secretID;
                secret_string := GetSecretValueOutput.SecretString output;
                secret_binary := base64Encode (GetSecretValueOutput.SecretBinary output);
                version_id := GetSecretValueOutput.VersionId output;
                arn := GetSecretValueOutput.ARN output |};
        trace := trace s ++
          [CallGetSecretValue (readInput secretID versionID) (Some output) None] |}).
Proof.
  intros Hdecode Hget.
  unfold resourceAwsSecretsManagerSecretVersionRead, call,
    resourceAwsSecretsManagerSecretVersionRead_body.
  rewrite run_bind. simpl. rewrite Hdecode.
  fold (readInput secretID versionID).
  rewrite (Read_one_call _ _ _ _ _ _ _ Hget); [|by auto..].
  simpl. by rewrite !andb_false_r.
Qed.

(** X4: An answer without error and without output is an error of its own; the
    resource data are left as they were. *)
Theorem read_rejects_empty_response attempts (s : state W) secretID versionID w' :
  decodeSecretsManagerSecretVersionID (Id (d s)) = (secretID, versionID, None) →
  GetSecretValue (readInput secretID versionID) (world s) = (None, None, w') →
  resourceAwsSecretsManagerSecretVersionRead attempts s =
    (Next (Some (Errorf "error reading Secrets Manager Secret Version (%s): empty response"
                        [Id (d s)] None)),
     {| world := w'; d := d s;
        trace := trace s ++
          [CallGetSecretValue (readInput secretID versionID) None None] |}).
Proof.
  intros Hdecode Hget.
  unfold resourceAwsSecretsManagerSecretVersionRead, call,
    resourceAwsSecretsManagerSecretVersionRead_body.
  rewrite run_bind. simpl. rewrite Hdecode.
  fold (readInput secretID versionID).
  rewrite (Read_one_call _ _ _ _ _ _ _ Hget); [|by auto..].
  simpl. by rewrite !andb_false_r.
Qed.

(** X5: An error that is neither "not found" nor "secret was deleted" (nor a
    bare timeout) ends [Read] after the one read, for a new resource as for
    an old one: the resource data are kept, and the error comes back wrapped
    in such a way that its code and message can still be matched. *)
Theorem read_surfaces_other_errors attempts (s : state W) secretID versionID output e w' :
  decodeSecretsManagerSecretVersionID (Id (d s)) = (secretID, versionID, None) →
  GetSecretValue (readInput secretID versionID) (world s) = (output, Some e, w') →
  retryableForNew e = false →
  TimedOut (Some e) = false →
  let err := Errorf "error reading Secrets Manager Secret Version (%s): %w"
                    [Id (d s)] (Some e) in
  resourceAwsSecretsManagerSecretVersionRead attempts s =
    (Next (Some err),
     {| world := w'; d := d s;
        trace := trace s ++
          [CallGetSecretValue (readInput secretID versionID) output (Some e)] |}) ∧
  (∀ code, ErrCodeEquals (Some err) code = ErrCodeEquals (Some e) code) ∧
  (∀ code message,
     ErrMessageContains (Some err) code message = ErrMessageContains (Some e) code message).
Proof.
  intros Hdecode Hget Hretry Htimed err. split; [|done].
  unfold resourceAwsSecretsManagerSecretVersionRead, call,
    resourceAwsSecretsManagerSecretVersionRead_body.
  rewrite run_bind. simpl. rewrite Hdecode.
  fold (readInput secretID versionID).
  rewrite (Read_one_call _ _ _ _ _ _ _ Hget); [|by eauto..].
  simpl. apply orb_false_iff in Hretry as [-> ->]. by rewrite !andb_false_r.
Qed.

(** X6: A new resource is read again as long as the store answers "not found"
    or "secret was deleted" and the window admits another attempt: when the
    version then is there, [Read] returns [nil], having made one read for
    each of these answers and one more, and the resource data hold the
    fields of that last answer: string, encoded binary, version, ARN and
    stages, with the secret of the identifier. *)
Theorem read_of_new_resource_waits_for_the_version n (s : state W)
    secretID versionID evs w1 output w2 :
  decodeSecretsManagerSecretVersionID (Id (d s)) = (secretID, versionID, None) →
  IsNewResource (d s) = true →
  retriedReads (readInput secretID versionID) (world s) evs w1 →
  GetSecretValue (readInput secretID versionID) w1 = (Some output, None, w2) →
  resourceAwsSecretsManagerSecretVersionRead (List.length evs + Datatypes.S n) s =
    (Next None,
     {| world := w2;
        d := {| Id := Id (d s); IsNewResource := IsNewResource (d s);
                prior_version_stages := prior_version_stages (d s);
                version_stages :=
                  list_to_set (flattenStringList (GetSecretValueOutput.VersionStages output));
                secret_id := secretID;
                secret_string := GetSecretValueOutput.SecretString output;
                secret_binary := base64Encode (GetSecretValueOutput.SecretBinary output);
                version_id := GetSecretValueOutput.VersionId output;
                arn := GetSecretValueOutput.ARN output |};
        trace := trace s ++ evs ++
          [CallGetSecretValue (readInput secretID versionID) (Some output) None] |}).
Proof.
  intros Hdecode Hnew Hreads Hget. destruct s as [w rd tr]. simpl in *.
  unfold resourceAwsSecretsManagerSecretVersionRead, call,
    resourceAwsSecretsManagerSecretVersionRead_body.
  rewrite run_bind. simpl. rewrite Hdecode.
  fold (readInput secretID versionID).
  rewrite run_bind, (Retry_retried _ _ _ _ _ _ _ _ Hnew Hreads).
  rewrite (Retry_settles _ _ _ (Some output) None w2); [|by auto..].
  rewrite run_bind. simpl. rewrite Hnew. simpl.
  unfold setAttributes; simpl. rewrite ?Hnew, <- app_assoc. reflexivity.
Qed.

(** X7: When the window closes on such an answer, [Read] of a new resource
    returns it as an error, wrapped; the identifier is not cleared and the
    resource data are as before.  The reads made are as many as the window
    admits. *)
Theorem read_of_new_resource_gives_up (s : state W)
    secretID versionID evs w1 output e w2 :
  decodeSecretsManagerSecretVersionID (Id (d s)) = (secretID, versionID, None) →
  IsNewResource (d s) = true →
  retriedReads (readInput secretID versionID) (world s) evs w1 →
  GetSecretValue (readInput secretID versionID) w1 = (output, Some e, w2) →
  retryableForNew e = true →
  resourceAwsSecretsManagerSecretVersionRead (List.length evs + 1) s =
    (Next (Some (Errorf "error reading Secrets Manager Secret Version (%s): %w"
                        [Id (d s)] (Some e))),
     {| world := w2; d := d s;
        trace := trace s ++ evs ++
          [CallGetSecretValue (readInput secretID versionID) output (Some e)] |}).
Proof.
  intros Hdecode Hnew Hreads Hget Hretry. destruct s as [w rd tr]. simpl in *.
  assert (TimedOut (Some e) = false) as Htimed
    by by apply As_awserr_not_TimedOut, retryableForNew_As_awserr.
  unfold resourceAwsSecretsManagerSecretVersionRead, call,
    resourceAwsSecretsManagerSecretVersionRead_body.
  rewrite run_bind. simpl. rewrite Hdecode.
  fold (readInput secretID versionID).
  rewrite run_bind, (Retry_retried _ _ _ _ _ _ _ _ Hnew Hreads).
  rewrite (Retry_last _ _ output e w2); [|done..].
  cbv beta iota. rewrite Htimed, run_bind. simpl. rewrite Hnew. simpl.
  by rewrite <- app_assoc.
Qed.

End ReadAnswers.

(** ** Nothing to do *)

Section NothingToDo.
Context {W : Type} {conn : SecretsManagerAPI W} {ext : Externals}.

Lemma call_not_Return {S} (body : M S Empty_set) (s : S) r s' :
  call body s ≠ (Return r, s').
Proof. unfold call. by destruct (body s) as [[[]| | |] ?]. Qed.

(** X9: Deleting a version that holds no label makes no call and logs nothing;
    it returns [nil] and leaves everything as it was. *)
Theorem delete_without_stages_does_nothing (s : state W) secretID versionID :
  decodeSecretsManagerSecretVersionID (Id (d s)) = (secretID, versionID, None) →
  Len (version_stages (d s)) = 0 →
  resourceAwsSecretsManagerSecretVersionDelete s = (Next None, s).
Proof.
  intros Hdecode Hlen.
  unfold resourceAwsSecretsManagerSecretVersionDelete, call,
    resourceAwsSecretsManagerSecretVersionDelete_body.
  rewrite run_bind. simpl. rewrite Hdecode. unfold GetOk_version_stages.
  by rewrite Hlen.
Qed.

(** X10: When the two differences of the stage sets list as empty, an update is
    a read: no label is moved, the locator is not asked, and result, trace
    and resource data are those of [Read]. *)
Theorem update_without_plan_is_a_read fuel attempts (s : state W) secretID versionID :
  decodeSecretsManagerSecretVersionID (Id (d s)) = (secretID, versionID, None) →
  List (Difference (version_stages (d s)) (prior_version_stages (d s))) = [] →
  List (Difference (prior_version_stages (d s)) (version_stages (d s))) = [] →
  resourceAwsSecretsManagerSecretVersionUpdate fuel attempts s =
    resourceAwsSecretsManagerSecretVersionRead attempts s.
Proof.
  intros Hdecode Hadd Hremove.
  unfold resourceAwsSecretsManagerSecretVersionUpdate, call at 1,
    resourceAwsSecretsManagerSecretVersionUpdate_body.
  rewrite run_bind. simpl. rewrite Hdecode. unfold GetChange_version_stages.
  rewrite Hadd, Hremove. simpl. rewrite !run_bind. simpl.
  rewrite run_bind. unfold mret, M_MRet, M_ret at 1. cbv beta iota. rewrite run_bind.
  pose proof (call_not_Return
    (resourceAwsSecretsManagerSecretVersionRead_body attempts) s) as Hcall.
  fold (resourceAwsSecretsManagerSecretVersionRead (W := W) attempts) in Hcall.
  destruct (resourceAwsSecretsManagerSecretVersionRead attempts s) as [[r|r| |] s'];
    [done| |done..].
  by destruct (Hcall r s').
Qed.

End NothingToDo.

(** ** What happens to the resource data *)

Section KeepsData.
Context {W : Type} {conn : SecretsManagerAPI W} {ext : Externals}.
Variable R : ResourceData → ResourceData → Prop.
Hypothesis R_refl : ∀ x, R x x.
Hypothesis R_trans : ∀ x y z, R x y → R y z → R x z.

Lemma keepsData_same {A} (m : M (state W) A) :
  (∀ s, d (m s).2 = d s) → keepsData R m.
Proof. intros Hm s. by rewrite Hm. Qed.

Lemma keepsData_ret {A} (a : A) : keepsData R (mret a : M (state W) A).
Proof. by apply keepsData_same. Qed.

Lemma keepsData_return {A} r : keepsData R (return_ r : M (state W) A).
Proof. by apply keepsData_same. Qed.

Lemma keepsData_outOfFuel {A} : keepsData R (outOfFuel : M (state W) A).
Proof. by apply keepsData_same. Qed.

Lemma keepsData_deref {A} (p : option A) : keepsData R (deref p : M (state W) A).
Proof. apply keepsData_same. by destruct p. Qed.

Lemma keepsData_get_d : keepsData R (get_d (W := W)).
Proof. by apply keepsData_same. Qed.

Lemma keepsData_emit e : keepsData R (emit (W := W) e).
Proof. by apply keepsData_same. Qed.

Lemma keepsData_set_d f : (∀ x, R x (f x)) → keepsData R (set_d (W := W) f).
Proof. intros Hf s. apply Hf. Qed.

Lemma keepsData_GetSecretValue input : keepsData R (conn_GetSecretValue input).
Proof.
  apply keepsData_same. intros s. unfold conn_GetSecretValue.
  by destruct (GetSecretValue input (world s)) as [[? ?] ?].
Qed.

Lemma keepsData_DescribeSecret input : keepsData R (conn_DescribeSecret input).
Proof.
  apply keepsData_same. intros s. unfold conn_DescribeSecret.
  by destruct (DescribeSecret input (world s)) as [[? ?] ?].
Qed.

Lemma keepsData_ListSecretVersionIds input : keepsData R (conn_ListSecretVersionIds input).
Proof.
  apply keepsData_same. intros s. unfold conn_ListSecretVersionIds.
  by destruct (ListSecretVersionIds input (world s)) as [[? ?] ?].
Qed.

Lemma keepsData_UpdateSecretVersionStage input :
  keepsData R (conn_UpdateSecretVersionStage input).
Proof.
  apply keepsData_same. intros s. unfold conn_UpdateSecretVersionStage.
  by destruct (UpdateSecretVersionStage input (world s)) as [? ?].
Qed.

Lemma keepsData_bind {A B} (m : M (state W) A) (k : A → M (state W) B) :
  keepsData R m → (∀ a, keepsData R (k a)) → keepsData R (m ≫= k).
Proof.
  intros Hm Hk s. rewrite run_bind. specialize (Hm s).
  destruct (m s) as [[a| | |] s1]; simpl in *; try done.
  eapply R_trans; [done|]. apply Hk.
Qed.

Lemma keepsData_call (body : M (state W) Empty_set) :
  keepsData R body → keepsData R (call body).
Proof.
  intros Hm s. specialize (Hm s). unfold call.
  by destruct (body s) as [[[]| | |] s1].
Qed.

Lemma keepsData_range {A V} (l : list A) (body : A → V → M (state W) V) (v : V) :
  (∀ x v, keepsData R (body x v)) → keepsData R (range l body v).
Proof.
  intros Hbody. revert v. induction l as [|x l IH]; intros v; simpl.
  - apply keepsData_ret.
  - apply keepsData_bind; [apply Hbody|]. intros v'. apply IH.
Qed.

Lemma keepsData_Retry {V} attempts (f : M (state W) (V * option RetryError)) (v : V) :
  keepsData R f → keepsData R (Retry attempts f v).
Proof.
  intros Hf. revert v. induction attempts as [|n IH]; intros v.
  - apply keepsData_ret.
  - destruct n as [|n].
    + simpl. apply keepsData_bind; [done|]. intros [v' rerr]. apply keepsData_ret.
    + rewrite Retry_unfold.
      apply keepsData_bind; [done|]. intros [v' [re|]]; [|apply keepsData_ret].
      destruct (Retryable re); [apply IH|apply keepsData_ret].
Qed.

End KeepsData.

(** One step of a proof that a computation keeps the resource data in a
    relation. *)
Ltac keeps_step :=
  lazymatch goal with
  | |- keepsData _ (mbind _ _) => apply keepsData_bind; [done| |intros ?]
  | |- keepsData _ (mret _) => apply keepsData_ret; done
  | |- keepsData _ (return_ _) => apply keepsData_return; done
  | |- keepsData _ (deref _) => apply keepsData_deref; done
  | |- keepsData _ get_d => apply keepsData_get_d; done
  | |- keepsData _ (log_Printf _ _) => apply keepsData_emit; done
  | |- keepsData _ (call _) => apply keepsData_call
  | |- keepsData _ (Retry _ _ _) => apply keepsData_Retry; [done..|]
  | |- keepsData _ (range _ _ _) => apply keepsData_range; [done..|intros ? ?]
  | |- keepsData _ (conn_GetSecretValue _) => apply keepsData_GetSecretValue; done
  | |- keepsData _ (conn_DescribeSecret _) => apply keepsData_DescribeSecret; done
  | |- keepsData _ (conn_ListSecretVersionIds _) => apply keepsData_ListSecretVersionIds; done
  | |- keepsData _ (conn_UpdateSecretVersionStage _) =>
      apply keepsData_UpdateSecretVersionStage; done
  | |- keepsData _ (match ?x with _ => _ end) => destruct x eqn:?
  end.

Section ResourceDataKept.
Context {W : Type} {conn : SecretsManagerAPI W} {ext : Externals}.

Lemma sameResource_refl x : sameResource x x.
Proof. unfold sameResource. auto. Qed.

Lemma sameResource_trans x y z : sameResource x y → sameResource y z → sameResource x z.
Proof.
  unfold sameResource. intros (-> & -> & Hxy) (-> & -> & Hyz).
  split_and!; try done. destruct Hyz as [->|]; auto.
Qed.

Lemma Read_sameResource attempts :
  keepsData sameResource (resourceAwsSecretsManagerSecretVersionRead (W := W) attempts).
Proof.
  pose proof sameResource_refl. pose proof sameResource_trans.
  unfold resourceAwsSecretsManagerSecretVersionRead,
    resourceAwsSecretsManagerSecretVersionRead_body, readAttempt.
  repeat keeps_step;
    apply keepsData_set_d; intros x; unfold sameResource; simpl; auto.
Qed.

Lemma loopListVersionIDsPagination_keepsData R fuel secretID stage nextToken :
  (∀ x, R x x) → (∀ x y z, R x y → R y z → R x z) →
  keepsData R (loopListVersionIDsPagination (W := W) fuel secretID stage nextToken).
Proof.
  intros Hrefl Htrans.
  revert nextToken. induction fuel as [|fuel IH]; intros nextToken; simpl.
  - by apply keepsData_outOfFuel.
  - repeat keeps_step. apply IH.
Qed.

Lemma moves_keepData R secretID versionID :
  (∀ x, R x x) → (∀ x y z, R x y → R y z → R x z) →
  (∀ fuel stage vars, keepsData R (addStage (W := W) fuel secretID versionID stage vars)) ∧
  (∀ prev stage u, keepsData R (removeStage (W := W) secretID versionID prev stage u)) ∧
  (∀ stage u, keepsData R (deleteStage (W := W) secretID versionID stage u)).
Proof.
  intros Hrefl Htrans. split_and!.
  - intros fuel stage [describedSecret awsPreviousVersionID]. unfold addStage.
    repeat keeps_step. by apply loopListVersionIDsPagination_keepsData.
  - intros prev stage u. unfold removeStage. repeat keeps_step.
  - intros stage u. unfold deleteStage. repeat keeps_step.
Qed.

(** X8: In every run, whatever the store answers: reading and updating leave
    the new-resource flag and the prior stages alone and change the
    identifier, if at all, by clearing it; deleting leaves the resource data
    entirely as they were. *)
Theorem resource_data_are_kept fuel attempts (s : state W) :
  sameResource (d s) (d (resourceAwsSecretsManagerSecretVersionRead attempts s).2) ∧
  sameResource (d s) (d (resourceAwsSecretsManagerSecretVersionUpdate fuel attempts s).2) ∧
  d (resourceAwsSecretsManagerSecretVersionDelete s).2 = d s.
Proof.
  pose proof sameResource_refl as Hrefl. pose proof sameResource_trans as Htrans.
  split_and!.
  - apply Read_sameResource.
  - revert s. change (keepsData sameResource
      (resourceAwsSecretsManagerSecretVersionUpdate (W := W) fuel attempts)).
    unfold resourceAwsSecretsManagerSecretVersionUpdate,
      resourceAwsSecretsManagerSecretVersionUpdate_body.
    repeat keeps_step.
    + by apply moves_keepData.
    + by apply moves_keepData.
    + apply Read_sameResource.
  - symmetry. revert s. change (keepsData eq
      (resourceAwsSecretsManagerSecretVersionDelete (W := W))).
    unfold resourceAwsSecretsManagerSecretVersionDelete,
      resourceAwsSecretsManagerSecretVersionDelete_body.
    assert (∀ x y z : ResourceData, x = y → y = z → x = z) by congruence.
    repeat keeps_step. by apply moves_keepData.
Qed.

End ResourceDataKept.

(** ** The calls of an update *)

Section EmitsAt.
Context {W : Type} {conn : SecretsManagerAPI W} {ext : Externals}.
Variable P : Event → Prop.

Lemma emits_at {A} (m : M (state W) A) s : emits P m → emitsAt s P m.
Proof. intros Hm. apply Hm. Qed.

Lemma emitsAt_bind {A B} (m : M (state W) A) (k : A → M (state W) B) s :
  emitsAt s P m →
  (∀ a s1, m s = (Next a, s1) → emitsAt s1 P (k a)) →
  emitsAt s P (m ≫= k).
Proof.
  intros (tr1 & Htr1 & HP1) Hk. unfold emitsAt. rewrite run_bind.
  destruct (m s) as [[a| | |] s1] eqn:Hrun; simpl in Htr1; try by exists tr1.
  destruct (Hk a s1 eq_refl) as (tr2 & Htr2 & HP2).
  exists (tr1 ++ tr2)%list. split.
  - by rewrite Htr2, Htr1, app_assoc.
  - by apply Forall_app.
Qed.

Lemma emitsAt_call (body : M (state W) Empty_set) s :
  emitsAt s P body → emitsAt s P (call body).
Proof.
  intros (tr & Htr & HP). exists tr. split; [|done].
  unfold call. by destruct (body s) as [[[]| | |] s1].
Qed.

Lemma emits_range_in {A V} (l : list A) (body : A → V → M (state W) V) (v : V) :
  (∀ x v, x ∈ l → emits P (body x v)) → emits P (range l body v).
Proof.
  revert v. induction l as [|x l IH]; intros v Hbody; simpl.
  - apply emits_ret.
  - apply emits_bind; [apply Hbody; left|].
    intros v'. apply IH. intros y v'' Hy. apply Hbody. by right.
Qed.

End EmitsAt.

Section UpdateCalls.
Context {W : Type} {conn : SecretsManagerAPI W} {ext : Externals}.

Lemma addStage_plain_no_locator fuel secretID versionID stage vars :
  String.eqb stage "AWSCURRENT" = false →
  emits (λ e, isLocatorCall e = false)
        (addStage (W := W) fuel secretID versionID stage vars).
Proof.
  intros Hstage. unfold addStage. destruct vars as [describedSecret awsPreviousVersionID].
  rewrite Hstage. repeat emits_step; done.
Qed.

(** X11: The locator is lazy: an update whose labels to add do not include the
    protected one makes no [DescribeSecret] and no [ListSecretVersionIds]
    call, whatever else happens. *)
Theorem update_asks_locator_only_for_CURRENT fuel attempts (s : state W) :
  "AWSCURRENT" ∉ List (Difference (version_stages (d s)) (prior_version_stages (d s))) →
  ∃ tr, trace (resourceAwsSecretsManagerSecretVersionUpdate fuel attempts s).2 =
          (trace s ++ tr)%list ∧
        Forall (λ e, isLocatorCall e = false) tr.
Proof.
  intros Hplan.
  change (emitsAt s (λ e, isLocatorCall e = false)
            (resourceAwsSecretsManagerSecretVersionUpdate fuel attempts)).
  unfold resourceAwsSecretsManagerSecretVersionUpdate,
    resourceAwsSecretsManagerSecretVersionUpdate_body.
  apply emitsAt_call, emitsAt_bind; [apply emits_at, emits_get_d|].
  intros rd s1 [= <- <-]. apply emits_at.
  destruct (decodeSecretsManagerSecretVersionID (Id (d s))) as [[secretID versionID] [e|]];
    [apply emits_return|].
  unfold GetChange_version_stages. apply emits_bind.
  - apply emits_range_in. intros stage vars Hstage.
    apply addStage_plain_no_locator. apply String.eqb_neq. by intros ->.
  - intros [described awsPreviousVersionID]. apply emits_bind.
    + apply emits_range. intros stage u. unfold removeStage. repeat emits_step; done.
    + intros _. unfold resourceAwsSecretsManagerSecretVersionRead,
        resourceAwsSecretsManagerSecretVersionRead_body, readAttempt.
      repeat emits_step; done.
Qed.

Lemma addStage_planned fuel secretID versionID stagesToAdd stagesToRemove stage vars :
  stage ∈ stagesToAdd →
  emits (λ e, ∀ input err, e = CallUpdateSecretVersionStage input err →
              plannedMove secretID versionID stagesToAdd stagesToRemove input)
        (addStage (W := W) fuel secretID versionID stage vars).
Proof.
  intros Hstage. unfold addStage. destruct vars as [describedSecret awsPreviousVersionID].
  apply emits_bind_yields with
    (Q := λ p, UpdateSecretVersionStageInput.SecretId p.2 = Some secretID ∧
               UpdateSecretVersionStageInput.VersionStage p.2 = Some stage ∧
               UpdateSecretVersionStageInput.MoveToVersionId p.2 = Some versionID).
  - destruct (String.eqb stage "AWSCURRENT"); [|by apply yields_ret].
    apply yields_bind. intros _.
    destruct describedSecret; [by apply yields_ret|].
    apply yields_bind. intros [described [e|]]; [apply yields_return|].
    apply yields_bind. intros awsCurrentStageVersionID.
    apply yields_bind. intros from. apply yields_bind. intros _.
    by apply yields_ret.
  - assert (∀ fuel' token,
              emits (λ e, ∀ input err, e = CallUpdateSecretVersionStage input err →
                          plannedMove secretID versionID stagesToAdd stagesToRemove input)
                (loopListVersionIDsPagination (W := W) fuel' secretID stage token)) as Hloop.
    { intros fuel'. induction fuel' as [|fuel' IH]; intros token; simpl.
      - apply emits_outOfFuel.
      - repeat emits_step; done. }
    repeat emits_step; done.
  - intros [describedSecret' input] (Hsecret & Hlabel & Hmove). simpl in *.
    repeat emits_step; try done.
    intros ? ? [= <- _]. split; [done|]. exists stage. split; [done|]. by left.
Qed.

Lemma removeStage_planned secretID versionID stagesToAdd stagesToRemove prev stage u :
  stage ∈ stagesToRemove →
  emits (λ e, ∀ input err, e = CallUpdateSecretVersionStage input err →
              plannedMove secretID versionID stagesToAdd stagesToRemove input)
        (removeStage (W := W) secretID versionID prev stage u).
Proof.
  intros Hstage. unfold removeStage.
  destruct (String.eqb_spec stage "AWSCURRENT") as [->|Hneq].
  - by apply emits_emit.
  - repeat emits_step; try done.
    intros ? ? [= <- _]. split; [done|]. exists stage. split; [done|]. by right.
Qed.

(** X12: An update moves nothing but the labels of its plan: every stage move it
    issues names the secret of the identifier and is either the assignment
    to the version of a label that is to be added, or the removal of a label
    that is to be removed and is not the protected one. *)
Theorem update_moves_only_planned_labels fuel attempts (s : state W) secretID versionID :
  decodeSecretsManagerSecretVersionID (Id (d s)) = (secretID, versionID, None) →
  let stagesToAdd :=
    List (Difference (version_stages (d s)) (prior_version_stages (d s))) in
  let stagesToRemove :=
    List (Difference (prior_version_stages (d s)) (version_stages (d s))) in
  ∃ tr, trace (resourceAwsSecretsManagerSecretVersionUpdate fuel attempts s).2 =
          (trace s ++ tr)%list ∧
        Forall (λ mv, plannedMove secretID versionID stagesToAdd stagesToRemove mv.1)
               (stageMoves tr).
Proof.
  intros Hdecode stagesToAdd stagesToRemove.
  assert (emitsAt s
    (λ e, ∀ input err, e = CallUpdateSecretVersionStage input err →
          plannedMove secretID versionID stagesToAdd stagesToRemove input)
    (resourceAwsSecretsManagerSecretVersionUpdate fuel attempts)) as (tr & Htr & Hmoves).
  { unfold resourceAwsSecretsManagerSecretVersionUpdate,
      resourceAwsSecretsManagerSecretVersionUpdate_body.
    apply emitsAt_call, emitsAt_bind; [apply emits_at, emits_get_d|].
    intros rd s1 [= <- <-]. apply emits_at. rewrite Hdecode.
    unfold GetChange_version_stages. apply emits_bind.
    - apply emits_range_in. intros stage vars Hstage. by apply addStage_planned.
    - intros [described awsPreviousVersionID]. apply emits_bind.
      + apply emits_range_in. intros stage u Hstage. by apply removeStage_planned.
      + intros _. unfold resourceAwsSecretsManagerSecretVersionRead,
          resourceAwsSecretsManagerSecretVersionRead_body, readAttempt.
        repeat emits_step; done. }
  exists tr. split; [done|].
  clear Htr. induction Hmoves as [|e tr He _ IH]; [constructor|].
  destruct e; simpl; try done. constructor; [|done]. by eapply He.
Qed.

End UpdateCalls.

(** ** Refused calls *)

Section FailStop.
Context {W : Type} {conn : SecretsManagerAPI W} {ext : Externals}.

Lemma failStop_quiet {A} (m : M (state W) A) :
  emits (λ e, isRead e = false ∧ failedStageCall e = None) m → failStop m.
Proof.
  intros Hm s. destruct (Hm s) as (tr & Htr & HP). exists tr. split; [done|].
  split; [|left]; eapply Forall_impl; try done; by intros ? [? ?].
Qed.

Lemma failStop_bind {A B} (m : M (state W) A) (k : A → M (state W) B) :
  failStop m → (∀ a, failStop (k a)) → failStop (m ≫= k).
Proof.
  intros Hm Hk s. rewrite run_bind.
  destruct (Hm s) as (tr1 & Htr1 & Hread1 & Hcase1).
  destruct (m s) as [[a| | |] s1]; simpl in *;
    [|exists tr1; split_and!; try done;
      destruct Hcase1 as [?|(tr0 & ev & err & secretID & stage & ? & ? & ? & [= ?])];
      first [by left|right; subst; by exists tr0, ev, err, secretID, stage]..].
  destruct Hcase1 as [Hok1|(? & ? & ? & ? & ? & _ & _ & _ & [=])].
  destruct (Hk a s1) as (tr2 & Htr2 & Hread2 & Hcase2).
  exists (tr1 ++ tr2)%list. split_and!.
  - by rewrite Htr2, Htr1, app_assoc.
  - by apply Forall_app.
  - destruct Hcase2 as [Hok2|(tr0 & ev & err & secretID & stage & -> & Hok0 & Hev & Hout)].
    + left. by apply Forall_app.
    + right. exists (tr1 ++ tr0)%list, ev, err, secretID, stage.
      split_and!; try done; [by rewrite app_assoc|by apply Forall_app].
Qed.

Lemma failStop_range {A V} (l : list A) (body : A → V → M (state W) V) (v : V) :
  (∀ x v, failStop (body x v)) → failStop (range l body v).
Proof.
  intros Hbody. revert v. induction l as [|x l IH]; intros v; simpl.
  - apply failStop_quiet, emits_ret.
  - apply failStop_bind; [apply Hbody|]. intros v'. apply IH.
Qed.

(** A call of the reconciliation followed by the test of its error. *)
Lemma failStop_UpdateSecretVersionStage {B} input (k : option error → M (state W) B) :
  (∀ e, ∃ secretID stage, k (Some e) = return_ (Some (updateError secretID stage e))) →
  failStop (k None) →
  failStop (conn_UpdateSecretVersionStage input ≫= k).
Proof.
  intros Herr Hok s. rewrite run_bind. unfold conn_UpdateSecretVersionStage.
  destruct (UpdateSecretVersionStage input (world s)) as [[e|] w]; simpl.
  - destruct (Herr e) as (secretID & stage & ->). eexists [_]. simpl.
    split_and!; [done|by repeat constructor|].
    right. eexists [], _, e, secretID, stage. by split_and!.
  - match goal with |- context [k None ?s1] =>
      destruct (Hok s1) as (tr & Htr & Hread & Hcase) end; simpl in *.
    eexists (_ :: tr). split_and!.
    + by rewrite Htr, <- app_assoc.
    + by constructor.
    + destruct Hcase as [?|(tr0 & ev & err & secretID & stage & -> & ? & ? & ?)].
      * left. by constructor.
      * right. eexists (_ :: tr0), ev, err, secretID, stage.
        split_and!; try done. by constructor.
Qed.

Lemma failStop_DescribeSecret {B} input
    (k : option DescribeSecretOutput.t * option error → M (state W) B) :
  (∀ output e, ∃ secretID stage,
     k (output, Some e) = return_ (Some (updateError secretID stage e))) →
  (∀ output, failStop (k (output, None))) →
  failStop (conn_DescribeSecret input ≫= k).
Proof.
  intros Herr Hok s. rewrite run_bind. unfold conn_DescribeSecret.
  destruct (DescribeSecret input (world s)) as [[output [e|]] w]; simpl.
  - destruct (Herr output e) as (secretID & stage & ->). eexists [_]. simpl.
    split_and!; [done|by repeat constructor|].
    right. eexists [], _, e, secretID, stage. by split_and!.
  - match goal with |- context [k _ ?s1] =>
      destruct (Hok output s1) as (tr & Htr & Hread & Hcase) end; simpl in *.
    eexists (_ :: tr). split_and!.
    + by rewrite Htr, <- app_assoc.
    + by constructor.
    + destruct Hcase as [?|(tr0 & ev & err & secretID & stage & -> & ? & ? & ?)].
      * left. by constructor.
      * right. eexists (_ :: tr0), ev, err, secretID, stage.
        split_and!; try done. by constructor.
Qed.

Lemma failStop_ListSecretVersionIds {B} input
    (k : option ListSecretVersionIdsOutput.t * option error → M (state W) B) :
  (∀ output e, ∃ secretID stage,
     k (output, Some e) = return_ (Some (updateError secretID stage e))) →
  (∀ output, failStop (k (output, None))) →
  failStop (conn_ListSecretVersionIds input ≫= k).
Proof.
  intros Herr Hok s. rewrite run_bind. unfold conn_ListSecretVersionIds.
  destruct (ListSecretVersionIds input (world s)) as [[output [e|]] w]; simpl.
  - destruct (Herr output e) as (secretID & stage & ->). eexists [_]. simpl.
    split_and!; [done|by repeat constructor|].
    right. eexists [], _, e, secretID, stage. by split_and!.
  - match goal with |- context [k _ ?s1] =>
      destruct (Hok output s1) as (tr & Htr & Hread & Hcase) end; simpl in *.
    eexists (_ :: tr). split_and!.
    + by rewrite Htr, <- app_assoc.
    + by constructor.
    + destruct Hcase as [?|(tr0 & ev & err & secretID & stage & -> & ? & ? & ?)].
      * left. by constructor.
      * right. eexists (_ :: tr0), ev, err, secretID, stage.
        split_and!; try done. by constructor.
Qed.

Lemma loopListVersionIDsPagination_failStop fuel secretID stage nextToken :
  failStop (loopListVersionIDsPagination (W := W) fuel secretID stage nextToken).
Proof.
  revert nextToken. induction fuel as [|fuel IH]; intros nextToken; simpl.
  - apply failStop_quiet, emits_outOfFuel.
  - apply failStop_ListSecretVersionIds; [by eexists _, _|].
    intros output. apply failStop_bind; [apply failStop_quiet, emits_deref|].
    intros out. destruct (scanVersions _); [apply failStop_quiet, emits_ret|].
    destruct (ListSecretVersionIdsOutput.NextToken out);
      [apply IH|apply failStop_quiet, emits_ret].
Qed.

Lemma addStage_failStop fuel secretID versionID stage vars :
  failStop (addStage (W := W) fuel secretID versionID stage vars).
Proof.
  unfold addStage. destruct vars as [describedSecret awsPreviousVersionID].
  apply failStop_bind.
  - destruct (String.eqb stage "AWSCURRENT"); [|apply failStop_quiet, emits_ret].
    apply failStop_bind; [by apply failStop_quiet, emits_emit|]. intros _.
    destruct describedSecret; [apply failStop_quiet, emits_ret|].
    apply failStop_DescribeSecret; [by eexists _, _|]. intros described.
    apply failStop_bind; [apply loopListVersionIDsPagination_failStop|].
    intros awsCurrentStageVersionID.
    apply failStop_quiet. repeat emits_step; done.
  - intros [describedSecret' input].
    apply failStop_bind; [by apply failStop_quiet, emits_emit|]. intros _.
    apply failStop_UpdateSecretVersionStage; [by eexists _, _|].
    apply failStop_quiet, emits_ret.
Qed.

Lemma removeStage_failStop secretID versionID prev stage u :
  failStop (removeStage (W := W) secretID versionID prev stage u).
Proof.
  unfold removeStage.
  destruct (String.eqb stage "AWSCURRENT"); [by apply failStop_quiet, emits_emit|].
  apply failStop_bind; [by apply failStop_quiet, emits_emit|]. intros _.
  apply failStop_UpdateSecretVersionStage; [by eexists _, _|].
  apply failStop_quiet, emits_ret.
Qed.

Lemma stopsAtRefusal_quiet {A} result (m : M (state W) A) :
  emits (λ e, failedStageCall e = None) m → stopsAtRefusal result m.
Proof.
  intros Hm s. destruct (Hm s) as (tr & Htr & HP). exists tr. split; [done|]. by left.
Qed.

Lemma stopsAtRefusal_after {A B} (m : M (state W) A) (k : A → M (state W) B) :
  failStop m → (∀ a, stopsAtRefusal Return (k a)) → stopsAtRefusal Return (m ≫= k).
Proof.
  intros Hm Hk s. rewrite run_bind.
  destruct (Hm s) as (tr1 & Htr1 & Hread1 & Hcase1).
  assert (Forall (λ e, failedStageCall e = None) tr1 →
          Forall (λ e, failedStageCall e = None ∧ isRead e = false) tr1) as Hboth.
  { intros Hok. apply Forall_forall. intros e He. split.
    - by eapply Forall_forall in Hok.
    - by eapply Forall_forall in Hread1. }
  destruct (m s) as [[a| | |] s1]; simpl in *;
    [|exists tr1; split; [done|];
      destruct Hcase1 as [?|(tr0 & ev & err & secretID & stage & -> & Hok0 & ? & [= ?])];
      first [by left|right; subst; exists tr0, ev, err, secretID, stage; split_and!; try done;
        apply Forall_forall; intros e He; split;
          [by eapply Forall_forall in Hok0
          |eapply Forall_forall in Hread1; [done|apply elem_of_app; by left]]]..].
  destruct Hcase1 as [Hok1|(? & ? & ? & ? & ? & _ & _ & _ & [=])].
  destruct (Hk a s1) as (tr2 & Htr2 & Hcase2).
  exists (tr1 ++ tr2)%list. split.
  - by rewrite Htr2, Htr1, app_assoc.
  - destruct Hcase2 as [Hok2|(tr0 & ev & err & secretID & stage & -> & Hok0 & Hev & Hout)].
    + left. by apply Forall_app.
    + right. exists (tr1 ++ tr0)%list, ev, err, secretID, stage.
      split_and!; try done; [by rewrite app_assoc|]. apply Forall_app. auto.
Qed.

(** X13: An update stops at the first [DescribeSecret], [ListSecretVersionIds] or
    [UpdateSecretVersionStage] call that the store refuses: that call is the
    last event of the run, the version has not been read back, and the
    update returns the error of the store wrapped with a secret and a
    label.  Otherwise no such call is refused in the run. *)
Theorem update_stops_at_first_refusal fuel attempts (s : state W) :
  ∃ tr,
    trace (resourceAwsSecretsManagerSecretVersionUpdate fuel attempts s).2 =
      (trace s ++ tr)%list ∧
    (Forall (λ e, failedStageCall e = None) tr ∨
     ∃ tr0 ev err secretID stage,
       tr = (tr0 ++ [ev])%list ∧
       Forall (λ e, failedStageCall e = None ∧ isRead e = false) tr0 ∧
       failedStageCall ev = Some err ∧
       (resourceAwsSecretsManagerSecretVersionUpdate fuel attempts s).1 =
         Next (Some (updateError secretID stage err))).
Proof.
  assert (stopsAtRefusal Return
            (resourceAwsSecretsManagerSecretVersionUpdate_body (W := W) fuel attempts))
    as Hbody.
  { unfold resourceAwsSecretsManagerSecretVersionUpdate_body.
    apply stopsAtRefusal_after; [apply failStop_quiet, emits_get_d|]. intros rd.
    destruct (decodeSecretsManagerSecretVersionID (Id rd)) as [[secretID versionID] [e|]];
      [apply stopsAtRefusal_quiet, emits_return|].
    destruct (GetChange_version_stages rd) as [os ns].
    apply stopsAtRefusal_after.
    { apply failStop_range. intros stage vars. apply addStage_failStop. }
    intros [described awsPreviousVersionID].
    apply stopsAtRefusal_after.
    { apply failStop_range. intros stage u. apply removeStage_failStop. }
    intros _. apply stopsAtRefusal_quiet.
    unfold resourceAwsSecretsManagerSecretVersionRead,
      resourceAwsSecretsManagerSecretVersionRead_body, readAttempt.
    repeat emits_step; done. }
  destruct (Hbody s) as (tr & Htr & Hcase). exists tr.
  unfold resourceAwsSecretsManagerSecretVersionUpdate, call.
  destruct (resourceAwsSecretsManagerSecretVersionUpdate_body fuel attempts s)
    as [[[]|r| |] s1]; simpl in *; (split; [done|]);
    destruct Hcase as [?|(tr0 & ev & err & secretID & stage & ? & ? & ? & [= ?])];
    try (by left); right; subst; by exists tr0, ev, err, secretID, stage.
Qed.

End FailStop.

(** ** Relocating the protected label *)

Section Relocation.
Context {W : Type} {conn : SecretsManagerAPI W} {ext : Externals}.

(** X14: Adding the protected label, with nothing described yet: the secret is
    described, the pages are listed up to the one with the current version,
    and one move is issued that assigns the label to the version and takes
    it from that holder.  The holder is what [awsPreviousVersionID] is
    afterwards, so the removals that follow are addressed to it. *)
Theorem addStage_relocates_CURRENT fuel secretID versionID vars (s : state W)
    described w0 evs w1 token output w2 before version after from w3 :
  vars.1 = None →
  DescribeSecret {| DescribeSecretInput.SecretId := Some secretID |} (world s) =
    (described, None, w0) →
  cleanPages secretID w0 None evs w1 token →
  ListSecretVersionIds (listRequest secretID token) w1 = (Some output, None, w2) →
  ListSecretVersionIdsOutput.Versions output = (before ++ version :: after)%list →
  Forall (λ v, carriesCURRENT v = false) before →
  carriesCURRENT version = true →
  SecretVersionsListEntry.VersionId version = Some from →
  UpdateSecretVersionStage (relocateInput secretID versionID from) w2 = (None, w3) →
  addStage (List.length evs + Datatypes.S fuel) secretID versionID "AWSCURRENT" vars s =
    (Next (described, Some from),
     {| world := w3; d := d s;
        trace := trace s ++
          [Log "[DEBUG] Going to set AWSCURRENT staging label for secret %q version %q"
               [LogString secretID; LogString versionID];
           CallDescribeSecret {| DescribeSecretInput.SecretId := Some secretID |} described None] ++
          evs ++
          [CallListSecretVersionIds (listRequest secretID token) (Some output) None;
           Log "[DEBUG] Going to move AWSCURRENT staging label for secret %q from version: %q to version %q"
               [LogString secretID; LogString from; LogString versionID];
           Log "[DEBUG] Updating Secrets Manager Secret Version Stage: %s"
               [LogInput (relocateInput secretID versionID from)];
           CallUpdateSecretVersionStage (relocateInput secretID versionID from) None] |}).
Proof.
  destruct vars as [describedSecret awsPreviousVersionID]. simpl.
  intros -> Hdescribe Hpages Hlist Hversions Hbefore Hversion Hfrom Hmove.
  assert (scanVersions (ListSecretVersionIdsOutput.Versions output) = Some (Some from))
    as Hscan by (rewrite Hversions, <- Hfrom; by apply scanVersions_first).
  unfold relocateInput in *.
  unfold addStage. simpl. unfold conn_DescribeSecret.
  repeat (rewrite run_bind; simpl). rewrite Hdescribe. simpl.
  rewrite run_bind.
  rewrite (loop_cleanPages _ _ _ _ _ _ _ _ _ _ Hpages).
  erewrite loop_found; [|done..]. simpl.
  unfold conn_UpdateSecretVersionStage, withRemoveFromVersionId.
  repeat (rewrite run_bind; simpl). rewrite Hmove. simpl.
  by rewrite <- !app_assoc.
Qed.

End Relocation.

(** ** Describing once *)

Section DescribeOnce.
Context {W : Type} {conn : SecretsManagerAPI W} {ext : Externals}.

Lemma countDescribes_app tr1 tr2 :
  countDescribes (tr1 ++ tr2) = countDescribes tr1 + countDescribes tr2.
Proof. unfold countDescribes. by rewrite List.filter_app, length_app. Qed.

Lemma countDescribes_none tr :
  Forall (λ e, isDescribe e = false) tr → countDescribes tr = 0.
Proof.
  unfold countDescribes. induction 1 as [|e tr He _ IH]; [done|].
  simpl. by rewrite He.
Qed.

Lemma describeBudget_le described : (describeBudget described ≤ 1)%nat.
Proof. destruct described; simpl; lia. Qed.

Lemma describesAtMost_quiet {A} (β : A → nat) b (m : M (state W) A) :
  emits (λ e, isDescribe e = false) m →
  yields (λ a, (β a ≤ b)%nat) m →
  describesAtMost β b m.
Proof.
  intros Hm Hβ s. destruct (Hm s) as (tr & Htr & HP). exists tr. split; [done|].
  rewrite (countDescribes_none _ HP).
  destruct (m s) as [[a| | |] s1] eqn:Hrun; simpl; try lia.
  by apply (Hβ _ _ _ Hrun).
Qed.

Lemma describesAtMost_bind {A B} (β1 : A → nat) (β2 : B → nat) b
    (m : M (state W) A) (k : A → M (state W) B) :
  describesAtMost β1 b m →
  (∀ a, describesAtMost β2 (β1 a) (k a)) →
  describesAtMost β2 b (m ≫= k).
Proof.
  intros Hm Hk s. rewrite run_bind. destruct (Hm s) as (tr1 & Htr1 & Hb1).
  destruct (m s) as [[a| | |] s1]; simpl in *; try by exists tr1.
  destruct (Hk a s1) as (tr2 & Htr2 & Hb2).
  exists (tr1 ++ tr2)%list. split.
  - by rewrite Htr2, Htr1, app_assoc.
  - rewrite countDescribes_app. lia.
Qed.

Lemma describesAtMost_range {A V} (β : V → nat) (l : list A)
    (body : A → V → M (state W) V) (v : V) :
  (∀ x v, describesAtMost β (β v) (body x v)) →
  describesAtMost β (β v) (range l body v).
Proof.
  intros Hbody. revert v. induction l as [|x l IH]; intros v; simpl.
  - apply describesAtMost_quiet; [apply emits_ret|by apply yields_ret].
  - eapply describesAtMost_bind; [apply Hbody|]. intros v'. apply IH.
Qed.

Section NonNilOutput.
Hypothesis described_on_success :
  ∀ input w output w', DescribeSecret input w = (output, None, w') → output ≠ None.

Lemma describesAtMost_DescribeSecret input :
  describesAtMost
    (λ p : option DescribeSecretOutput.t * option error,
       match p with (None, None) => 1 | _ => 0 end)
    1 (conn_DescribeSecret input).
Proof.
  intros s. unfold conn_DescribeSecret.
  destruct (DescribeSecret input (world s)) as [[output err] w] eqn:Hdescribe.
  eexists [_]. split; [done|]. simpl.
  destruct output, err; simpl; try lia.
  by destruct (described_on_success _ _ _ _ Hdescribe).
Qed.

Lemma addStage_describesAtMost fuel secretID versionID stage vars :
  describesAtMost (λ vars, describeBudget vars.1) (describeBudget vars.1)
    (addStage (W := W) fuel secretID versionID stage vars).
Proof.
  unfold addStage. destruct vars as [describedSecret awsPreviousVersionID]. simpl.
  eapply describesAtMost_bind with (β1 := λ p, describeBudget p.1).
  - destruct (String.eqb stage "AWSCURRENT");
      [|apply describesAtMost_quiet; [apply emits_ret|by apply yields_ret]].
    eapply describesAtMost_bind with (β1 := λ _, describeBudget describedSecret).
    { apply describesAtMost_quiet; [by apply emits_emit|].
      by intros s a s' _. }
    intros _. destruct describedSecret as [described|];
      [apply describesAtMost_quiet; [apply emits_ret|by apply yields_ret]|].
    simpl. eapply describesAtMost_bind; [apply describesAtMost_DescribeSecret|].
    intros [described [e|]].
    { apply describesAtMost_quiet; [apply emits_return|apply yields_return]. }
    apply describesAtMost_quiet.
    + apply emits_bind.
      * clear. generalize (@None string). induction fuel as [|fuel IH]; intros token; simpl.
        -- apply emits_outOfFuel.
        -- repeat emits_step; done.
      * intros cur. repeat emits_step; done.
    + apply yields_bind. intros cur. apply yields_bind. intros from.
      apply yields_bind. intros _. apply yields_ret. simpl.
      destruct described; simpl; lia.
  - intros [describedSecret' input]. simpl.
    apply describesAtMost_quiet; [repeat emits_step; done|].
    apply yields_bind. intros _. apply yields_bind. intros [e|];
      [apply yields_return|by apply yields_ret].
Qed.

(** X15: The description of the secret is cached: when the store never answers
    a description with neither output nor error, a run of the update makes
    at most one [DescribeSecret] call, however the labels to add are
    listed. *)
Theorem update_describes_at_most_once fuel attempts (s : state W) :
  ∃ tr, trace (resourceAwsSecretsManagerSecretVersionUpdate fuel attempts s).2 =
          (trace s ++ tr)%list ∧
        (countDescribes tr ≤ 1)%nat.
Proof.
  assert (describesAtMost (λ _, 0) 1
            (resourceAwsSecretsManagerSecretVersionUpdate_body (W := W) fuel attempts))
    as Hbody.
  { unfold resourceAwsSecretsManagerSecretVersionUpdate_body.
    eapply describesAtMost_bind with (β1 := λ _, 1).
    { apply describesAtMost_quiet; [apply emits_get_d|by intros ? ? ? _]. }
    intros rd.
    destruct (decodeSecretsManagerSecretVersionID (Id rd)) as [[secretID versionID] [e|]];
      [apply describesAtMost_quiet; [apply emits_return|apply yields_return]|].
    destruct (GetChange_version_stages rd) as [os ns].
    eapply describesAtMost_bind with (β1 := λ vars, describeBudget vars.1).
    { apply (describesAtMost_range (λ vars, describeBudget vars.1) _ _ (None, Some versionID)).
      intros stage vars. apply addStage_describesAtMost. }
    intros [described awsPreviousVersionID].
    apply describesAtMost_quiet; [|intros ? ? ? _; lia].
    apply emits_bind.
    { apply emits_range. intros stage u. unfold removeStage. repeat emits_step; done. }
    intros _. unfold resourceAwsSecretsManagerSecretVersionRead,
      resourceAwsSecretsManagerSecretVersionRead_body, readAttempt.
    repeat emits_step; done. }
  destruct (Hbody s) as (tr & Htr & Hcount). exists tr.
  unfold resourceAwsSecretsManagerSecretVersionUpdate, call.
  destruct (resourceAwsSecretsManagerSecretVersionUpdate_body fuel attempts s)
    as [[[]|r| |] s1]; simpl in *; (split; [done|lia]).
Qed.

End NonNilOutput.

End DescribeOnce.

(** ** Creating *)

Lemma Count_append s t sep : Count (s +:+ t) sep = Count s sep + Count t sep.
Proof. induction s as [|c s IH]; simpl; [done|]. rewrite IH. lia. Qed.

Section Creating.
Context {W : Type} {conn : SecretsManagerAPI W} {connPut : PutSecretValueAPI W}
  {ext : Externals} {extCreate : CreateExternals}.

(** X16: A binary value that is not base64, or does not decode, ends [Create]
    with an error before anything is put, logged or read. *)
Theorem create_rejects_bad_binary_before_any_call attempts (c : createState W) :
  secret_binary (d (resource c)) ≠ "" →
  isBase64Encoded (secret_binary (d (resource c))) = false ∨
  (DecodeString (secret_binary (d (resource c)))).2 ≠ None →
  ∃ err, resourceAwsSecretsManagerSecretVersionCreate attempts c = (Next (Some err), c).
Proof.
  intros Hset Hbad. destruct c as [[w rd tr] ps]. simpl in *.
  unfold resourceAwsSecretsManagerSecretVersionCreate, call,
    resourceAwsSecretsManagerSecretVersionCreate_body.
  rewrite run_bind. simpl. unfold GetOk_secret_binary.
  apply String.eqb_neq in Hset. rewrite Hset. simpl. rewrite run_bind.
  destruct (isBase64Encoded (secret_binary rd)); simpl; [|by eexists].
  destruct Hbad as [|Hdecode]; [done|].
  destruct (DecodeString (secret_binary rd)) as [bytes [e|]]; simpl in *; [|done].
  by eexists.
Qed.

(** With a binary value that passes, [Create] reaches the call of
    [PutSecretValue] for the secret of the configuration, and what follows
    is decided by the answer. *)
Lemma Create_reaches_put attempts (c : createState W) :
  binaryAccepted (d (resource c)) →
  ∃ input,
    PutSecretValueInput.SecretId input = Some (secret_id (d (resource c))) ∧
    resourceAwsSecretsManagerSecretVersionCreate attempts c =
      let '(output, err, w) := PutSecretValue input (world (resource c)) in
      match err with
      | Some e =>
          (Next (Some (Errorf "error putting Secrets Manager Secret value: %s" [] (Some e))),
           afterPut c input output err w)
      | None =>
          match output with
          | None => (Panic "invalid memory address or nil pointer dereference",
                     afterPut c input output err w)
          | Some out =>
              lift (resourceAwsSecretsManagerSecretVersionRead attempts)
                (withId (createdID (secret_id (d (resource c)))
                                   (PutSecretValueOutput.VersionId out))
                        (afterPut c input output err w))
          end
      end.
Proof.
  intros Hbinary. destruct c as [[w rd tr] ps]. unfold binaryAccepted in Hbinary.
  simpl in *.
  unfold resourceAwsSecretsManagerSecretVersionCreate, call,
    resourceAwsSecretsManagerSecretVersionCreate_body,
    GetOk_secret_string, GetOk_secret_binary, GetOk_version_stages,
    conn_PutSecretValue, afterPut, withId, lift.
  rewrite run_bind. simpl.
  destruct (negb (String.eqb (StringValue (secret_string rd)) ""));
    destruct (negb (Nat.eqb (Len (version_stages rd)) 0));
    (destruct Hbinary as [->|[Hbase64 Hdecode]];
     [|destruct (String.eqb (secret_binary rd) ""); simpl; rewrite ?Hbase64;
       destruct (DecodeString (secret_binary rd)) as [bytes err]; simpl in Hdecode;
       subst err]);
    simpl; repeat (rewrite run_bind; simpl);
    (match goal with |- context [PutSecretValue ?i w] => exists i end);
    (split; [done|]);
    (destruct (PutSecretValue _ w) as [[output [e|]] w']; simpl; [done|]);
    (destruct output as [out|]; simpl; [|done]);
    repeat (rewrite run_bind; simpl);
    (destruct (resourceAwsSecretsManagerSecretVersionRead attempts _)
       as [[r|r| |] s'] eqn:Hread; simpl; try done);
    by destruct (call_not_Return _ _ _ _ Hread).
Qed.

(** X17: When the store refuses the value, [Create] returns its error wrapped;
    the resource gets no identifier, and nothing is read: the one call made
    is the put, for the secret of the configuration. *)
Theorem create_without_put_sets_no_id attempts (c : createState W) e w' :
  binaryAccepted (d (resource c)) →
  (∀ input, PutSecretValueInput.SecretId input = Some (secret_id (d (resource c))) →
            ∃ output, PutSecretValue input (world (resource c)) = (output, Some e, w')) →
  ∃ c' input output,
    resourceAwsSecretsManagerSecretVersionCreate attempts c =
      (Next (Some (Errorf "error putting Secrets Manager Secret value: %s" [] (Some e))), c') ∧
    d (resource c') = d (resource c) ∧
    trace (resource c') =
      (trace (resource c) ++
       [Log "[DEBUG] Putting Secrets Manager Secret %q value"
            [LogString (secret_id (d (resource c)))]])%list ∧
    puts c' = (puts c ++ [(input, output, Some e)])%list ∧
    PutSecretValueInput.SecretId input = Some (secret_id (d (resource c))).
Proof.
  intros Hbinary Hput.
  destruct (Create_reaches_put attempts c Hbinary) as (input & Hinput & ->).
  destruct (Hput input Hinput) as [output ->].
  by exists (afterPut c input output (Some e) w'), input, output.
Qed.

(** X18: Creating, from end to end: the value is put, the identifier becomes
    the secret and the new version joined by the delimiter, and the version
    that is read back is that very one.  When the store has it, [Create]
    returns [nil] after one put and one read, and the resource data hold
    that identifier and the fields of the version read: string, encoded
    binary, version, ARN and stages. *)
Theorem create_reads_back_the_version_it_put attempts (c : createState W)
    out versionID w1 value w2 :
  let secretID := secret_id (d (resource c)) in
  binaryAccepted (d (resource c)) →
  Count secretID "|" = 0 →
  Count versionID "|" = 0 →
  PutSecretValueOutput.VersionId out = Some versionID →
  (∀ input, PutSecretValueInput.SecretId input = Some secretID →
            PutSecretValue input (world (resource c)) = (Some out, None, w1)) →
  GetSecretValue (readInput secretID versionID) w1 = (Some value, None, w2) →
  ∃ input,
    PutSecretValueInput.SecretId input = Some secretID ∧
    resourceAwsSecretsManagerSecretVersionCreate attempts c =
      (Next None,
       {| resource :=
            {| world := w2;
               d := {| Id := secretID +:+ "|" +:+ versionID; IsNewResource := IsNewResource (d (resource c));
                       prior_version_stages := prior_version_stages (d (resource c));
                       version_stages :=
                         list_to_set (flattenStringList (GetSecretValueOutput.VersionStages value));
                       secret_id := secretID;
                       secret_string := GetSecretValueOutput.SecretString value;
                       secret_binary := base64Encode (GetSecretValueOutput.SecretBinary value);
                       version_id := GetSecretValueOutput.VersionId value;
                       arn := GetSecretValueOutput.ARN value |};
               trace := trace (resource c) ++
                 [Log "[DEBUG] Putting Secrets Manager Secret %q value" [LogString secretID];
                  CallGetSecretValue (readInput secretID versionID) (Some value) None] |};
          puts := puts c ++ [(input, Some out, None)] |}).
Proof.
  intros secretID Hbinary Hsecret Hversion Hout Hput Hget.
  destruct (Create_reaches_put attempts c Hbinary) as (input & Hinput & ->).
  exists input. split; [done|]. rewrite (Hput input Hinput), Hout.
  assert (decodeSecretsManagerSecretVersionID (createdID secretID (Some versionID)) =
            (secretID, versionID, None)) as Hdecode.
  { apply decode_two_parts. unfold createdID.
    change ("|" +:+ StringValue (Some versionID)) with (String "|" versionID).
    rewrite (Split_append _ _ _ Hsecret). by rewrite (Split_no_sep _ _ Hversion). }
  unfold lift, withId, afterPut. simpl.
  unfold resourceAwsSecretsManagerSecretVersionRead, call,
    resourceAwsSecretsManagerSecretVersionRead_body.
  rewrite run_bind. simpl. fold secretID. rewrite Hdecode.
  fold (readInput secretID versionID).
  erewrite (Read_one_call attempts (readInput secretID versionID) _ (Some value) None w2);
    [|exact Hget|by auto..].
  simpl. rewrite !andb_false_r. simpl. by rewrite <- app_assoc.
Qed.

(** X19: A secret identifier that holds the delimiter: the value is put all the
    same, and then [Create] fails with the format error of the identifier
    it has just set, without reading. *)
Theorem create_with_delimiter_in_secret_id_fails_after_put attempts (c : createState W)
    out w1 :
  let secretID := secret_id (d (resource c)) in
  let id := createdID secretID (PutSecretValueOutput.VersionId out) in
  binaryAccepted (d (resource c)) →
  Count secretID "|" ≠ 0 →
  (∀ input, PutSecretValueInput.SecretId input = Some secretID →
            PutSecretValue input (world (resource c)) = (Some out, None, w1)) →
  ∃ input,
    PutSecretValueInput.SecretId input = Some secretID ∧
    resourceAwsSecretsManagerSecretVersionCreate attempts c =
      (Next (Some (Errorf "expected ID in format SecretID|VersionID, received: %s" [id] None)),
       withId id (afterPut c input (Some out) None w1)).
Proof.
  intros secretID id Hbinary Hsecret Hput.
  destruct (Create_reaches_put attempts c Hbinary) as (input & Hinput & ->).
  exists input. split; [done|]. rewrite (Hput input Hinput). fold secretID id.
  assert (decodeSecretsManagerSecretVersionID id =
            ("", "", Some (Errorf "expected ID in format SecretID|VersionID, received: %s"
                                  [id] None))) as Hdecode.
  { apply decode_not_two_parts. rewrite Split_length. unfold id, createdID.
    rewrite Count_append. simpl. lia. }
  unfold lift, withId, afterPut. simpl.
  unfold resourceAwsSecretsManagerSecretVersionRead, call,
    resourceAwsSecretsManagerSecretVersionRead_body.
  rewrite run_bind. simpl. by rewrite Hdecode.
Qed.

End Creating.

(** ** The calls of a tag update *)

Section TagCalls.
Context {W I T : Type} {conn : ivschat.Client W} {tftags : ivschat.KeyValueTagsAPI I T}.

(** X20: When tags were removed and the store refuses to untag, [UpdateTags]
    returns at once: nothing is tagged, and the error comes back wrapped in
    such a way that its code can still be matched. *)
Theorem UpdateTags_stops_when_untagging_is_refused
    identifier (oldTagsMap newTagsMap : I) (s : ivschat.state W) e w' :
  ivschat.len (ivschat.Removed (ivschat.New oldTagsMap : T) (ivschat.New newTagsMap)) ≠ 0 →
  ivschat.UntagResource (untagInput identifier oldTagsMap newTagsMap) (ivschat.world s) =
    (Some e, w') →
  let err := Errorf "untagging resource (%s): %w" [identifier] (Some e) in
  ivschat.UpdateTags identifier oldTagsMap newTagsMap s =
    (Next (Some err),
     {| ivschat.world := w';
        ivschat.trace := ivschat.trace s ++
          [ivschat.CallUntagResource (untagInput identifier oldTagsMap newTagsMap) (Some e)] |}) ∧
  (∀ code, ErrCodeEquals (Some err) code = ErrCodeEquals (Some e) code).
Proof.
  intros Hremoved Huntag err. split; [|done].
  unfold ivschat.UpdateTags, call, ivschat.UpdateTags_body, ivschat.conn_UntagResource.
  unfold untagInput in Huntag.
  assert (Nat.ltb 0 (ivschat.len (ivschat.Removed (ivschat.New oldTagsMap : T)
                                                  (ivschat.New newTagsMap))) = true)
    as -> by (apply Nat.ltb_lt; lia).
  repeat (rewrite run_bind; simpl). by rewrite Huntag.
Qed.

(** X21: Every run of [UpdateTags] has one of four shapes: no call, an untagging,
    a tagging, or an untagging that went through followed by a tagging.  It
    untags only when tags were removed and tags only when tags were updated,
    with the keys and tags of these sets; and it returns [nil] exactly when
    no call it made was refused. *)
Theorem UpdateTags_calls_in_order identifier (oldTagsMap newTagsMap : I)
    (s : ivschat.state W) :
  let removed := ivschat.Removed (ivschat.New oldTagsMap : T) (ivschat.New newTagsMap) in
  let updated := ivschat.Updated (ivschat.New oldTagsMap : T) (ivschat.New newTagsMap) in
  let run := ivschat.UpdateTags identifier oldTagsMap newTagsMap s in
  ∃ tr,
    ivschat.trace run.2 = (ivschat.trace s ++ tr)%list ∧
    tagCallsInOrder tr = true ∧
    Forall (λ e, match e with
                 | ivschat.CallUntagResource input _ =>
                     ivschat.len removed ≠ 0 ∧
                     input = untagInput identifier oldTagsMap newTagsMap
                 | ivschat.CallTagResource input _ =>
                     ivschat.len updated ≠ 0 ∧
                     input = tagInput identifier oldTagsMap newTagsMap
                 end) tr ∧
    (run.1 = Next None ↔
     Forall (λ e, match e with
                  | ivschat.CallUntagResource _ err => err = None
                  | ivschat.CallTagResource _ err => err = None
                  end) tr).
Proof.
  intros removed updated run. subst run.
  unfold ivschat.UpdateTags, call, ivschat.UpdateTags_body,
    ivschat.conn_UntagResource, ivschat.conn_TagResource, ivschat.Tags.
  fold removed updated.
  destruct (Nat.ltb_spec 0 (ivschat.len removed)) as [Hremoved|Hremoved];
    destruct (Nat.ltb_spec 0 (ivschat.len updated)) as [Hupdated|Hupdated];
    repeat (rewrite run_bind; simpl).
  - destruct (ivschat.UntagResource _ (ivschat.world s)) as [[e|] w1]; simpl.
    + eexists [_]. split_and!; [done|done|repeat constructor; lia|].
      split; [done|]. by intros [[=] _]%Forall_cons.
    + repeat (rewrite run_bind; simpl).
      destruct (ivschat.TagResource _ w1) as [[e|] w2]; simpl.
      * eexists [_; _]. split_and!; [by rewrite <- app_assoc|done|repeat constructor; lia|].
        split; [done|]. by intros [_ [[=] _]%Forall_cons]%Forall_cons.
      * eexists [_; _]. split_and!; [by rewrite <- app_assoc|done|repeat constructor; lia|].
        split; [by repeat constructor|done].
  - destruct (ivschat.UntagResource _ (ivschat.world s)) as [[e|] w1]; simpl.
    + eexists [_]. split_and!; [done|done|repeat constructor; lia|].
      split; [done|]. by intros [[=] _]%Forall_cons.
    + eexists [_]. split_and!; [done|done|repeat constructor; lia|].
      split; [by repeat constructor|done].
  - destruct (ivschat.TagResource _ (ivschat.world s)) as [[e|] w1]; simpl.
    + eexists [_]. split_and!; [done|done|repeat constructor; lia|].
      split; [done|]. by intros [[=] _]%Forall_cons.
    + eexists [_]. split_and!; [done|done|repeat constructor; lia|].
      split; [by repeat constructor|done].
  - exists []. split_and!; [by rewrite app_nil_r|done|constructor|].
    split; [constructor|done].
Qed.

End TagCalls.

(** ** Runs on the scripted stores *)

Section FurtherRuns.
#[local] Existing Instance Scripted.conn.
#[local] Existing Instance Scripted.ext.
#[local] Existing Instance ScriptedCreate.connPut.
#[local] Existing Instance ScriptedCreate.extCreate.

(** An identifier without delimiter. *)
Lemma malformed_id_fails_before_any_call_witness :
  let s := Scripted.start Scripted.noCurrent (Scripted.resourceData "sec" false {["BAR"]} ∅) in
  let err := Errorf "expected ID in format SecretID|VersionID, received: %s" ["sec"] None in
  resourceAwsSecretsManagerSecretVersionRead 1 s = (Next (Some err), s) ∧
  resourceAwsSecretsManagerSecretVersionUpdate 1 1 s = (Next (Some err), s) ∧
  resourceAwsSecretsManagerSecretVersionDelete s = (Next (Some err), s).
Proof.
  intros s err. apply (malformed_id_fails_before_any_call 1 1 s). simpl. lia.
Defined.

(** The version [v2] read from a store that has it. *)
Lemma read_stores_the_answer_witness :
  let rd := Scripted.resourceData "sec|v2" false {["BAR"]} {["BAR"]} in
  resourceAwsSecretsManagerSecretVersionRead 2 (Scripted.start Scripted.noCurrent rd) =
    (Next None,
     {| world := Scripted.noCurrent;
        d := {| Id := "sec|v2"; IsNewResource := false;
                prior_version_stages := {["BAR"]};
                version_stages := list_to_set ["BAR"];
                secret_id := "sec"; secret_string := Some "hunter2";
                secret_binary := ""; version_id := Some "v2";
                arn := Some "arn:aws:secretsmanager:::secret:sec" |};
        trace := [CallGetSecretValue (readInput "sec" "v2")
                    (Some (Scripted.secretValue "v2" ["BAR"])) None] |}).
Proof.
  intros rd.
  exact (read_stores_the_answer 2 (Scripted.start Scripted.noCurrent rd) "sec" "v2"
           (Scripted.secretValue "v2" ["BAR"]) Scripted.noCurrent eq_refl eq_refl).
Defined.

(** A store that answers with nothing at all. *)
Lemma read_rejects_empty_response_witness :
  let rd := Scripted.resourceData "sec|v2" false {["BAR"]} {["BAR"]} in
  resourceAwsSecretsManagerSecretVersionRead 2 (Scripted.start ScriptedReads.silent rd) =
    (Next (Some (Errorf "error reading Secrets Manager Secret Version (%s): empty response"
                        ["sec|v2"] None)),
     {| world := ScriptedReads.silent; d := rd;
        trace := [CallGetSecretValue (readInput "sec" "v2") None None] |}).
Proof.
  intros rd.
  apply (read_rejects_empty_response 2 (Scripted.start ScriptedReads.silent rd) "sec" "v2"
           ScriptedReads.silent); reflexivity.
Defined.

(** A read that is refused for want of permission, for a new resource. *)
Lemma read_surfaces_other_errors_witness :
  let rd := Scripted.resourceData "sec|v2" true ∅ {["BAR"]} in
  let err := Errorf "error reading Secrets Manager Secret Version (%s): %w"
                    ["sec|v2"] (Some ScriptedReads.denied) in
  resourceAwsSecretsManagerSecretVersionRead 3 (Scripted.start ScriptedReads.forbidden rd) =
    (Next (Some err),
     {| world := ScriptedReads.forbidden; d := rd;
        trace := [CallGetSecretValue (readInput "sec" "v2") None
                    (Some ScriptedReads.denied)] |}) ∧
  (∀ code, ErrCodeEquals (Some err) code = ErrCodeEquals (Some ScriptedReads.denied) code) ∧
  (∀ code message,
     ErrMessageContains (Some err) code message =
       ErrMessageContains (Some ScriptedReads.denied) code message).
Proof.
  intros rd err.
  apply (read_surfaces_other_errors 3 (Scripted.start ScriptedReads.forbidden rd) "sec" "v2"
           None ScriptedReads.denied ScriptedReads.forbidden); reflexivity.
Defined.

(** A version that holds no label. *)
Lemma delete_without_stages_does_nothing_witness :
  let s := Scripted.start Scripted.gone (Scripted.resourceData "sec|v2" false ∅ ∅) in
  resourceAwsSecretsManagerSecretVersionDelete s = (Next None, s).
Proof.
  intros s. apply (delete_without_stages_does_nothing s "sec" "v2"); reflexivity.
Defined.

(** The same stages before and after. *)
Lemma update_without_plan_is_a_read_witness :
  let s := Scripted.start Scripted.noCurrent
             (Scripted.resourceData "sec|v2" false {["BAR"]} {["BAR"]}) in
  resourceAwsSecretsManagerSecretVersionUpdate 1 1 s =
    resourceAwsSecretsManagerSecretVersionRead 1 s.
Proof.
  intros s. apply (update_without_plan_is_a_read 1 1 s "sec" "v2").
  - reflexivity.
  - vm_compute. reflexivity.
  - vm_compute. reflexivity.
Defined.

(** [BAR] is replaced by [FOO]. *)
Lemma update_asks_locator_only_for_CURRENT_witness :
  let s := Scripted.start Scripted.noCurrent
             (Scripted.resourceData "sec|v2" false {["BAR"]} {["FOO"]}) in
  ∃ tr, trace (resourceAwsSecretsManagerSecretVersionUpdate 1 1 s).2 = (trace s ++ tr)%list ∧
        Forall (λ e, isLocatorCall e = false) tr.
Proof.
  intros s. apply (update_asks_locator_only_for_CURRENT 1 1 s).
  apply (bool_decide_unpack _). vm_compute. reflexivity.
Defined.

Lemma update_moves_only_planned_labels_witness :
  let s := Scripted.start Scripted.twoPages
             (Scripted.resourceData "sec|v2" false {["BAR"]} {["AWSCURRENT"]}) in
  let stagesToAdd := List (Difference (version_stages (d s)) (prior_version_stages (d s))) in
  let stagesToRemove := List (Difference (prior_version_stages (d s)) (version_stages (d s))) in
  ∃ tr, trace (resourceAwsSecretsManagerSecretVersionUpdate 2 1 s).2 = (trace s ++ tr)%list ∧
        Forall (λ mv, plannedMove "sec" "v2" stagesToAdd stagesToRemove mv.1) (stageMoves tr).
Proof.
  intros s. apply (update_moves_only_planned_labels 2 1 s "sec" "v2"). reflexivity.
Defined.

(** The protected label moves to [v2] from [v1], which is found on the
    first page. *)
Lemma addStage_relocates_CURRENT_witness :
  let rd := Scripted.resourceData "sec|v2" false ∅ {["AWSCURRENT"]} in
  let described := Some {| DescribeSecretOutput.ARN := None;
                           DescribeSecretOutput.Name := Some "sec" |} in
  let page1 := {| ListSecretVersionIdsOutput.Versions :=
                    [Scripted.version "v3" ["BAR"]; Scripted.version "v1" ["AWSCURRENT"]];
                  ListSecretVersionIdsOutput.NextToken := Some "page2" |} in
  addStage 1 "sec" "v2" "AWSCURRENT" (None, Some "v2") (Scripted.start Scripted.twoPages rd) =
    (Next (described, Some "v1"),
     {| world := Scripted.twoPages; d := rd;
        trace :=
          [Log "[DEBUG] Going to set AWSCURRENT staging label for secret %q version %q"
               [LogString "sec"; LogString "v2"];
           CallDescribeSecret {| DescribeSecretInput.SecretId := Some "sec" |} described None;
           CallListSecretVersionIds (listRequest "sec" None) (Some page1) None;
           Log "[DEBUG] Going to move AWSCURRENT staging label for secret %q from version: %q to version %q"
               [LogString "sec"; LogString "v1"; LogString "v2"];
           Log "[DEBUG] Updating Secrets Manager Secret Version Stage: %s"
               [LogInput (relocateInput "sec" "v2" "v1")];
           CallUpdateSecretVersionStage (relocateInput "sec" "v2" "v1") None] |}).
Proof.
  intros rd described page1.
  apply (addStage_relocates_CURRENT 0 "sec" "v2" (None, Some "v2")
    (Scripted.start Scripted.twoPages rd) described
    Scripted.twoPages [] Scripted.twoPages None page1 Scripted.twoPages
    [Scripted.version "v3" ["BAR"]] (Scripted.version "v1" ["AWSCURRENT"]) [] "v1"
    Scripted.twoPages).
  - reflexivity.
  - reflexivity.
  - constructor.
  - reflexivity.
  - reflexivity.
  - repeat constructor.
  - reflexivity.
  - reflexivity.
  - reflexivity.
Defined.

Lemma update_describes_at_most_once_witness :
  let s := Scripted.start Scripted.twoPages
             (Scripted.resourceData "sec|v2" false {["BAR"]} {["AWSCURRENT"; "FOO"]}) in
  ∃ tr, trace (resourceAwsSecretsManagerSecretVersionUpdate 2 1 s).2 = (trace s ++ tr)%list ∧
        (countDescribes tr ≤ 1)%nat.
Proof.
  intros s. apply update_describes_at_most_once.
  intros input w output w' [= <- _]. done.
Defined.

(** A configuration whose binary value holds a blank. *)
Lemma create_rejects_bad_binary_before_any_call_witness :
  let c := ScriptedCreate.start Scripted.noCurrent
             (ScriptedCreate.config "sec" "" "not base64" ∅) in
  ∃ err, resourceAwsSecretsManagerSecretVersionCreate 1 c = (Next (Some err), c).
Proof.
  intros c. apply (create_rejects_bad_binary_before_any_call 1 c).
  - simpl. discriminate.
  - left. reflexivity.
Defined.

(** A secret [sec] with a string value, on the store that has [v2]. *)
Lemma create_reads_back_the_version_it_put_witness :
  let c := ScriptedCreate.start Scripted.noCurrent
             (ScriptedCreate.config "sec" "hunter2" "" {["BAR"]}) in
  ∃ input,
    PutSecretValueInput.SecretId input = Some "sec" ∧
    resourceAwsSecretsManagerSecretVersionCreate 1 c =
      (Next None,
       {| resource :=
            {| world := Scripted.noCurrent;
               d := {| Id := "sec|v2"; IsNewResource := true;
                       prior_version_stages := ∅;
                       version_stages := list_to_set ["BAR"];
                       secret_id := "sec"; secret_string := Some "hunter2";
                       secret_binary := ""; version_id := Some "v2";
                       arn := Some "arn:aws:secretsmanager:::secret:sec" |};
               trace := [Log "[DEBUG] Putting Secrets Manager Secret %q value" [LogString "sec"];
                         CallGetSecretValue (readInput "sec" "v2")
                           (Some (Scripted.secretValue "v2" ["BAR"])) None] |};
          puts := [(input, Some ScriptedCreate.putAnswer, None)] |}).
Proof.
  intros c.
  refine (create_reads_back_the_version_it_put 1 c ScriptedCreate.putAnswer "v2"
            Scripted.noCurrent (Scripted.secretValue "v2" ["BAR"]) Scripted.noCurrent
            _ _ _ _ _ _).
  - left. reflexivity.
  - reflexivity.
  - reflexivity.
  - reflexivity.
  - intros input _. reflexivity.
  - reflexivity.
Defined.

(** A secret named [a|b]. *)
Lemma create_with_delimiter_in_secret_id_fails_after_put_witness :
  let c := ScriptedCreate.start Scripted.noCurrent
             (ScriptedCreate.config "a|b" "hunter2" "" ∅) in
  ∃ input,
    PutSecretValueInput.SecretId input = Some "a|b" ∧
    resourceAwsSecretsManagerSecretVersionCreate 1 c =
      (Next (Some (Errorf "expected ID in format SecretID|VersionID, received: %s"
                          ["a|b|v2"] None)),
       withId "a|b|v2" (afterPut c input (Some ScriptedCreate.putAnswer) None Scripted.noCurrent)).
Proof.
  intros c.
  apply (create_with_delimiter_in_secret_id_fails_after_put 1 c ScriptedCreate.putAnswer
           Scripted.noCurrent).
  - left. reflexivity.
  - simpl. lia.
  - intros input _. reflexivity.
Defined.

End FurtherRuns.

Section RefusedRuns.
#[local] Existing Instance Scripted.conn.
#[local] Existing Instance Scripted.ext.
#[local] Existing Instance ScriptedCreate.extCreate.
#[local] Existing Instance ScriptedTagsRefusing.conn.

(** The store refuses the value. *)
Lemma create_without_put_sets_no_id_witness :
  let c := ScriptedCreate.start Scripted.noCurrent
             (ScriptedCreate.config "sec" "hunter2" "" ∅) in
  let e := awserr "LimitExceededException" "too many versions" in
  ∃ c' input output,
    resourceAwsSecretsManagerSecretVersionCreate (connPut := ScriptedCreate.refusing) 1 c =
      (Next (Some (Errorf "error putting Secrets Manager Secret value: %s" [] (Some e))), c') ∧
    d (resource c') = d (resource c) ∧
    trace (resource c') =
      (trace (resource c) ++
       [Log "[DEBUG] Putting Secrets Manager Secret %q value" [LogString "sec"]])%list ∧
    puts c' = (puts c ++ [(input, output, Some e)])%list ∧
    PutSecretValueInput.SecretId input = Some "sec".
Proof.
  intros c e.
  apply (create_without_put_sets_no_id (connPut := ScriptedCreate.refusing) 1 c e
           Scripted.noCurrent).
  - left. reflexivity.
  - intros input _. exists None. reflexivity.
Defined.

(** The tag [team] is dropped and the store refuses to untag. *)
Lemma UpdateTags_stops_when_untagging_is_refused_witness :
  let old : gmap string string := {[ "env" := "prod"; "team" := "chat" ]} in
  let new : gmap string string := {[ "env" := "test" ]} in
  let err := Errorf "untagging resource (%s): %w" ["room"] (Some ScriptedTagsRefusing.refused) in
  ivschat.UpdateTags (tftags := ivschat.KeyValueTags_model) "room" old new
      (ScriptedTags.start old) =
    (Next (Some err),
     {| ivschat.world := old;
        ivschat.trace :=
          [ivschat.CallUntagResource
             (untagInput (tftags := ivschat.KeyValueTags_model) "room" old new)
             (Some ScriptedTagsRefusing.refused)] |}) ∧
  (∀ code, ErrCodeEquals (Some err) code =
           ErrCodeEquals (Some ScriptedTagsRefusing.refused) code).
Proof.
  intros old new err.
  apply (UpdateTags_stops_when_untagging_is_refused (tftags := ivschat.KeyValueTags_model)
           "room" old new (ScriptedTags.start old) ScriptedTagsRefusing.refused old).
  - vm_compute. lia.
  - reflexivity.
Defined.

End RefusedRuns.

Section PropagatingRuns.
#[local] Existing Instance Propagating.conn.
#[local] Existing Instance Scripted.ext.

(** Two reads are answered with "not found", the third finds the version;
    the window admits four. *)
Lemma read_of_new_resource_waits_for_the_version_witness :
  let rd := Scripted.resourceData "sec|v2" true ∅ {["AWSCURRENT"]} in
  let missed := CallGetSecretValue (readInput "sec" "v2") None (Some Propagating.notFound) in
  resourceAwsSecretsManagerSecretVersionRead 4 (Propagating.start 2 rd) =
    (Next None,
     {| world := 0;
        d := {| Id := "sec|v2"; IsNewResource := true;
                prior_version_stages := ∅;
                version_stages := list_to_set ["AWSCURRENT"];
                secret_id := "sec"; secret_string := Some "hunter2";
                secret_binary := ""; version_id := Some "v2";
                arn := Some "arn:aws:secretsmanager:::secret:sec" |};
        trace := [missed; missed;
                  CallGetSecretValue (readInput "sec" "v2")
                    (Some (Scripted.secretValue "v2" ["AWSCURRENT"])) None] |}).
Proof.
  intros rd missed.
  refine (read_of_new_resource_waits_for_the_version 1 (Propagating.start 2 rd) "sec" "v2"
            [missed; missed] 0 (Scripted.secretValue "v2" ["AWSCURRENT"]) 0 _ _ _ _).
  - reflexivity.
  - reflexivity.
  - apply (retriedReads_cons _ 2 None Propagating.notFound 1 [missed] 0);
      [reflexivity..|].
    apply (retriedReads_cons _ 1 None Propagating.notFound 0 [] 0);
      [reflexivity..|].
    constructor.
  - reflexivity.
Defined.

(** Five reads would be answered with "not found"; the window admits
    three. *)
Lemma read_of_new_resource_gives_up_witness :
  let rd := Scripted.resourceData "sec|v2" true ∅ {["AWSCURRENT"]} in
  let missed := CallGetSecretValue (readInput "sec" "v2") None (Some Propagating.notFound) in
  resourceAwsSecretsManagerSecretVersionRead 3 (Propagating.start 5 rd) =
    (Next (Some (Errorf "error reading Secrets Manager Secret Version (%s): %w"
                        ["sec|v2"] (Some Propagating.notFound))),
     {| world := 2; d := rd; trace := [missed; missed; missed] |}).
Proof.
  intros rd missed.
  apply (read_of_new_resource_gives_up (Propagating.start 5 rd) "sec" "v2"
           [missed; missed] 3 None Propagating.notFound 2).
  - reflexivity.
  - reflexivity.
  - apply (retriedReads_cons _ 5 None Propagating.notFound 4 [missed] 3);
      [reflexivity..|].
    apply (retriedReads_cons _ 4 None Propagating.notFound 3 [] 3);
      [reflexivity..|].
    constructor.
  - reflexivity.
  - reflexivity.
Defined.

End PropagatingRuns.
